(** * eve.methods.get: the GET methods of the resource and item endpoints

    A shallow embedding of [eve/methods/get.py].  Python dictionaries are
    finite maps from field names to values; the dictionaries the module
    mutates in place (documents, deltas, response envelopes) are objects of
    an explicit heap and are passed around by reference, so that aliasing
    and in-place updates are visible.  Exceptions (KeyError, the HTTP
    errors raised by [abort]) are results of an error monad that keeps the
    state reached when the exception was raised.  The calls made to the
    data layer and to the versioning helper are recorded in a log. *)

From Stdlib Require Import ZArith QArith Qround Lia Ascii.
From stdpp Require Import base option list gmap strings pretty fin_maps.

Set Default Proof Using "Type".
#[local] Set Warnings "-register-all,-notation-for-abbreviation".
#[local] Open Scope Z_scope.

(** ** Values, documents and objects *)

(** References to the dictionaries of the heap. *)
Notation loc := nat (only parsing).

(** The values a field of a dictionary holds.  A nested dictionary (a link,
    an embedded document) is a value: the module mutates nested
    dictionaries only through the single reference their owner holds.  A
    list of documents holds references to heap objects. *)
Inductive Value :=
  | VNone
  | VBool (b : bool)
  | VInt (n : Z)
  | VStr (s : string)
  | VDate (t : Z)
  | VDict (d : gmap string Value)
  | VRefs (ls : list loc).

Notation Document := (gmap string Value).

(** Python exceptions that the module raises or lets escape. *)
Inductive Exn :=
  | KeyError (k : string)
  | TypeError
  | ZeroDivisionError
  | HTTPException (code : Z)
  | DanglingRef (l : loc).

(** The structured request returned by [parse_request]. *)
Record ParsedRequest := {
  req_if_modified_since : option Z;
  req_if_none_match : option string;
  req_page : Z;
  req_max_results : Z;
  req_where : option string;
  req_sort : option string;
  req_embedded : option string }.

Definition set_max_results (n : Z) (r : ParsedRequest) : ParsedRequest :=
  {| req_if_modified_since := req_if_modified_since r;
     req_if_none_match := req_if_none_match r;
     req_page := req_page r;
     req_max_results := n;
     req_where := req_where r;
     req_sort := req_sort r;
     req_embedded := req_embedded r |}.

Definition set_if_modified_since (t : option Z) (r : ParsedRequest)
  : ParsedRequest :=
  {| req_if_modified_since := t;
     req_if_none_match := req_if_none_match r;
     req_page := req_page r;
     req_max_results := req_max_results r;
     req_where := req_where r;
     req_sort := req_sort r;
     req_embedded := req_embedded r |}.

Definition set_sort (s : option string) (r : ParsedRequest) : ParsedRequest :=
  {| req_if_modified_since := req_if_modified_since r;
     req_if_none_match := req_if_none_match r;
     req_page := req_page r;
     req_max_results := req_max_results r;
     req_where := req_where r;
     req_sort := s;
     req_embedded := req_embedded r |}.

(** What the module reads of the ambient HTTP request: the result of
    [parse_request(resource)] and [request.args.get(config.VERSION_PARAM)]. *)
Record RequestContext := {
  parsed : ParsedRequest;
  version_arg : option string }.

(** The two ways [resolve_document_version] is called by this module. *)
Inductive VersionMethod := GET_latest | GET_other.

(** Calls to the collaborators, in the order they are made. *)
Inductive Event :=
  | EvFind (resource : string) (req : ParsedRequest) (lookup : Document)
  | EvFindOne (resource : string) (lookup : Document)
  | EvIsEmpty (resource : string)
  | EvResolveVersion (resource : string) (method : VersionMethod)
                     (with_latest : bool)
  | EvCallback (name : string).

Record World := {
  heap : list Document;
  log : list Event }.

Definition with_heap (h : list Document) (w : World) : World :=
  {| heap := h; log := log w |}.

Definition with_log (l : list Event) (w : World) : World :=
  {| heap := heap w; log := l |}.

(** ** The state and exception monad *)

Definition M (A : Type) : Type := World → (Exn + A) * World.

Definition raise {A} (e : Exn) : M A := λ w, (inl e, w).

#[export] Instance M_ret : MRet M := λ A a w, (inr a, w).

#[export] Instance M_bind : MBind M := λ A B k m w,
  match m w with
  | (inl e, w') => (inl e, w')
  | (inr a, w') => k a w'
  end.

(** [for x in xs: body x] *)
Fixpoint for_each {A} (xs : list A) (body : A → M unit) : M unit :=
  match xs with
  | [] => mret tt
  | x :: xs' => body x;; for_each xs' body
  end.

Definition when (b : bool) (m : M unit) : M unit :=
  if b then m else mret tt.

(** *** Heap primitives *)

Definition alloc (d : Document) : M loc :=
  λ w, (inr (length (heap w)), with_heap (heap w ++ [d]) w).

Definition load (l : loc) : M Document :=
  λ w, match heap w !! l with
       | Some d => (inr d, w)
       | None => (inl (DanglingRef l), w)
       end.

Definition store (l : loc) (d : Document) : M unit :=
  λ w, match heap w !! l with
       | Some _ => (inr tt, with_heap (<[l := d]> (heap w)) w)
       | None => (inl (DanglingRef l), w)
       end.

Definition emit (e : Event) : M unit :=
  λ w, (inr tt, with_log (log w ++ [e]) w).

(** The effect of foreign code on the objects of the heap. *)
Definition modify_heap (f : list Document → list Document) : M unit :=
  λ w, (inr tt, with_heap (f (heap w)) w).

(** [d[k]] on a dictionary value. *)
Definition subscript (d : Document) (k : string) : M Value :=
  match d !! k with
  | Some v => mret v
  | None => raise (KeyError k)
  end.

(** [obj[k]], [obj[k] = v] and [del obj[k]] on a heap object. *)
Definition obj_get (l : loc) (k : string) : M Value :=
  d ← load l; subscript d k.

Definition obj_set (l : loc) (k : string) (v : Value) : M unit :=
  d ← load l; store l (<[k := v]> d).

Definition obj_del (l : loc) (k : string) : M unit :=
  d ← load l;
  match d !! k with
  | Some _ => store l (delete k d)
  | None => raise (KeyError k)
  end.

(** [copy.deepcopy(obj)]: a new object with the same content. *)
Definition deepcopy (l : loc) : M loc :=
  d ← load l; alloc d.

(** [obj.update(other)]: the fields of [other] win. *)
Definition obj_update (l other : loc) : M unit :=
  d ← load l; o ← load other; store l (o ∪ d).

(** [abort(code)] *)
Definition abort {A} (code : Z) : M A := raise (HTTPException code).

(** ** Configuration and collaborators *)

(** A [data_relation] of a field definition, with the truth value of its
    [embeddable] key ([.get('embeddable')], false when absent). *)
Record DataRelation := {
  dr_resource : string;
  dr_embeddable : bool }.

Record FieldDefinition := {
  data_relation : option DataRelation }.

(** An entry of [config.DOMAIN]. *)
Record ResourceDef := {
  hateoas : bool;
  versioning : bool;
  pagination : bool;
  item_lookup_field : string;
  resource_title : string;
  item_title : string;
  default_embedded_fields : list string;
  schema : gmap string FieldDefinition }.

(** The body of a response: a dictionary of the heap (a document, an
    envelope, the empty dictionary) or a list of documents. *)
Inductive Body :=
  | BodyObj (l : loc)
  | BodyList (ls : list loc).

(** What [app.data.find] returns: the documents the cursor yields, its
    [count()] and its optional [extra] method, which may change the objects
    reachable from the response. *)
Record Cursor := {
  cur_documents : list Document;
  cur_count : Z;
  cur_extra : option (Body → list Document → list Document) }.

(** The response handed to the transport layer. *)
Record Response := {
  resp_body : Body;
  resp_last_modified : Value;
  resp_etag : Value;
  resp_status : Z }.

(** The settings and the functions of other modules that [get.py] uses.
    None of them is defined in this module; they are parameters of the
    development.  A callback receives the references it is called with and
    may change the objects of the heap. *)
Record Env := {
  (* config *)
  IF_MATCH : bool;
  ID_FIELD : string;
  DATE_CREATED : string;
  LAST_UPDATED : string;
  ETAG : string;
  LINKS : string;
  ITEMS : string;
  VERSION : string;
  VERSIONS : string;
  DOMAIN : gmap string ResourceDef;
  (* eve.methods.common and eve.utils *)
  epoch : Z;
  date_created : Document → Z;
  last_updated : Document → Z;
  resource_media_fields : Document → string → list string;
  document_etag : Document → string;
  document_link : string → Value → Value;
  home_link : Value;
  resource_uri : string → string;
  querydef : Z → option string → option string → Z → string;
  (* eve.versioning *)
  versioned_id_field : string;
  versioned_fields : ResourceDef → list string;
  resolve_version :
    Document → string → VersionMethod → option Document → Document;
  diff_document : ResourceDef → Document → Document → Document;
  (* app.data and app.media *)
  data_find : string → ParsedRequest → Document → Cursor;
  data_find_one : string → option ParsedRequest → Document → option Document;
  data_is_empty : string → bool;
  media_get : Value → option string;
  (* json, base64 and int *)
  json_loads : string → option Value;
  base64_encodestring : string → string;
  int_of_str : string → option Z;
  (* callbacks registered on the application *)
  callback : string → list Value → list Document → list Document }.

(** ** Python helpers *)

(** [dict(d); del d[k]] on a local dictionary. *)
Definition dict_del (d : Document) (k : string) : M Document :=
  match d !! k with
  | Some _ => mret (delete k d)
  | None => raise (KeyError k)
  end.

(** [v == 1]: the integer one and the boolean [True] are equal to 1. *)
Definition eq_one (v : Value) : bool :=
  match v with
  | VInt 1 => true
  | VBool true => true
  | _ => false
  end.

(** [v == s] for a string [s]. *)
Definition eq_str (v : Value) (s : string) : bool :=
  match v with
  | VStr s' => bool_decide (s' = s)
  | _ => false
  end.

(** Truth value of an optional string: [None] and the empty string are
    false. *)
Definition truthy_str (o : option string) : bool :=
  match o with
  | Some s => negb (bool_decide (s = ""))
  | None => false
  end.

(** The value is used as a date (compared with a date). *)
Definition as_date (v : Value) : M Z :=
  match v with
  | VDate t => mret t
  | _ => raise TypeError
  end.

(** The value is used as a dictionary. *)
Definition as_dict (v : Value) : M Document :=
  match v with
  | VDict d => mret d
  | _ => raise TypeError
  end.

(** [s.lower()] on ASCII letters. *)
Definition lower_ascii (c : ascii) : ascii :=
  let n := nat_of_ascii c in
  if ((65 <=? n) && (n <=? 90))%nat then ascii_of_nat (n + 32) else c.

Fixpoint lower (s : string) : string :=
  match s with
  | EmptyString => EmptyString
  | String c s' => String (lower_ascii c) (lower s')
  end.

(** The double quote character, as a string. *)
Definition dquote : string := String (ascii_of_nat 34) EmptyString.

(** [int(math.ceil(a / float(b)))].  The quotient is taken in the rationals:
    the floating-point quotient of two integers below 2^53 has the same
    ceiling. *)
Definition ceil_div (a b : Z) : M Z :=
  if bool_decide (b = 0) then raise ZeroDivisionError
  else mret (Qceiling (inject_Z a / inject_Z b)).

(** [{'title': title, 'href': href}] *)
Definition link (title href : string) : Value :=
  VDict (<["title" := VStr title]> (<["href" := VStr href]> ∅)).

(** ** The module *)

Section Module.
Variable E : Env.

(** [config.DOMAIN[resource]] *)
Definition domain (resource : string) : M ResourceDef :=
  match DOMAIN E !! resource with
  | Some rd => mret rd
  | None => raise (KeyError resource)
  end.

(** *** Calls to the collaborators *)

Definition find (resource : string) (req : ParsedRequest) (lookup : Document)
  : M Cursor :=
  emit (EvFind resource req lookup);;
  mret (data_find E resource req lookup).

Definition find_one (resource : string) (req : option ParsedRequest)
    (lookup : Document) : M (option Document) :=
  emit (EvFindOne resource lookup);;
  mret (data_find_one E resource req lookup).

Definition is_empty (resource : string) : M bool :=
  emit (EvIsEmpty resource);;
  mret (data_is_empty E resource).

(** A call to the callback [getattr(app, name)]. *)
Definition call (name : string) (args : list Value) : M unit :=
  emit (EvCallback name);;
  modify_heap (callback E name args).

(** [resolve_document_version(document, resource, method, latest_doc)]
    updates [document] in place and reads [latest_doc]. *)
Definition resolve_document_version (document : loc) (resource : string)
    (method : VersionMethod) (latest_doc : option loc) : M unit :=
  d ← load document;
  latest ← match latest_doc with
           | Some l => o ← load l; mret (Some o)
           | None => mret None
           end;
  emit (EvResolveVersion resource method (bool_decide (is_Some latest_doc)));;
  store document (resolve_version E d resource method latest).

(** *** [_resolve_media_files] *)

Definition _resolve_media_files (document : loc) (resource : string)
  : M unit :=
  d ← load document;
  for_each (resource_media_fields E d resource) (λ field,
    ref ← obj_get document field;
    obj_set document field
      match media_get E ref with
      | Some content => VStr (base64_encodestring E content)
      | None => VNone
      end).

(** *** [_resolve_embedded_documents] *)

Definition _resolve_embedded_documents (document : loc) (resource : string)
    (embedded_fields : list string) : M unit :=
  for_each embedded_fields (λ field,
    rd ← domain resource;
    field_definition ← match schema rd !! field with
                       | Some fd => mret fd
                       | None => raise (KeyError field)
                       end;
    relation ← match data_relation field_definition with
               | Some r => mret r
               | None => raise (KeyError "data_relation")
               end;
    ref ← obj_get document field;
    embedded_doc ← find_one (dr_resource relation) None
                     (<[ID_FIELD E := ref]> ∅);
    match embedded_doc with
    | Some ed =>
        when (bool_decide (ed ≠ ∅)) (obj_set document field (VDict ed))
    | None => mret tt
    end).

(** *** [_build_response_document] *)

Definition _build_response_document (document : loc) (resource : string)
    (embedded_fields : list string) (latest_doc : option loc) : M unit :=
  d ← load document;
  obj_set document (DATE_CREATED E) (VDate (date_created E d));;
  d ← load document;
  obj_set document (LAST_UPDATED E) (VDate (last_updated E d));;
  (* generate ETag *)
  when (IF_MATCH E)
    (d ← load document;
     obj_set document (ETAG E) (VStr (document_etag E d)));;
  (* hateoas links *)
  rd ← domain resource;
  when (hateoas rd)
    (key ← obj_get document (item_lookup_field rd);
     obj_set document (LINKS E)
       (VDict (<["self" := document_link E resource key]> ∅)));;
  (* add version numbers *)
  match latest_doc with
  | None => resolve_document_version document resource GET_latest None
  | Some l => resolve_document_version document resource GET_other (Some l)
  end;;
  (* media and embedded documents *)
  _resolve_media_files document resource;;
  _resolve_embedded_documents document resource embedded_fields.

(** *** [_synthesize_previous_version] *)

Definition _synthesize_previous_version (document delta : loc)
    (resource_def : ResourceDef) : M loc :=
  old_doc ← deepcopy document;
  ref ← obj_get delta (versioned_id_field E);
  obj_set delta (ID_FIELD E) ref;;
  obj_del delta (versioned_id_field E);;
  (* remove all versioned fields from document *)
  let fields := versioned_fields E resource_def in
  d ← load document;
  for_each (elements (dom d)) (λ field,
    when (bool_decide (field ∈ fields)) (obj_del old_doc field));;
  (* add versioned fields *)
  obj_update old_doc delta;;
  mret old_doc.

(** *** [_resolve_embedded_fields] *)

(** The field definition has a [data_relation] whose [embeddable] is true. *)
Definition embeddable (rd : ResourceDef) (field : string) : bool :=
  match schema rd !! field with
  | Some fd =>
      match data_relation fd with
      | Some r => dr_embeddable r
      | None => false
      end
  | None => false
  end.

Definition _resolve_embedded_fields (resource : string) (req : ParsedRequest)
  : M (list string) :=
  embedded_fields ←
    (if truthy_str (req_embedded req) then
       match json_loads E (default "" (req_embedded req)) with
       | None => abort 400
       | Some (VDict client_embedding) =>
           mret (filter (λ kv, eq_one kv.2) (map_to_list client_embedding)).*1
       | Some _ => abort 400
       end
     else mret []);
  rd ← domain resource;
  let embedded_fields :=
    elements (list_to_set (default_embedded_fields rd)
              ∪ list_to_set embedded_fields : gset string) in
  (* For each field, is the field allowed to be embedded? *)
  mret (filter (λ field, embeddable rd field) embedded_fields).

(** *** [_pagination_links] *)

Definition _pagination_links (resource : string) (req : ParsedRequest)
    (documents_count : Z) : M Document :=
  rd ← domain resource;
  let uri := resource_uri E resource in
  let _links : Document :=
    <["parent" := home_link E]>
      (<["self" := link (resource_title rd) uri]> ∅) in
  if negb (bool_decide (documents_count = 0)) && pagination rd then
    _links ←
      (if bool_decide (req_page req * req_max_results req < documents_count)
       then
         let q := querydef E (req_max_results req) (req_where req)
                    (req_sort req) (req_page req + 1) in
         let _links := <["next" := link "next page" (uri +:+ q)]> _links in
         last_page ← ceil_div documents_count (req_max_results req);
         let q := querydef E (req_max_results req) (req_where req)
                    (req_sort req) last_page in
         mret (<["last" := link "last page" (uri +:+ q)]> _links)
       else mret _links);
    if bool_decide (1 < req_page req) then
      let q := querydef E (req_max_results req) (req_where req)
                 (req_sort req) (req_page req - 1) in
      mret (<["prev" := link "previous page" (uri +:+ q)]> _links)
    else mret _links
  else mret _links.

(** *** [get] *)

(** The loop over the cursor of [get]: every document the cursor yields is a
    new object; it is enriched, appended to [documents], and [last_update]
    follows the greatest LAST_UPDATED. *)
Fixpoint get_documents (resource : string) (embedded_fields : list string)
    (cursor : list Document) (documents : list loc) (last_update : Z)
  : M (list loc * Z) :=
  match cursor with
  | [] => mret (documents, last_update)
  | d :: cursor' =>
      document ← alloc d;
      _build_response_document document resource embedded_fields None;;
      let documents := documents ++ [document] in
      updated ← obj_get document (LAST_UPDATED E);
      t ← as_date updated;
      get_documents resource embedded_fields cursor' documents
        (if bool_decide (last_update < t) then t else last_update)
  end.

Definition get (req : ParsedRequest) (resource : string) (lookup : Document)
  : M Response :=
  response ← alloc ∅;
  let etag := VNone in
  embedded_fields ← _resolve_embedded_fields resource req;
  (* facilitate cached responses *)
  not_modified ←
    match req_if_modified_since req with
    | Some _ =>
        let preflight_req := set_max_results 1 req in
        cursor ← find resource preflight_req lookup;
        if bool_decide (cur_count cursor = 0) then
          empty ← is_empty resource; mret (negb empty)
        else mret false
    | None => mret false
    end;
  if not_modified : bool then
    mret {| resp_body := BodyObj response; resp_last_modified := VNone;
            resp_etag := etag; resp_status := 304 |}
  else
    (* continue processing the full request *)
    let last_update := epoch E in
    let req := set_if_modified_since None req in
    cursor ← find resource req lookup;
    '(documents, last_update) ←
      get_documents resource embedded_fields (cur_documents cursor) []
        last_update;
    let last_modified :=
      if bool_decide (epoch E < last_update) then VDate last_update
      else VNone in
    call "on_fetch_resource" [VStr resource; VRefs documents];;
    call ("on_fetch_resource_" +:+ resource) [VRefs documents];;
    rd ← domain resource;
    response ←
      (if hateoas rd then
         obj_set response (ITEMS E) (VRefs documents);;
         links ← _pagination_links resource req (cur_count cursor);
         obj_set response (LINKS E) (VDict links);;
         mret (BodyObj response)
       else mret (BodyList documents));
    match cur_extra cursor with
    | Some extra => modify_heap (extra response)
    | None => mret tt
    end;;
    mret {| resp_body := response; resp_last_modified := last_modified;
            resp_etag := etag; resp_status := 200 |}.

(** *** [getitem] *)

(** The loop of [getitem] over the cursor of the stored versions.  [i] is the
    index of [enumerate]. *)
Fixpoint versions (diffs : bool) (latest_doc : loc) (resource : string)
    (resource_def : ResourceDef) (embedded_fields : list string)
    (cursor : list Document) (i : nat) (last_document : loc)
    (documents : list loc) : M (list loc) :=
  match cursor with
  | [] => mret documents
  | d :: cursor' =>
      delta ← alloc d;
      document ← _synthesize_previous_version latest_doc delta resource_def;
      _build_response_document document resource embedded_fields
        (Some latest_doc);;
      if diffs then
        documents ←
          (if bool_decide (i = 0%nat) then mret (documents ++ [document])
           else
             prev ← load last_document;
             cur ← load document;
             diff ← alloc (diff_document E resource_def prev cur);
             mret (documents ++ [diff]));
        versions diffs latest_doc resource resource_def embedded_fields
          cursor' (S i) document documents
      else
        versions diffs latest_doc resource resource_def embedded_fields
          cursor' (S i) last_document (documents ++ [document])
  end.

(** [lookup[versioned_id_field()] = lookup[ID_FIELD]; del lookup[ID_FIELD]] *)
Definition rekey_lookup (lookup : Document) : M Document :=
  ref ← subscript lookup (ID_FIELD E);
  dict_del (<[versioned_id_field E := ref]> lookup) (ID_FIELD E).

(** [response[LINKS][rel] = target] *)
Definition set_link (response : loc) (rel : string) (target : Value)
  : M unit :=
  links ← obj_get response (LINKS E);
  links ← as_dict links;
  obj_set response (LINKS E) (VDict (<[rel := target]> links)).

(** [getitem] is given block by block; every block takes the local
    variables it reads. *)

(** Lines 206-230: the selection of the version.  The result is the
    document to respond with, the lookup and [return_all_versions].  The
    delta is looked up without a request (line 226). *)
Definition select_version (ctx : RequestContext) (resource : string)
    (resource_def : ResourceDef) (document : loc) (lookup : Document)
  : M (loc * Document * bool) :=
  if versioning resource_def then
    let version := version_arg ctx in
    if bool_decide (version = Some "all")
       || bool_decide (version = Some "diffs")
    then mret (document, lookup, true)
    else
      match version with
      | Some s =>
          version ← match int_of_str E s with
                    | Some n =>
                        if bool_decide (0 < n) then mret n else abort 400
                    | None => abort 400
                    end;
          (* parameters to find specific document version *)
          lookup ← rekey_lookup lookup;
          let lookup := <[VERSION E := VInt version]> lookup in
          (* synthesize old document from latest and delta *)
          found ← find_one (resource +:+ VERSIONS E) None lookup;
          if bool_decide (default ∅ found ≠ ∅) then
            delta ← alloc (default ∅ found);
            document ←
              _synthesize_previous_version document delta resource_def;
            mret (document, lookup, false)
          else abort 404
      | None => mret (document, lookup, false)
      end
  else mret (document, lookup, false).

(** Lines 244 and 250: [return {}, last_modified, document[ETAG], 304]. *)
Definition not_modified (document : loc) (last_modified : Value)
  : M Response :=
  empty ← alloc ∅;
  tag ← obj_get document (ETAG E);
  mret {| resp_body := BodyObj empty; resp_last_modified := last_modified;
          resp_etag := tag; resp_status := 304 |}.

(** Lines 253-283: the body of the response with all the versions.
    [response] is the dictionary created at line 200. *)
Definition versions_response (ctx : RequestContext) (resource : string)
    (resource_def : ResourceDef) (embedded_fields : list string)
    (latest_doc response : loc) (lookup : Document) : M Body :=
  let req := parsed ctx in
  (* build all documents *)
  lookup ← rekey_lookup lookup;
  let diffs := bool_decide (version_arg ctx = Some "diffs") in
  let req :=
    if diffs then
      set_sort (Some ("[(" +:+ dquote +:+ VERSION E +:+ dquote +:+ ", 1)]"))
        req
    else req in
  cursor ← find (resource +:+ VERSIONS E) req lookup;
  last_document ← alloc ∅;
  documents ←
    versions diffs latest_doc resource resource_def embedded_fields
      (cur_documents cursor) 0 last_document [];
  if hateoas resource_def then
    obj_set response (ITEMS E) (VRefs documents);;
    mret (BodyObj response)
  else mret (BodyList documents).

(** Lines 284-295: the callbacks and the body of the response with one
    document. *)
Definition document_response (resource : string)
    (resource_def : ResourceDef) (document : loc) : M Body :=
  let item_title := lower (item_title resource_def) in
  id ← obj_get document (ID_FIELD E);
  call "on_fetch_item" [VStr resource; id; VRefs [document]];;
  id ← obj_get document (ID_FIELD E);
  call ("on_fetch_item_" +:+ item_title) [id; VRefs [document]];;
  mret (BodyObj document).

(** Lines 297-304: the extra hateoas links. *)
Definition extra_links (resource : string) (resource_def : ResourceDef)
    (response : Body) : M unit :=
  when (hateoas resource_def)
    match response with
    | BodyObj r =>
        d ← load r;
        when (bool_decide (d !! LINKS E = None))
          (obj_set r (LINKS E) (VDict ∅));;
        set_link r "collection"
          (link (resource_title resource_def) (resource_uri E resource));;
        set_link r "parent" (home_link E)
    | BodyList _ => raise TypeError
    end.

(** Lines 252-306: the response when no condition matched. *)
Definition respond (ctx : RequestContext) (resource : string)
    (resource_def : ResourceDef) (embedded_fields : list string)
    (latest_doc response document : loc) (lookup : Document)
    (return_all_versions : bool) (last_modified etag : Value) : M Response :=
  response ←
    (if return_all_versions then
       versions_response ctx resource resource_def embedded_fields latest_doc
         response lookup
     else document_response resource resource_def document);
  extra_links resource resource_def response;;
  mret {| resp_body := response; resp_last_modified := last_modified;
          resp_etag := etag; resp_status := 200 |}.

Definition getitem (ctx : RequestContext) (resource : string)
    (lookup : Document) : M Response :=
  let req := parsed ctx in
  resource_def ← domain resource;
  embedded_fields ← _resolve_embedded_fields resource req;
  found ← find_one resource (Some req) lookup;
  if bool_decide (default ∅ found ≠ ∅) then
    document ← alloc (default ∅ found);
    response ← alloc ∅;
    (* synthesize old document version(s) *)
    latest_doc ← deepcopy document;
    '(document, lookup, return_all_versions) ←
      select_version ctx resource resource_def document lookup;
    _build_response_document document resource embedded_fields
      (Some latest_doc);;
    (* last_modified for the response *)
    last_modified ← obj_get document (LAST_UPDATED E);
    let respond :=
      respond ctx resource resource_def embedded_fields latest_doc response
        document lookup return_all_versions last_modified in
    (* lines 246-250, then the response *)
    let if_modified_since (etag : Value) : M Response :=
      match req_if_modified_since req with
      | Some since =>
          t ← as_date last_modified;
          if bool_decide (t ≤ since) then not_modified document last_modified
          else respond etag
      | None => respond etag
      end in
    (* facilitate client caching by returning a 304 when appropriate *)
    if IF_MATCH E then
      etag ← obj_get document (ETAG E);
      if truthy_str (req_if_none_match req) then
        tag ← obj_get document (ETAG E);
        if eq_str tag (default "" (req_if_none_match req))
        then not_modified document last_modified
        else if_modified_since etag
      else if_modified_since etag
    else if_modified_since VNone
  else abort 404.

End Module.

(** ** Notions used by the statements *)

(** The delta after its identity reference has been re-keyed to ID_FIELD. *)
Definition rekeyed (E : Env) (delta : Document) (ref : Value) : Document :=
  delete (versioned_id_field E) (<[ID_FIELD E := ref]> delta).

(** ** A sample deployment

    One resource, [people], with versioning and pagination, whose field
    [boss] is an embeddable relation to [people] itself.  The store of [env]
    holds one person, now at version 3, and the three deltas of its
    history; [env_with] takes the stored people as a parameter. *)

Module Sample.

Definition people_def (links : bool) : ResourceDef :=
  {| hateoas := links;
     versioning := true;
     pagination := true;
     item_lookup_field := "_id";
     resource_title := "people";
     item_title := "Person";
     default_embedded_fields := [];
     schema :=
       <["name" := {| data_relation := None |}]>
       (<["boss" := {| data_relation :=
                         Some {| dr_resource := "people";
                                 dr_embeddable := true |} |}]>
       (<["peer" := {| data_relation :=
                         Some {| dr_resource := "people";
                                 dr_embeddable := false |} |}]> ∅)) |}.

Definition person : Document :=
  <["_id" := VInt 7]> (<["_version" := VInt 3]> (<["_updated" := VDate 300]>
  (<["_created" := VDate 100]> (<["name" := VStr "Ann"]>
  (<["boss" := VInt 7]> ∅))))).

Definition delta (version : Z) (name : string) : Document :=
  <["_id" := VInt (40 + version)]> (<["_id_document" := VInt 7]>
  (<["_version" := VInt version]> (<["_updated" := VDate (100 * version)]>
  (<["name" := VStr name]> ∅)))).

Definition deltas : list Document :=
  [delta 1 "A"; delta 2 "An"; delta 3 "Ann"].

Definition stamp (field : string) (d : Document) : Z :=
  match d !! field with
  | Some (VDate t) => t
  | _ => 0
  end.

(** Equality of values that are not dictionaries. *)
Definition same (a b : Value) : bool :=
  match a, b with
  | VNone, VNone => true
  | VBool x, VBool y => bool_decide (x = y)
  | VInt x, VInt y => bool_decide (x = y)
  | VStr x, VStr y => bool_decide (x = y)
  | VDate x, VDate y => bool_decide (x = y)
  | VRefs x, VRefs y => bool_decide (x = y)
  | _, _ => false
  end.

Definition changed (prev : Document) (kv : string * Value) : bool :=
  match prev !! kv.1 with
  | Some v => negb (same v kv.2)
  | None => true
  end.

Fixpoint digits (s : string) (acc : Z) : option Z :=
  match s with
  | EmptyString => Some acc
  | String c s' =>
      let n := Z.of_nat (nat_of_ascii c) in
      if bool_decide (48 ≤ n ≤ 57) then digits s' (10 * acc + (n - 48))
      else None
  end.

(** The documents of [stored] modified after the date of the condition. *)
Definition modified_since (since : option Z) (stored : list Document)
  : list Document :=
  match since with
  | Some t => filter (λ d, t < stamp "_updated" d) stored
  | None => stored
  end.

Definition env_with (if_match links : bool) (stored : list Document) : Env :=
  {| IF_MATCH := if_match;
     ID_FIELD := "_id";
     DATE_CREATED := "_created";
     LAST_UPDATED := "_updated";
     ETAG := "_etag";
     LINKS := "_links";
     ITEMS := "_items";
     VERSION := "_version";
     VERSIONS := "_versions";
     DOMAIN := <["people" := people_def links]> ∅;
     epoch := 0;
     date_created := stamp "_created";
     last_updated := stamp "_updated";
     resource_media_fields := λ _ _, [];
     document_etag := λ d, pretty (size d);
     document_link := λ resource key, link resource ("/" +:+ resource);
     home_link := link "home" "/";
     resource_uri := λ resource, "/" +:+ resource;
     querydef := λ max_results _ _ page,
       "?max_results=" +:+ pretty max_results +:+ "&page=" +:+ pretty page;
     versioned_id_field := "_id_document";
     versioned_fields := λ rd, "_updated" :: elements (dom (schema rd));
     resolve_version := λ d _ _ latest,
       <["_latest_version" :=
           default (VInt 1) (default d latest !! "_version")]> d;
     diff_document := λ _ prev cur, filter (λ kv, changed prev kv) cur;
     data_find := λ resource req _,
       let found :=
         if bool_decide (resource = "people")
         then modified_since (req_if_modified_since req) stored
         else deltas in
       {| cur_documents := found;
          cur_count := Z.of_nat (length found);
          cur_extra := None |};
     data_find_one := λ resource _ lookup,
       if bool_decide (resource = "people") then
         match lookup !! "_id" with
         | Some (VInt 7) => head stored
         | _ => None
         end
       else
         match lookup !! "_version" with
         | Some (VInt n) => deltas !! Z.to_nat (n - 1)
         | _ => None
         end;
     data_is_empty := λ _, match stored with [] => true | _ => false end;
     media_get := λ _, None;
     json_loads := λ s,
       if bool_decide (s = "{boss: 1}")
       then Some (VDict (<["boss" := VInt 1]> ∅))
       else if bool_decide (s = "{boss: 1, pet: 1}")
       then Some (VDict (<["pet" := VInt 1]> (<["boss" := VInt 1]> ∅)))
       else if bool_decide (s = "{boss: 1, peer: 1}")
       then Some (VDict (<["peer" := VInt 1]> (<["boss" := VInt 1]> ∅)))
       else None;
     base64_encodestring := λ s, s;
     int_of_str := λ s, if bool_decide (s = "") then None else digits s 0;
     callback := λ _ _ h, h |}.

Definition env (if_match links : bool) : Env :=
  env_with if_match links [person].

Definition request : ParsedRequest :=
  {| req_if_modified_since := None;
     req_if_none_match := None;
     req_page := 1;
     req_max_results := 10;
     req_where := None;
     req_sort := None;
     req_embedded := None |}.

Definition embedding (clause : string) : ParsedRequest :=
  {| req_if_modified_since := None;
     req_if_none_match := None;
     req_page := 1;
     req_max_results := 10;
     req_where := None;
     req_sort := None;
     req_embedded := Some clause |}.

Definition empty_world : World := {| heap := []; log := [] |}.

End Sample.

(** ** The enrichment seen from the document

    [_build_response_document] assigns only to the fields of the object
    [document]; of the other objects it reads [latest_doc] alone.  The
    functions below give, for the content [d] of that object, the outcome of
    each step: the exception raised if any, the content reached, and the
    calls logged.  They are related to the functions of the module by the
    lemmas [run_resolve_media_files], [run_resolve_embedded_documents] and
    [run_build_response_document]. *)

Section DocumentView.
Variable E : Env.

Definition media_payload (ref : Value) : Value :=
  match media_get E ref with
  | Some content => VStr (base64_encodestring E content)
  | None => VNone
  end.

Fixpoint media_files_view (fields : list string) (d : Document)
  : (Exn + unit) * Document :=
  match fields with
  | [] => (inr tt, d)
  | field :: fields' =>
      match d !! field with
      | Some ref => media_files_view fields' (<[field := media_payload ref]> d)
      | None => (inl (KeyError field), d)
      end
  end.

(** The content after the embedded document, if found, has replaced the
    reference held by [field]. *)
Definition embed (relation : DataRelation) (field : string) (ref : Value)
    (d : Document) : Document :=
  match data_find_one E (dr_resource relation) None (<[ID_FIELD E := ref]> ∅)
  with
  | Some ed => if bool_decide (ed ≠ ∅) then <[field := VDict ed]> d else d
  | None => d
  end.

Fixpoint embedded_documents_view (resource : string) (fields : list string)
    (d : Document) : (Exn + unit) * Document * list Event :=
  match fields with
  | [] => (inr tt, d, [])
  | field :: fields' =>
      match DOMAIN E !! resource with
      | None => (inl (KeyError resource), d, [])
      | Some rd =>
          match schema rd !! field with
          | None => (inl (KeyError field), d, [])
          | Some fd =>
              match data_relation fd with
              | None => (inl (KeyError "data_relation"), d, [])
              | Some relation =>
                  match d !! field with
                  | None => (inl (KeyError field), d, [])
                  | Some ref =>
                      let '(r, d', evs) :=
                        embedded_documents_view resource fields'
                          (embed relation field ref d) in
                      (r, d',
                       EvFindOne (dr_resource relation)
                         (<[ID_FIELD E := ref]> ∅) :: evs)
                  end
              end
          end
      end
  end.

(** The content over which the ETag is computed: the stored content with its
    two time stamps resolved. *)
Definition stamped (d : Document) : Document :=
  let d := <[DATE_CREATED E := VDate (date_created E d)]> d in
  <[LAST_UPDATED E := VDate (last_updated E d)]> d.

Definition tagged (d : Document) : Document :=
  if IF_MATCH E then <[ETAG E := VStr (document_etag E d)]> d else d.

Definition build_view (resource : string) (embedded_fields : list string)
    (latest : option Document) (d : Document)
  : (Exn + unit) * Document * list Event :=
  let d := tagged (stamped d) in
  match DOMAIN E !! resource with
  | None => (inl (KeyError resource), d, [])
  | Some rd =>
      let linked :=
        if hateoas rd then
          match d !! item_lookup_field rd with
          | Some key =>
              inr (<[LINKS E :=
                       VDict (<["self" := document_link E resource key]> ∅)]>
                     d)
          | None => inl (KeyError (item_lookup_field rd))
          end
        else inr d in
      match linked with
      | inl e => (inl e, d, [])
      | inr d =>
          let method := match latest with
                        | Some _ => GET_other
                        | None => GET_latest
                        end in
          let ev :=
            EvResolveVersion resource method (bool_decide (is_Some latest)) in
          let d := resolve_version E d resource method latest in
          match media_files_view (resource_media_fields E d resource) d with
          | (inl e, d) => (inl e, d, [ev])
          | (inr _, d) =>
              let '(r, d, evs) :=
                embedded_documents_view resource embedded_fields d in
              (r, d, ev :: evs)
          end
      end
  end.

End DocumentView.

(** The content of the optional object [latest_doc] is [latest]. *)
Definition holds (h : list Document) (latest_doc : option loc)
    (latest : option Document) : Prop :=
  match latest_doc, latest with
  | Some l, Some d => h !! l = Some d
  | None, None => True
  | _, _ => False
  end.

(** The world after a step on the object [l] with the given outcome. *)
Definition after (w : World) (l : loc)
    (o : (Exn + unit) * Document * list Event) : (Exn + unit) * World :=
  (o.1.1, {| heap := <[l := o.1.2]> (heap w); log := log w ++ o.2 |}).

(** The dictionary that the embedding clause of the request denotes: empty
    when the request has no clause, none when the clause is not the JSON text
    of a dictionary. *)
Definition client_embedding (E : Env) (req : ParsedRequest)
  : option Document :=
  if truthy_str (req_embedded req) then
    match json_loads E (default "" (req_embedded req)) with
    | Some (VDict d) => Some d
    | _ => None
    end
  else Some ∅.

(** The fields that a clause asks for: its keys whose value is 1. *)
Definition requested (d : Document) : list string :=
  (filter (λ kv, eq_one kv.2) (map_to_list d)).*1.

(** The candidate fields: the defaults of the resource and the fields the
    client asked for. *)
Definition candidates (rd : ResourceDef) (d : Document) : list string :=
  elements (list_to_set (default_embedded_fields rd)
            ∪ list_to_set (requested d) : gset string).

(** [m] treats the log as write-only: from a heap [h] its result and final
    heap do not depend on the log, to which it appends events that all
    satisfy [P]. *)
Definition writes {A} (P : Event → Prop) (m : M A) : Prop :=
  ∀ h, ∃ r h' evs,
    Forall P evs
    ∧ ∀ lg, m {| heap := h; log := lg |}
            = (r, {| heap := h'; log := lg ++ evs |}).

(** The event is not a version resolution in the mode of the latest
    document: a version resolution is in the other mode and is given the
    latest document. *)
Definition against_latest (e : Event) : Prop :=
  ∀ resource method with_latest,
    e = EvResolveVersion resource method with_latest →
    method = GET_other ∧ with_latest = true.

(** The document that the loop over the stored versions produces for one
    delta of the cursor (lines 264-267): the delta is a new object, a
    previous version is synthesized from the latest document and the delta,
    and it is enriched with the latest document as reference.  It is
    computed in a heap that holds the latest document alone; none when the
    synthesis or the enrichment raises. *)
Definition synthesized (E : Env) (resource : string) (rd : ResourceDef)
    (embedded_fields : list string) (latest delta : Document)
  : option Document :=
  let run :=
    (delta ← alloc delta;
     document ← _synthesize_previous_version E 0%nat delta rd;
     _build_response_document E document resource embedded_fields
       (Some 0%nat);;
     mret document) {| heap := [latest]; log := [] |} in
  match run.1 with
  | inr document => heap run.2 !! document
  | inl _ => None
  end.

(** The content synthesized from the latest document and a delta, before
    enrichment. *)
Definition merged (E : Env) (rd : ResourceDef) (L D : Document) (ref : Value)
  : Document :=
  rekeyed E D ref ∪ filter (λ kv, kv.1 ∉ versioned_fields E rd) L.

(** The list of documents that a response body emits: the body itself, or
    the items of the envelope. *)
Definition emitted (E : Env) (w : World) (body : Body) : option (list loc) :=
  match body with
  | BodyList ls => Some ls
  | BodyObj r =>
      match heap w !! r ≫= (.!! ITEMS E) with
      | Some (VRefs ls) => Some ls
      | _ => None
      end
  end.

(** The world [w'] has the items of the object [r] and all the other
    objects as [w] has them. *)
Definition same_items (E : Env) (r : loc) (w w' : World) : Prop :=
  (heap w' !! r ≫= (.!! ITEMS E)) = (heap w !! r ≫= (.!! ITEMS E))
  ∧ ∀ l, l ≠ r → heap w' !! l = heap w !! l.

(** The value of a reference field after expansion: the related document
    when the data layer finds a non-empty one, the reference otherwise. *)
Definition expanded (E : Env) (relation : DataRelation) (ref : Value)
  : Value :=
  match data_find_one E (dr_resource relation) None (<[ID_FIELD E := ref]> ∅)
  with
  | Some ed => if bool_decide (ed ≠ ∅) then VDict ed else ref
  | None => ref
  end.

(** The last-updated date that the object [l] holds. *)
Definition updated_at (E : Env) (w : World) (l : loc) : option Z :=
  match heap w !! l ≫= (.!! LAST_UPDATED E) with
  | Some (VDate t) => Some t
  | _ => None
  end.

(** The event is not the call of a callback. *)
Definition not_callback (e : Event) : Prop := ∀ name, e ≠ EvCallback name.

(** Further sample data. *)
Module Cases.

(** A request for the given page with the given page size. *)
Definition paged (page max_results : Z) : ParsedRequest :=
  {| req_if_modified_since := None;
     req_if_none_match := None;
     req_page := page;
     req_max_results := max_results;
     req_where := None;
     req_sort := None;
     req_embedded := None |}.

(** The context of a request with the given conditions and version. *)
Definition context (if_none_match : option string)
    (if_modified_since : option Z) (version : option string)
  : RequestContext :=
  {| parsed := {| req_if_modified_since := if_modified_since;
                  req_if_none_match := if_none_match;
                  req_page := 1;
                  req_max_results := 10;
                  req_where := None;
                  req_sort := None;
                  req_embedded := None |};
     version_arg := version |}.

(** The lookup of the sample person by identity. *)
Definition by_id (id : Z) : Document := <["_id" := VInt id]> ∅.

(** The people with the boss embedded by default. *)
Definition staff_def : ResourceDef :=
  {| hateoas := false;
     versioning := false;
     pagination := true;
     item_lookup_field := "_id";
     resource_title := "people";
     item_title := "Person";
     default_embedded_fields := ["boss"];
     schema := schema (Sample.people_def false) |}.

(** The sample application with the given definition of the people and the
    given media fields; its JSON reader knows a few more clauses and its
    media storage holds the files named by a string. *)
Definition env (rd : ResourceDef) (media : list string) : Env :=
  let E := Sample.env true true in
  {| IF_MATCH := IF_MATCH E;
     ID_FIELD := ID_FIELD E;
     DATE_CREATED := DATE_CREATED E;
     LAST_UPDATED := LAST_UPDATED E;
     ETAG := ETAG E;
     LINKS := LINKS E;
     ITEMS := ITEMS E;
     VERSION := VERSION E;
     VERSIONS := VERSIONS E;
     DOMAIN := <["people" := rd]> ∅;
     epoch := epoch E;
     date_created := date_created E;
     last_updated := last_updated E;
     resource_media_fields := λ _ _, media;
     document_etag := document_etag E;
     document_link := document_link E;
     home_link := home_link E;
     resource_uri := resource_uri E;
     querydef := querydef E;
     versioned_id_field := versioned_id_field E;
     versioned_fields := versioned_fields E;
     resolve_version := resolve_version E;
     diff_document := diff_document E;
     data_find := data_find E;
     data_find_one := data_find_one E;
     data_is_empty := data_is_empty E;
     media_get := λ v, match v with VStr name => Some name | _ => None end;
     json_loads := λ s,
       if bool_decide (s = "{boss: true}")
       then Some (VDict (<["boss" := VBool true]> ∅))
       else if bool_decide (s = "{boss: 1, name: 0}")
       then Some (VDict (<["name" := VInt 0]> (<["boss" := VInt 1]> ∅)))
       else json_loads E s;
     base64_encodestring := λ s, "b64:" +:+ s;
     int_of_str := int_of_str E;
     callback := callback E |}.

End Cases.

(** * Properties *)

(** ** Running the monad *)

Lemma run_bind {A B} (m : M A) (k : A → M B) w :
  (m ≫= k) w = match m w with
               | (inl e, w') => (inl e, w')
               | (inr a, w') => k a w'
               end.
Proof. reflexivity. Qed.

Lemma run_bind_inr {A B} (m : M A) (k : A → M B) w a w' :
  m w = (inr a, w') → (m ≫= k) w = k a w'.
Proof. intros H. by rewrite run_bind, H. Qed.

Lemma run_bind_inl {A B} (m : M A) (k : A → M B) w e w' :
  m w = (inl e, w') → (m ≫= k) w = (inl e, w').
Proof. intros H. by rewrite run_bind, H. Qed.

Lemma run_mret {A} (a : A) w : (mret a : M A) w = (inr a, w).
Proof. reflexivity. Qed.

Lemma run_raise {A} e w : (raise e : M A) w = (inl e, w).
Proof. reflexivity. Qed.

(** A successful run of [m ≫= k] is a successful run of [m] followed by a
    successful run of [k]. *)
Lemma bind_inr_inv {A B} (m : M A) (k : A → M B) w b w' :
  (m ≫= k) w = (inr b, w') →
  ∃ a w1, m w = (inr a, w1) ∧ k a w1 = (inr b, w').
Proof.
  rewrite run_bind. destruct (m w) as [[e|a] w1]; [done|]. eauto.
Qed.

Lemma with_heap_heap w : with_heap (heap w) w = w.
Proof. by destruct w. Qed.

Lemma with_heap_twice h h' w : with_heap h (with_heap h' w) = with_heap h w.
Proof. reflexivity. Qed.

Lemma heap_with_heap h w : heap (with_heap h w) = h.
Proof. reflexivity. Qed.

Lemma log_with_heap h w : log (with_heap h w) = log w.
Proof. reflexivity. Qed.

(** *** The heap primitives on a valid reference *)

Section Primitives.
Context (w : World) (l : loc) (d : Document).
Hypothesis Hl : heap w !! l = Some d.

Lemma run_load : load l w = (inr d, w).
Proof using Hl. unfold load. by rewrite Hl. Qed.

Lemma run_store d' : store l d' w = (inr tt, with_heap (<[l := d']> (heap w)) w).
Proof using Hl. unfold store. by rewrite Hl. Qed.

Lemma run_obj_get k v : d !! k = Some v → obj_get l k w = (inr v, w).
Proof using Hl.
  intros Hk. unfold obj_get. rewrite (run_bind_inr _ _ _ _ _ run_load).
  unfold subscript. by rewrite Hk.
Qed.

Lemma run_obj_get_missing k :
  d !! k = None → obj_get l k w = (inl (KeyError k), w).
Proof using Hl.
  intros Hk. unfold obj_get. rewrite (run_bind_inr _ _ _ _ _ run_load).
  unfold subscript. by rewrite Hk.
Qed.

Lemma run_obj_set k v :
  obj_set l k v w = (inr tt, with_heap (<[l := <[k := v]> d]> (heap w)) w).
Proof using Hl.
  unfold obj_set. rewrite (run_bind_inr _ _ _ _ _ run_load). apply run_store.
Qed.

Lemma run_obj_del k :
  is_Some (d !! k) →
  obj_del l k w = (inr tt, with_heap (<[l := delete k d]> (heap w)) w).
Proof using Hl.
  intros [v Hk]. unfold obj_del. rewrite (run_bind_inr _ _ _ _ _ run_load).
  rewrite Hk. apply run_store.
Qed.

Lemma run_deepcopy :
  deepcopy l w = (inr (length (heap w)), with_heap (heap w ++ [d]) w).
Proof using Hl.
  unfold deepcopy. by rewrite (run_bind_inr _ _ _ _ _ run_load).
Qed.

Lemma run_obj_update other o :
  heap w !! other = Some o →
  obj_update l other w = (inr tt, with_heap (<[l := o ∪ d]> (heap w)) w).
Proof using Hl.
  intros Ho. unfold obj_update. rewrite (run_bind_inr _ _ _ _ _ run_load).
  unfold load at 1. rewrite run_bind, Ho. apply run_store.
Qed.

End Primitives.

Lemma heap_lookup_valid (h : list Document) l d : h !! l = Some d → (l < length h)%nat.
Proof. apply lookup_lt_Some. Qed.

Lemma heap_lookup_fresh (h : list Document) d : (h ++ [d]) !! length h = Some d.
Proof. by rewrite list_lookup_middle. Qed.

(** ** Version synthesis *)

Section Synthesis.
Variable E : Env.

(** The loop that removes the versioned fields: it deletes from [old_doc]
    the keys of [ks] that are versioned, and never fails when [old_doc] has
    all of them. *)
Lemma strip_versioned (fields ks : list string) (old_doc : loc) :
  ∀ w (o : Document),
    heap w !! old_doc = Some o →
    NoDup ks →
    (∀ k, k ∈ ks → is_Some (o !! k)) →
    for_each ks (λ field,
      when (bool_decide (field ∈ fields)) (obj_del old_doc field)) w
    = (inr tt,
       with_heap
         (<[old_doc := filter (λ kv, ¬ (kv.1 ∈ ks ∧ kv.1 ∈ fields)) o]>
            (heap w)) w).
Proof.
  induction ks as [|k ks IH]; intros w o Ho Hnd Hin; simpl.
  - rewrite run_mret. f_equal.
    rewrite (map_filter_id _ o).
    + by rewrite list_insert_id, with_heap_heap.
    + intros i x _ [Hi _]. simpl in Hi. by apply elem_of_nil in Hi.
  - apply NoDup_cons in Hnd as [Hk Hnd].
    assert (Hlt : (old_doc < length (heap w))%nat) by by eapply lookup_lt_Some.
    pose (o' := if bool_decide (k ∈ fields) then delete k o else o).
    assert (Hstep :
      when (bool_decide (k ∈ fields)) (obj_del old_doc k) w
      = (inr tt, with_heap (<[old_doc := o']> (heap w)) w)).
    { unfold when, o'. case_bool_decide.
      - eapply run_obj_del; [done|]. apply Hin. left.
      - by rewrite run_mret, list_insert_id, with_heap_heap. }
    rewrite (run_bind_inr _ _ _ _ _ Hstep).
    rewrite (IH _ o').
    + simpl. rewrite with_heap_twice, list_insert_insert_eq. do 3 f_equal.
      apply map_eq. intros i. rewrite !map_lookup_filter. unfold o'.
      case_bool_decide as Hf.
      * destruct (decide (i = k)) as [->|Hne].
        -- rewrite lookup_delete_eq. simpl.
           destruct (o !! k) as [x|]; [|done]. simpl.
           rewrite option_guard_False; [done|].
           intros Hn. apply Hn. split; [left|done].
        -- rewrite lookup_delete_ne by done.
           destruct (o !! i) as [x|]; [|done]. simpl.
           apply option_guard_iff. simpl. rewrite elem_of_cons.
           split; [intros Hn [[->|Hi] Hfi]; [done|by apply Hn]
                  |intros Hn [Hi Hfi]; apply Hn; split; [by right|done]].
      * destruct (o !! i) as [x|]; [|done]. simpl.
        apply option_guard_iff. simpl. rewrite elem_of_cons.
           split; [intros Hn [[->|Hi] Hfi]; [done|by apply Hn]
                  |intros Hn [Hi Hfi]; apply Hn; split; [by right|done]].
    + simpl. by rewrite list_lookup_insert_eq.
    + done.
    + intros k' Hk'. unfold o'. case_bool_decide.
      * rewrite lookup_delete_ne by (intros ->; done). apply Hin. by right.
      * apply Hin. by right.
Qed.

(** The run of the synthesizer on two distinct objects, the delta holding
    its identity reference. *)
Lemma synthesize_run w document delta rd (L D : Document) ref :
  heap w !! document = Some L →
  heap w !! delta = Some D →
  document ≠ delta →
  D !! versioned_id_field E = Some ref →
  _synthesize_previous_version E document delta rd w
  = (inr (length (heap w)),
     with_heap
       (<[delta := rekeyed E D ref]> (heap w)
        ++ [rekeyed E D ref
            ∪ filter (λ kv, kv.1 ∉ versioned_fields E rd) L]) w).
Proof.
  intros HL HD Hne Href.
  pose proof (lookup_lt_Some _ _ _ HL) as HlL.
  pose proof (lookup_lt_Some _ _ _ HD) as HlD.
  unfold _synthesize_previous_version.
  rewrite (run_bind_inr _ _ _ _ _ (run_deepcopy _ _ _ HL)).
  set (w1 := with_heap (heap w ++ [L]) w).
  assert (HD1 : heap w1 !! delta = Some D) by by apply lookup_app_l_Some.
  rewrite (run_bind_inr _ _ _ _ _ (run_obj_get _ _ _ HD1 _ _ Href)).
  rewrite (run_bind_inr _ _ _ _ _ (run_obj_set _ _ _ HD1 _ _)).
  set (w2 := with_heap _ w1).
  assert (HD2 : heap w2 !! delta = Some (<[ID_FIELD E := ref]> D)).
  { simpl. apply list_lookup_insert_eq. rewrite length_app. lia. }
  assert (Hk : is_Some (<[ID_FIELD E := ref]> D !! versioned_id_field E)).
  { rewrite lookup_insert. case_decide; eauto. }
  rewrite (run_bind_inr _ _ _ _ _ (run_obj_del _ _ _ HD2 _ Hk)).
  set (w3 := with_heap _ w2).
  assert (Hh3 : heap w3 = <[delta := rekeyed E D ref]> (heap w) ++ [L]).
  { simpl. rewrite list_insert_insert_eq. by rewrite insert_app_l. }
  assert (HL3 : heap w3 !! document = Some L).
  { rewrite Hh3. apply lookup_app_l_Some. by rewrite list_lookup_insert_ne. }
  rewrite (run_bind_inr _ _ _ _ _ (run_load _ _ _ HL3)).
  assert (Ho3 : heap w3 !! length (heap w) = Some L).
  { rewrite Hh3. rewrite <-(length_insert (heap w) delta (rekeyed E D ref)).
    apply heap_lookup_fresh. }
  rewrite (run_bind_inr _ _ _ _ _
             (strip_versioned _ (elements (dom L)) _ _ _ Ho3
                (NoDup_elements _)
                (λ k Hk, proj1 (elem_of_dom _ _) (proj1 (elem_of_elements _ _) Hk)))).
  set (o := filter _ L). set (w4 := with_heap _ w3).
  assert (Ho : o = filter (λ kv, kv.1 ∉ versioned_fields E rd) L).
  { apply map_filter_strong_ext. intros i x. simpl.
    split; intros [Hn Hi]; split; try done.
    - intros Hf. apply Hn. split; [|done].
      apply elem_of_elements, elem_of_dom. eauto.
    - intros [_ Hf]. done. }
  assert (Ho4 : heap w4 !! length (heap w) = Some o).
  { unfold w4. rewrite heap_with_heap. apply list_lookup_insert_eq.
    by eapply lookup_lt_Some. }
  assert (HD4 : heap w4 !! delta = Some (rekeyed E D ref)).
  { unfold w4. rewrite heap_with_heap, list_lookup_insert_ne by lia.
    rewrite Hh3. apply lookup_app_l_Some. by apply list_lookup_insert_eq. }
  rewrite (run_bind_inr _ _ _ _ _ (run_obj_update _ _ _ Ho4 _ _ HD4)).
  rewrite run_mret. f_equal. unfold w4. rewrite !with_heap_twice.
  unfold w3, w2, w1. rewrite !with_heap_twice. f_equal.
  rewrite !heap_with_heap, !list_insert_insert_eq.
  rewrite insert_app_l by done. fold (rekeyed E D ref). rewrite Ho.
  rewrite <-(length_insert (heap w) delta (rekeyed E D ref)) at 1.
  rewrite (insert_app_r_alt _ _ _ _) by lia.
  by rewrite Nat.sub_diag.
Qed.

(** C5 (as amended).  For a latest document and a delta that are distinct
    objects, the delta holding its identity reference, the synthesizer
    returns a new document in which: every field of the re-keyed delta has
    the delta's value; the versioned fields are exactly those of the
    re-keyed delta (a versioned field of the latest document that the delta
    lacks is absent); and every non-versioned field that the re-keyed delta
    does not carry is as in the latest document. *)
Theorem synthesize_previous_version_fields w document delta rd
    (L D : Document) ref :
  heap w !! document = Some L →
  heap w !! delta = Some D →
  document ≠ delta →
  D !! versioned_id_field E = Some ref →
  ∃ old_doc w' (R : Document),
    _synthesize_previous_version E document delta rd w = (inr old_doc, w')
    ∧ heap w' !! old_doc = Some R
    ∧ (∀ f v, rekeyed E D ref !! f = Some v → R !! f = Some v)
    ∧ (∀ f, f ∈ versioned_fields E rd → R !! f = rekeyed E D ref !! f)
    ∧ (∀ f, f ∉ versioned_fields E rd →
            rekeyed E D ref !! f = None → R !! f = L !! f).
Proof.
  intros HL HD Hne Href.
  eexists _, _, _. split; [by apply (synthesize_run _ _ _ rd L D ref)|].
  split.
  { rewrite heap_with_heap.
    rewrite <-(length_insert (heap w) delta (rekeyed E D ref)) at 1.
    apply heap_lookup_fresh. }
  split; [|split].
  - intros f v Hf. by apply lookup_union_Some_l.
  - intros f Hf. rewrite lookup_union.
    rewrite (proj2 (map_lookup_filter_None _ L f)).
    + by destruct (rekeyed E D ref !! f).
    + right. intros x _ Hn. by apply Hn.
  - intros f Hf Hnone. rewrite lookup_union_r by done.
    rewrite map_lookup_filter. destruct (L !! f) as [x|]; [|done].
    simpl. by rewrite option_guard_True.
Qed.

(** C6.  The synthesizer never changes the latest document it is given as
    its base: whatever the outcome of the call (a new document, or the
    KeyError of a delta without identity reference), the object [document]
    holds afterwards exactly the fields it held before.  The latest document
    and the delta are two objects. *)
Theorem synthesize_previous_version_keeps_latest w document delta rd
    (L D : Document) :
  heap w !! document = Some L →
  heap w !! delta = Some D →
  document ≠ delta →
  heap (_synthesize_previous_version E document delta rd w).2 !! document
  = Some L.
Proof.
  intros HL HD Hne.
  destruct (D !! versioned_id_field E) as [ref|] eqn:Href.
  - rewrite (synthesize_run _ _ _ rd L D ref) by done. simpl.
    apply lookup_app_l_Some. by rewrite list_lookup_insert_ne.
  - unfold _synthesize_previous_version.
    rewrite (run_bind_inr _ _ _ _ _ (run_deepcopy _ _ _ HL)).
    assert (HD1 : heap (with_heap (heap w ++ [L]) w) !! delta = Some D)
      by by apply lookup_app_l_Some.
    rewrite (run_bind_inl _ _ _ _ _ (run_obj_get_missing _ _ _ HD1 _ Href)).
    simpl. by apply lookup_app_l_Some.
Qed.

End Synthesis.

(** C5, as stated, fails: the version number is not a versioned field, the
    latest document holds version 3, and the document synthesized from the
    delta of version 1 holds version 1, the delta's value. *)
Lemma synthesized_version_number_is_the_deltas :
  let E := Sample.env false false in
  let rd := Sample.people_def false in
  let w := {| heap := [Sample.person; Sample.delta 1 "A"]; log := [] |} in
  ("_version" ∉ versioned_fields E rd)
  ∧ Sample.person !! "_version" = Some (VInt 3)
  ∧ (_synthesize_previous_version E 0%nat 1%nat rd w).1 = inr 2%nat
  ∧ (heap (_synthesize_previous_version E 0%nat 1%nat rd w).2 !! 2%nat)
      ≫= (.!! "_version") = Some (VInt 1).
Proof.
  split; [|done].
  apply (bool_decide_unpack _). vm_compute. exact I.
Qed.

Lemma synthesize_previous_version_fields_witness :
  let E := Sample.env false false in
  let w := {| heap := [Sample.person; Sample.delta 1 "A"]; log := [] |} in
  ∃ old_doc w' (R : Document),
    _synthesize_previous_version E 0%nat 1%nat (Sample.people_def false) w
    = (inr old_doc, w')
    ∧ heap w' !! old_doc = Some R
    ∧ (∀ f v, rekeyed E (Sample.delta 1 "A") (VInt 7) !! f = Some v →
              R !! f = Some v)
    ∧ (∀ f, f ∈ versioned_fields E (Sample.people_def false) →
            R !! f = rekeyed E (Sample.delta 1 "A") (VInt 7) !! f)
    ∧ (∀ f, f ∉ versioned_fields E (Sample.people_def false) →
            rekeyed E (Sample.delta 1 "A") (VInt 7) !! f = None →
            R !! f = Sample.person !! f).
Proof.
  intros E w.
  apply (synthesize_previous_version_fields E w 0%nat 1%nat
           (Sample.people_def false)
           Sample.person (Sample.delta 1 "A") (VInt 7));
    [reflexivity | reflexivity | lia | reflexivity].
Defined.

Lemma synthesize_previous_version_keeps_latest_witness :
  let E := Sample.env false false in
  let w := {| heap := [Sample.person; Sample.delta 1 "A"]; log := [] |} in
  heap (_synthesize_previous_version E 0%nat 1%nat
          (Sample.people_def false) w).2
    !! 0%nat = Some Sample.person.
Proof.
  intros E w.
  apply (synthesize_previous_version_keeps_latest E w 0%nat 1%nat
           (Sample.people_def false) Sample.person (Sample.delta 1 "A"));
    [reflexivity | reflexivity | lia].
Defined.

(** ** Enrichment *)

(** *** The primitives on a world whose object [l] holds [d] *)

Section Focus.
Context (h : list Document) (lg : list Event) (l : loc) (d : Document).
Hypothesis Hl : (l < length h)%nat.

Lemma focus_lookup : <[l := d]> h !! l = Some d.
Proof using Hl. by apply list_lookup_insert_eq. Qed.

Lemma focus_load :
  load l {| heap := <[l := d]> h; log := lg |}
  = (inr d, {| heap := <[l := d]> h; log := lg |}).
Proof using Hl. apply run_load. simpl. apply focus_lookup. Qed.

Lemma focus_load_other l' d' :
  l' ≠ l → h !! l' = Some d' →
  load l' {| heap := <[l := d]> h; log := lg |}
  = (inr d', {| heap := <[l := d]> h; log := lg |}).
Proof using Hl.
  intros Hne Hl'. apply run_load. simpl. by rewrite list_lookup_insert_ne.
Qed.

Lemma focus_store d' :
  store l d' {| heap := <[l := d]> h; log := lg |}
  = (inr tt, {| heap := <[l := d']> h; log := lg |}).
Proof using Hl.
  rewrite (run_store {| heap := <[l := d]> h; log := lg |} _ _ focus_lookup). unfold with_heap. simpl.
  by rewrite list_insert_insert_eq.
Qed.

Lemma focus_obj_set k v :
  obj_set l k v {| heap := <[l := d]> h; log := lg |}
  = (inr tt, {| heap := <[l := <[k := v]> d]> h; log := lg |}).
Proof using Hl.
  rewrite (run_obj_set {| heap := <[l := d]> h; log := lg |} _ _ focus_lookup). unfold with_heap. simpl.
  by rewrite list_insert_insert_eq.
Qed.

Lemma focus_obj_get k :
  obj_get l k {| heap := <[l := d]> h; log := lg |}
  = (match d !! k with
     | Some v => inr v
     | None => inl (KeyError k)
     end, {| heap := <[l := d]> h; log := lg |}).
Proof using Hl.
  destruct (d !! k) as [v|] eqn:Hk.
  - by apply (run_obj_get {| heap := <[l := d]> h; log := lg |} _ _ focus_lookup).
  - by apply
      (run_obj_get_missing {| heap := <[l := d]> h; log := lg |} _ _ focus_lookup).
Qed.

Lemma focus_emit e :
  emit e {| heap := <[l := d]> h; log := lg |}
  = (inr tt, {| heap := <[l := d]> h; log := lg ++ [e] |}).
Proof. reflexivity. Qed.

End Focus.

Section Enrichment.
Variable E : Env.

Lemma run_resolve_media_files h lg document resource d :
  (document < length h)%nat →
  _resolve_media_files E document resource
    {| heap := <[document := d]> h; log := lg |}
  = ((media_files_view E (resource_media_fields E d resource) d).1,
     {| heap := <[document :=
                    (media_files_view E (resource_media_fields E d resource) d).2]> h;
        log := lg |}).
Proof.
  intros Hl. unfold _resolve_media_files.
  rewrite (run_bind_inr _ _ _ _ _ (focus_load h lg _ d Hl)).
  generalize (resource_media_fields E d resource). intros fields.
  revert d. induction fields as [|field fields IH]; intros d; simpl.
  - done.
  - rewrite run_bind, run_bind, (focus_obj_get h lg _ d Hl).
    destruct (d !! field) as [ref|]; [|done].
    rewrite (focus_obj_set h lg _ d Hl). apply IH.
Qed.

Lemma run_domain resource w :
  domain E resource w
  = (match DOMAIN E !! resource with
     | Some rd => inr rd
     | None => inl (KeyError resource)
     end, w).
Proof. unfold domain. by destruct (DOMAIN E !! resource). Qed.

Lemma run_find_one resource req lookup h lg :
  find_one E resource req lookup {| heap := h; log := lg |}
  = (inr (data_find_one E resource req lookup),
     {| heap := h; log := lg ++ [EvFindOne resource lookup] |}).
Proof. reflexivity. Qed.

Lemma run_resolve_embedded_documents h document resource fields :
  (document < length h)%nat →
  ∀ lg d,
    _resolve_embedded_documents E document resource fields
      {| heap := <[document := d]> h; log := lg |}
    = ((embedded_documents_view E resource fields d).1.1,
       {| heap := <[document :=
                      (embedded_documents_view E resource fields d).1.2]> h;
          log := lg ++ (embedded_documents_view E resource fields d).2 |}).
Proof.
  intros Hl. unfold _resolve_embedded_documents.
  induction fields as [|field fields IH]; intros lg d.
  - simpl. by rewrite app_nil_r.
  - cbn [for_each embedded_documents_view].
    rewrite run_bind, run_bind, run_domain.
    destruct (DOMAIN E !! resource) as [rd|] eqn:Hrd; [|by rewrite app_nil_r].
    rewrite run_bind.
    destruct (schema rd !! field) as [fd|]; [|by rewrite app_nil_r].
    rewrite run_mret, run_bind.
    destruct (data_relation fd) as [relation|]; [|by rewrite app_nil_r].
    rewrite run_mret, run_bind, (focus_obj_get h lg _ d Hl).
    destruct (d !! field) as [ref|]; [|by rewrite app_nil_r].
    rewrite run_bind, run_find_one.
    assert (Hstep : ∀ lg',
      match data_find_one E (dr_resource relation) None
              (<[ID_FIELD E := ref]> ∅) with
      | Some ed =>
          when (bool_decide (ed ≠ ∅)) (obj_set document field (VDict ed))
      | None => mret tt
      end {| heap := <[document := d]> h; log := lg' |}
      = (inr tt,
         {| heap := <[document := embed E relation field ref d]> h;
            log := lg' |})).
    { intros lg'. unfold embed.
      destruct (data_find_one E _ _ _) as [ed|]; [|done].
      unfold when. case_bool_decide; [|done].
      by rewrite (focus_obj_set h _ _ d Hl). }
    rewrite Hstep, IH.
    destruct (embedded_documents_view E resource fields _) as [[r d'] evs].
    simpl. by rewrite <-app_assoc.
Qed.

Lemma run_resolve_document_version h lg document resource method
    latest_doc latest d :
  (document < length h)%nat →
  holds h latest_doc latest →
  (∀ l, latest_doc = Some l → l ≠ document) →
  resolve_document_version E document resource method latest_doc
    {| heap := <[document := d]> h; log := lg |}
  = (inr tt,
     {| heap := <[document := resolve_version E d resource method latest]> h;
        log := lg ++ [EvResolveVersion resource method
                        (bool_decide (is_Some latest))] |}).
Proof.
  intros Hl Hlat Hne. unfold resolve_document_version.
  rewrite (run_bind_inr _ _ _ _ _ (focus_load h lg _ d Hl)).
  destruct latest_doc as [l|], latest as [L|]; try done; simpl in Hlat.
  - rewrite run_bind, run_bind.
    rewrite (focus_load_other h lg _ d Hl l L (Hne l eq_refl) Hlat).
    rewrite run_mret, run_bind, focus_emit.
    by rewrite (focus_store h _ _ d Hl).
  - rewrite run_bind, run_mret, run_bind, focus_emit.
    by rewrite (focus_store h _ _ d Hl).
Qed.

Lemma run_build_response_document h lg document resource embedded_fields
    latest_doc latest d :
  (document < length h)%nat →
  holds h latest_doc latest →
  (∀ l, latest_doc = Some l → l ≠ document) →
  _build_response_document E document resource embedded_fields latest_doc
    {| heap := <[document := d]> h; log := lg |}
  = after {| heap := h; log := lg |} document
      (build_view E resource embedded_fields latest d).
Proof.
  intros Hl Hlat Hne. unfold _build_response_document, build_view, after.
  rewrite (run_bind_inr _ _ _ _ _ (focus_load h lg _ d Hl)).
  rewrite (run_bind_inr _ _ _ _ _ (focus_obj_set h lg _ d Hl _ _)).
  rewrite (run_bind_inr _ _ _ _ _ (focus_load h lg _ _ Hl)).
  rewrite (run_bind_inr _ _ _ _ _ (focus_obj_set h lg _ _ Hl _ _)).
  fold (stamped E d).
  assert (Htag :
    when (IF_MATCH E)
      (d0 ← load document;
       obj_set document (ETAG E) (VStr (document_etag E d0)))
      {| heap := <[document := stamped E d]> h; log := lg |}
    = (inr tt, {| heap := <[document := tagged E (stamped E d)]> h;
                  log := lg |})).
  { unfold when, tagged. destruct (IF_MATCH E); [|done].
    rewrite (run_bind_inr _ _ _ _ _ (focus_load h lg _ _ Hl)).
    apply (focus_obj_set h lg _ _ Hl). }
  rewrite (run_bind_inr _ _ _ _ _ Htag).
  set (d1 := tagged E (stamped E d)).
  rewrite run_bind, run_domain.
  destruct (DOMAIN E !! resource) as [rd|]; simpl; [|by rewrite app_nil_r].
  rewrite run_bind.
  assert (Hlink :
    when (hateoas rd)
      (key ← obj_get document (item_lookup_field rd);
       obj_set document (LINKS E)
         (VDict (<["self" := document_link E resource key]> ∅)))
      {| heap := <[document := d1]> h; log := lg |}
    = match (if hateoas rd then
               match d1 !! item_lookup_field rd with
               | Some key =>
                   inr (<[LINKS E :=
                            VDict (<["self" :=
                                       document_link E resource key]> ∅)]> d1)
               | None => inl (KeyError (item_lookup_field rd))
               end
             else inr d1) with
      | inl e => (inl e, {| heap := <[document := d1]> h; log := lg |})
      | inr d2 => (inr tt, {| heap := <[document := d2]> h; log := lg |})
      end).
  { unfold when. destruct (hateoas rd); [|done].
    rewrite run_bind, (focus_obj_get h lg _ d1 Hl).
    destruct (d1 !! item_lookup_field rd); [|done].
    apply (focus_obj_set h lg _ _ Hl). }
  rewrite Hlink. clear Hlink.
  match goal with
  | |- context [match ?x with inl _ => _ | inr _ => _ end] =>
      destruct x as [e|d2]
  end; simpl; [by rewrite app_nil_r|].
  rewrite run_bind.
  assert (Hver :
    match latest_doc with
    | Some l => resolve_document_version E document resource GET_other (Some l)
    | None => resolve_document_version E document resource GET_latest None
    end {| heap := <[document := d2]> h; log := lg |}
    = (inr tt,
       {| heap := <[document :=
                      resolve_version E d2 resource
                        match latest with
                        | Some _ => GET_other | None => GET_latest
                        end latest]> h;
          log := lg ++ [EvResolveVersion resource
                          match latest with
                          | Some _ => GET_other | None => GET_latest
                          end (bool_decide (is_Some latest))] |})).
  { destruct latest_doc as [l|] eqn:Hld, latest as [L|]; try done.
    - by apply run_resolve_document_version.
    - by apply run_resolve_document_version. }
  rewrite Hver. clear Hver.
  set (d3 := resolve_version E d2 resource _ latest).
  rewrite run_bind, run_resolve_media_files by done.
  destruct (media_files_view E (resource_media_fields E d3 resource) d3)
    as [[e|[]] d4]; simpl; [done|].
  rewrite run_resolve_embedded_documents by done.
  destruct (embedded_documents_view E resource embedded_fields d4)
    as [[r d5] evs].
  simpl. by rewrite <-app_assoc.
Qed.

(** The run of the enrichment on any world whose object [document] holds
    [d]. *)
Lemma run_build w document resource embedded_fields latest_doc latest d :
  heap w !! document = Some d →
  holds (heap w) latest_doc latest →
  (∀ l, latest_doc = Some l → l ≠ document) →
  _build_response_document E document resource embedded_fields latest_doc w
  = after w document (build_view E resource embedded_fields latest d).
Proof.
  intros Hd Hlat Hne. destruct w as [h lg]. simpl in *.
  rewrite <-(list_insert_id h document d Hd) at 1.
  apply run_build_response_document; [by eapply lookup_lt_Some|done..].
Qed.

Lemma media_files_view_other fields k :
  k ∉ fields → ∀ d, (media_files_view E fields d).2 !! k = d !! k.
Proof.
  induction fields as [|f fields IH]; intros Hk d; simpl; [done|].
  apply not_elem_of_cons in Hk as [Hne Hk].
  destruct (d !! f); [|done]. by rewrite IH, lookup_insert_ne.
Qed.

Lemma embed_other relation field ref d k :
  k ≠ field → embed E relation field ref d !! k = d !! k.
Proof.
  intros Hne. unfold embed. destruct (data_find_one E _ _ _); [|done].
  case_bool_decide; [|done]. by rewrite lookup_insert_ne.
Qed.

Lemma embedded_documents_view_other resource fields k :
  k ∉ fields →
  ∀ d, (embedded_documents_view E resource fields d).1.2 !! k = d !! k.
Proof.
  induction fields as [|f fields IH]; intros Hk d; simpl; [done|].
  apply not_elem_of_cons in Hk as [Hne Hk].
  destruct (DOMAIN E !! resource) as [rd|]; [|done].
  destruct (schema rd !! f) as [fd|]; [|done].
  destruct (data_relation fd) as [relation|]; [|done].
  destruct (d !! f) as [ref|]; [|done].
  specialize (IH Hk (embed E relation f ref d)).
  destruct (embedded_documents_view E resource fields _) as [[r d'] evs].
  simpl in *. by rewrite IH, embed_other.
Qed.

(** C8.  With conditional matching enabled, the ETag that the enriched
    document holds is the ETag of the stored content with its creation and
    update time stamps resolved, and of nothing else: it is computed before
    the links, the version number, the media payloads and the embedded
    documents are attached, none of which is part of it.  This holds whatever
    the outcome of the later steps, in a deployment where the ETag field is
    neither the links field, nor a media field, nor an embedded field, and
    is left alone by the version helper. *)
Theorem etag_of_stamped_document w document resource embedded_fields
    latest_doc latest d :
  IF_MATCH E = true →
  heap w !! document = Some d →
  holds (heap w) latest_doc latest →
  (∀ l, latest_doc = Some l → l ≠ document) →
  LINKS E ≠ ETAG E →
  (∀ d' method, resolve_version E d' resource method latest !! ETAG E
                = d' !! ETAG E) →
  (∀ d', ETAG E ∉ resource_media_fields E d' resource) →
  ETAG E ∉ embedded_fields →
  (heap (_build_response_document E document resource embedded_fields
           latest_doc w).2 !! document) ≫= (.!! ETAG E)
  = Some (VStr (document_etag E
       (<[LAST_UPDATED E :=
            VDate (last_updated E
                     (<[DATE_CREATED E := VDate (date_created E d)]> d))]>
          (<[DATE_CREATED E := VDate (date_created E d)]> d)))).
Proof.
  intros Hif Hd Hlat Hne Hlinks Hver Hmedia Hemb.
  rewrite (run_build _ _ _ _ _ latest d) by done.
  unfold after. cbn [snd heap].
  rewrite list_lookup_insert_eq by by eapply lookup_lt_Some.
  cbn [mbind option_bind].
  fold (stamped E d).
  assert (Htag : tagged E (stamped E d) !! ETAG E
                 = Some (VStr (document_etag E (stamped E d)))).
  { unfold tagged. rewrite Hif. apply lookup_insert_eq. }
  unfold build_view. set (d1 := tagged E (stamped E d)) in *.
  destruct (DOMAIN E !! resource) as [rd|]; [|done].
  destruct (hateoas rd).
  - destruct (d1 !! item_lookup_field rd) as [key|]; [|done].
    set (d2 := <[LINKS E := _]> d1).
    assert (Hd2 : d2 !! ETAG E = d1 !! ETAG E) by by apply lookup_insert_ne.
    set (d3 := resolve_version E d2 resource _ latest).
    assert (Hd3 : d3 !! ETAG E = d1 !! ETAG E) by by unfold d3; rewrite Hver.
    pose proof (media_files_view_other _ _ (Hmedia d3) d3) as Hm.
    destruct (media_files_view E _ d3) as [[e|[]] d4]; simpl in Hm |- *.
    + by rewrite Hm, Hd3.
    + pose proof (embedded_documents_view_other resource _ _ Hemb d4) as He.
      destruct (embedded_documents_view E resource embedded_fields d4)
        as [[r d5] evs]. simpl in He |- *. by rewrite He, Hm, Hd3.
  - set (d3 := resolve_version E d1 resource _ latest).
    assert (Hd3 : d3 !! ETAG E = d1 !! ETAG E) by by unfold d3; rewrite Hver.
    pose proof (media_files_view_other _ _ (Hmedia d3) d3) as Hm.
    destruct (media_files_view E _ d3) as [[e|[]] d4]; simpl in Hm |- *.
    + by rewrite Hm, Hd3.
    + pose proof (embedded_documents_view_other resource _ _ Hemb d4) as He.
      destruct (embedded_documents_view E resource embedded_fields d4)
        as [[r d5] evs]. simpl in He |- *. by rewrite He, Hm, Hd3.
Qed.


Lemma embeddable_relation rd field :
  embeddable rd field = true →
  ∃ fd relation,
    schema rd !! field = Some fd ∧ data_relation fd = Some relation
    ∧ dr_embeddable relation = true.
Proof.
  unfold embeddable. destruct (schema rd !! field) as [fd|]; [|done].
  destruct (data_relation fd) as [relation|] eqn:Hrel; [|done].
  intros Hr. by exists fd, relation.
Qed.

Lemma embedded_documents_view_missing resource rd fields :
  DOMAIN E !! resource = Some rd →
  (∀ f, f ∈ fields → embeddable rd f = true) →
  ∀ d, (∃ f, f ∈ fields ∧ d !! f = None) →
       ∃ g, g ∈ fields ∧ d !! g = None
            ∧ (embedded_documents_view E resource fields d).1.1
              = inl (KeyError g).
Proof.
  intros Hrd. induction fields as [|f fields IH]; intros Hemb d [m [Hm Hnone]].
  - by apply elem_of_nil in Hm.
  - simpl. rewrite Hrd.
    destruct (embeddable_relation rd f) as (fd & relation & -> & -> & _);
      [apply Hemb; left|].
    destruct (d !! f) as [ref|] eqn:Hf.
    + assert (Hm' : m ∈ fields).
      { apply elem_of_cons in Hm as [->|Hm]; [congruence|done]. }
      assert (Hmf : m ≠ f) by congruence.
      destruct (IH (λ k Hk, Hemb k (list_elem_of_further _ _ _ Hk))
                  (embed E relation f ref d)) as (g & Hg & Hgn & Hrun).
      { exists m. split; [done|]. by rewrite embed_other. }
      exists g. split; [by right|].
      destruct (embedded_documents_view E resource fields _) as [[r d'] evs].
      simpl in *. split; [|done].
      destruct (decide (g = f)) as [->|Hgf].
      * unfold embed in Hgn. destruct (data_find_one E _ _ _) as [ed|].
        -- case_bool_decide; [by rewrite lookup_insert_eq in Hgn|congruence].
        -- congruence.
      * by rewrite embed_other in Hgn.
    + exists f. split; [left|done].
Qed.

(** C10.  The expansion reads [document[field]] for each resolved embedded
    field without testing that the field is present: when the document lacks
    one of the fields to expand, the call does not skip it but ends with the
    KeyError of a field of the list that the document lacks. *)
Theorem resolve_embedded_documents_missing_field w document resource rd
    fields d :
  heap w !! document = Some d →
  DOMAIN E !! resource = Some rd →
  (∀ f, f ∈ fields → embeddable rd f = true) →
  (∃ f, f ∈ fields ∧ d !! f = None) →
  ∃ g, g ∈ fields ∧ d !! g = None
       ∧ (_resolve_embedded_documents E document resource fields w).1
         = inl (KeyError g).
Proof.
  intros Hd Hrd Hemb Hmiss.
  destruct (embedded_documents_view_missing resource rd fields Hrd Hemb d Hmiss)
    as (g & Hg & Hgn & Hrun).
  exists g. split; [done|]. split; [done|].
  destruct w as [h lg]. simpl in Hd.
  rewrite <-(list_insert_id h document d Hd).
  rewrite run_resolve_embedded_documents by by eapply lookup_lt_Some.
  done.
Qed.

End Enrichment.

Lemma etag_of_stamped_document_witness :
  let E := Sample.env true true in
  let w := {| heap := [Sample.person]; log := [] |} in
  (heap (_build_response_document E 0%nat "people" [] None w).2 !! 0%nat)
    ≫= (.!! ETAG E)
  = Some (VStr (document_etag E
       (<[LAST_UPDATED E :=
            VDate (last_updated E
                     (<[DATE_CREATED E :=
                          VDate (date_created E Sample.person)]>
                        Sample.person))]>
          (<[DATE_CREATED E := VDate (date_created E Sample.person)]>
             Sample.person)))).
Proof.
  intros E w.
  apply (etag_of_stamped_document E w 0%nat "people" [] None None
           Sample.person).
  - reflexivity.
  - reflexivity.
  - exact I.
  - intros l Hl. discriminate Hl.
  - intros Heq. discriminate Heq.
  - intros d' method. apply lookup_insert_ne. intros Heq. discriminate Heq.
  - intros d'. apply not_elem_of_nil.
  - apply not_elem_of_nil.
Defined.

Lemma resolve_embedded_documents_missing_field_witness :
  let E := Sample.env true true in
  let d : Document := delete "boss" Sample.person in
  let w := {| heap := [d]; log := [] |} in
  ∃ g, g ∈ ["boss"] ∧ d !! g = None
       ∧ (_resolve_embedded_documents E 0%nat "people" ["boss"] w).1
         = inl (KeyError g).
Proof.
  intros E d w.
  apply (resolve_embedded_documents_missing_field E w 0%nat "people"
           (Sample.people_def true) ["boss"] d).
  - reflexivity.
  - reflexivity.
  - intros f Hf. apply list_elem_of_singleton in Hf. by subst f.
  - exists "boss". split; [apply list_elem_of_singleton|]; reflexivity.
Defined.

(** ** Pagination links *)

Section Pagination.
Variable E : Env.

(** C3 (as amended).  When the resource has pagination enabled, the count
    is not zero and the page size is not zero, the links hold a [last] link
    exactly when [page * max_results < count], the condition of the [next]
    link; its target page is then the ceiling of the quotient
    [count / max_results], taken in the rationals. *)
Theorem pagination_last_link resource rd req count w :
  DOMAIN E !! resource = Some rd →
  pagination rd = true →
  count ≠ 0 →
  req_max_results req ≠ 0 →
  ∃ links,
    _pagination_links E resource req count w = (inr links, w)
    ∧ links !! "last"
      = if bool_decide (req_page req * req_max_results req < count) then
          Some (link "last page"
                  (resource_uri E resource
                   +:+ querydef E (req_max_results req) (req_where req)
                         (req_sort req)
                         (Qceiling (inject_Z count
                                    / inject_Z (req_max_results req)))))
        else None.
Proof.
  intros Hrd Hpag Hcount Hmax. unfold _pagination_links.
  rewrite run_bind, run_domain, Hrd, Hpag.
  rewrite (bool_decide_eq_false_2 (count = 0)) by done. cbn [negb andb].
  rewrite run_bind. unfold ceil_div.
  rewrite (bool_decide_eq_false_2 (req_max_results req = 0)) by done.
  case_bool_decide; case_bool_decide; rewrite ?run_bind, !run_mret;
    eexists; (split; [reflexivity|]);
    rewrite ?(lookup_insert_ne _ "prev" "last") by done;
    rewrite ?lookup_insert_eq; try done.
Qed.

End Pagination.

(** C3, as stated, fails: on the third and last page of 25 documents by
    pages of 10, pagination enabled, the links have no [last] entry. *)
Lemma no_last_link_on_the_last_page :
  let E := Sample.env true true in
  let req := {| req_if_modified_since := None; req_if_none_match := None;
                req_page := 3; req_max_results := 10; req_where := None;
                req_sort := None; req_embedded := None |} in
  pagination (Sample.people_def true) = true ∧ 25 ≠ 0
  ∧ match (_pagination_links E "people" req 25 Sample.empty_world).1 with
    | inr links => links !! "last" = None ∧ is_Some (links !! "prev")
    | inl _ => False
    end.
Proof. split; [done|]. split; [done|]. vm_compute. eauto. Qed.

(** ** Resolution of the embedded fields *)

Section EmbeddedFields.
Variable E : Env.

Lemma elem_of_requested (d : Document) g :
  g ∈ requested d ↔ ∃ x, d !! g = Some x ∧ eq_one x = true.
Proof.
  unfold requested. rewrite list_elem_of_fmap. split.
  - intros [[k x] [-> Hin]]. apply list_elem_of_filter in Hin as [Hone Hin].
    apply elem_of_map_to_list in Hin. simpl in *.
    exists x. split; [done|]. by apply Is_true_true.
  - intros [x [Hx Hone]]. exists (g, x). split; [done|].
    apply list_elem_of_filter. split; [by apply Is_true_true|].
    by apply elem_of_map_to_list.
Qed.

Lemma run_resolve_embedded_fields resource rd req d w :
  DOMAIN E !! resource = Some rd →
  client_embedding E req = Some d →
  _resolve_embedded_fields E resource req w
  = (inr (filter (λ field, embeddable rd field) (candidates rd d)), w).
Proof.
  intros Hrd Hd. unfold _resolve_embedded_fields, client_embedding in *.
  rewrite run_bind.
  destruct (truthy_str (req_embedded req)).
  - destruct (json_loads E _) as [[| | | | |d'|]|]; try done.
    injection Hd as ->. rewrite run_mret, run_bind, run_domain, Hrd. done.
  - injection Hd as <-. rewrite run_mret, run_bind, run_domain, Hrd. done.
Qed.

Lemma elem_of_resolved rd d g :
  g ∈ filter (λ field, embeddable rd field) (candidates rd d)
  ↔ embeddable rd g = true
    ∧ (g ∈ default_embedded_fields rd
       ∨ ∃ x, d !! g = Some x ∧ eq_one x = true).
Proof.
  rewrite list_elem_of_filter. unfold candidates.
  rewrite elem_of_elements, elem_of_union, !elem_of_list_to_set.
  rewrite elem_of_requested, Is_true_true. done.
Qed.

Lemma NoDup_resolved rd d :
  NoDup (filter (λ field, embeddable rd field) (candidates rd d)).
Proof. apply NoDup_filter, NoDup_elements. Qed.

(** C9.  The resolution keeps a field exactly when its definition in the
    schema of the resource declares an embeddable data relation (and it is a
    default of the resource or is requested with the value 1).  Adding to
    the embedding clause a field [f] that the schema does not know, or whose
    definition has no embeddable data relation, raises no error and leaves
    the resolved fields the same, up to the order in which the set is
    enumerated. *)
Theorem resolve_embedded_fields_drops_unknown resource rd req req' d f v w :
  DOMAIN E !! resource = Some rd →
  client_embedding E req = Some d →
  client_embedding E req' = Some (<[f := v]> d) →
  embeddable rd f = false →
  ∃ fields fields',
    _resolve_embedded_fields E resource req w = (inr fields, w)
    ∧ _resolve_embedded_fields E resource req' w = (inr fields', w)
    ∧ fields' ≡ₚ fields
    ∧ ∀ g, g ∈ fields ↔
           embeddable rd g = true
           ∧ (g ∈ default_embedded_fields rd
              ∨ ∃ x, d !! g = Some x ∧ eq_one x = true).
Proof.
  intros Hrd Hd Hd' Hf.
  eexists _, _. split; [by apply run_resolve_embedded_fields|].
  split; [by apply run_resolve_embedded_fields|].
  split; [|apply elem_of_resolved].
  apply NoDup_Permutation; [apply NoDup_resolved..|].
  intros g. rewrite !elem_of_resolved.
  destruct (decide (g = f)) as [->|Hne].
  - rewrite Hf. split; intros [? _]; done.
  - by rewrite lookup_insert_ne.
Qed.

End EmbeddedFields.

Lemma pagination_last_link_witness :
  let E := Sample.env true true in
  let req := Sample.request in
  ∃ links,
    _pagination_links E "people" req 25 Sample.empty_world
    = (inr links, Sample.empty_world)
    ∧ links !! "last"
      = if bool_decide (req_page req * req_max_results req < 25) then
          Some (link "last page"
                  (resource_uri E "people"
                   +:+ querydef E (req_max_results req) (req_where req)
                         (req_sort req)
                         (Qceiling (inject_Z 25
                                    / inject_Z (req_max_results req)))))
        else None.
Proof.
  intros E req.
  apply (pagination_last_link E "people" (Sample.people_def true) req 25
           Sample.empty_world); [reflexivity | reflexivity | lia | simpl; lia].
Defined.

Lemma resolve_embedded_fields_drops_unknown_witness :
  let E := Sample.env true true in
  let req := Sample.embedding "{boss: 1}" in
  let req' := Sample.embedding "{boss: 1, pet: 1}" in
  let d : Document := <["boss" := VInt 1]> ∅ in
  let rd := Sample.people_def true in
  ∃ fields fields',
    _resolve_embedded_fields E "people" req Sample.empty_world
    = (inr fields, Sample.empty_world)
    ∧ _resolve_embedded_fields E "people" req' Sample.empty_world
      = (inr fields', Sample.empty_world)
    ∧ fields' ≡ₚ fields
    ∧ ∀ g, g ∈ fields ↔
           embeddable rd g = true
           ∧ (g ∈ default_embedded_fields rd
              ∨ ∃ x, d !! g = Some x ∧ eq_one x = true).
Proof.
  intros E req req' d rd.
  apply (resolve_embedded_fields_drops_unknown E "people" rd req req' d
           "pet" (VInt 1) Sample.empty_world);
    [reflexivity | reflexivity | vm_compute; reflexivity | reflexivity].
Defined.

(** ** The log is write-only *)

Section Writes.
Context (P : Event → Prop).

Lemma writes_pure {A} (m : M A) :
  (∀ h, ∃ r h', ∀ lg, m {| heap := h; log := lg |}
                      = (r, {| heap := h'; log := lg |})) →
  writes P m.
Proof.
  intros H h. destruct (H h) as (r & h' & Hm).
  exists r, h', []. split; [done|]. intros lg. by rewrite app_nil_r.
Qed.

Lemma writes_mret {A} (a : A) : writes P (mret a).
Proof. apply writes_pure. intros h. by exists (inr a), h. Qed.

Lemma writes_raise {A} e : writes P (raise e : M A).
Proof. apply writes_pure. intros h. by exists (inl e), h. Qed.

Lemma writes_abort {A} code : writes P (abort code : M A).
Proof. apply writes_raise. Qed.

Lemma writes_bind {A B} (m : M A) (k : A → M B) :
  writes P m → (∀ a, writes P (k a)) → writes P (m ≫= k).
Proof.
  intros Hm Hk h. destruct (Hm h) as (r & h1 & evs1 & HP1 & Hrun1).
  destruct r as [e|a].
  - exists (inl e), h1, evs1. split; [done|]. intros lg.
    by rewrite run_bind, Hrun1.
  - destruct (Hk a h1) as (r2 & h2 & evs2 & HP2 & Hrun2).
    exists r2, h2, (evs1 ++ evs2). split; [by apply Forall_app|].
    intros lg. by rewrite run_bind, Hrun1, Hrun2, app_assoc.
Qed.

Lemma writes_alloc d : writes P (alloc d).
Proof. apply writes_pure. intros h. by exists (inr (length h)), (h ++ [d]). Qed.

Lemma writes_load l : writes P (load l).
Proof.
  apply writes_pure. intros h. unfold load. simpl.
  destruct (h !! l) as [d|]; [by exists (inr d), h|by exists (inl (DanglingRef l)), h].
Qed.

Lemma writes_store l d : writes P (store l d).
Proof.
  apply writes_pure. intros h. unfold store. simpl.
  destruct (h !! l) as [d'|];
    [by exists (inr tt), (<[l := d]> h)|by exists (inl (DanglingRef l)), h].
Qed.

Lemma writes_modify_heap f : writes P (modify_heap f).
Proof. apply writes_pure. intros h. by exists (inr tt), (f h). Qed.

Lemma writes_emit e : P e → writes P (emit e).
Proof.
  intros He h. exists (inr tt), h, [e]. split; [by apply Forall_singleton|].
  done.
Qed.

Lemma writes_subscript d k : writes P (subscript d k).
Proof.
  unfold subscript. destruct (d !! k); [apply writes_mret|apply writes_raise].
Qed.

Lemma writes_obj_get l k : writes P (obj_get l k).
Proof.
  apply writes_bind; [apply writes_load|]. intros d. apply writes_subscript.
Qed.

Lemma writes_obj_set l k v : writes P (obj_set l k v).
Proof.
  apply writes_bind; [apply writes_load|]. intros d. apply writes_store.
Qed.

Lemma writes_obj_del l k : writes P (obj_del l k).
Proof.
  apply writes_bind; [apply writes_load|]. intros d.
  destruct (d !! k); [apply writes_store|apply writes_raise].
Qed.

Lemma writes_deepcopy l : writes P (deepcopy l).
Proof.
  apply writes_bind; [apply writes_load|]. intros d. apply writes_alloc.
Qed.

Lemma writes_obj_update l o : writes P (obj_update l o).
Proof.
  apply writes_bind; [apply writes_load|]. intros d.
  apply writes_bind; [apply writes_load|]. intros d'. apply writes_store.
Qed.

Lemma writes_dict_del d k : writes P (dict_del d k).
Proof.
  unfold dict_del. destruct (d !! k); [apply writes_mret|apply writes_raise].
Qed.

Lemma writes_as_date v : writes P (as_date v).
Proof. destruct v; first [apply writes_mret|apply writes_raise]. Qed.

Lemma writes_as_dict v : writes P (as_dict v).
Proof. destruct v; first [apply writes_mret|apply writes_raise]. Qed.

Lemma writes_ceil_div a b : writes P (ceil_div a b).
Proof.
  unfold ceil_div. case_bool_decide; [apply writes_raise|apply writes_mret].
Qed.

Lemma writes_when b (m : M unit) : writes P m → writes P (when b m).
Proof. intros Hm. destruct b; [done|apply writes_mret]. Qed.

Lemma writes_for_each {A} (xs : list A) body :
  (∀ x, writes P (body x)) → writes P (for_each xs body).
Proof.
  intros Hbody. induction xs as [|x xs IH]; simpl; [apply writes_mret|].
  apply writes_bind; [apply Hbody|]. intros _. apply IH.
Qed.

End Writes.

Create HintDb writes.

#[local] Hint Resolve writes_mret writes_raise writes_abort writes_alloc
  writes_load writes_store writes_modify_heap writes_subscript writes_obj_get
  writes_obj_set writes_obj_del writes_deepcopy writes_obj_update
  writes_dict_del writes_as_date writes_as_dict writes_ceil_div : writes.

(** Decomposes a goal [writes P m] along the structure of [m]. *)
Ltac writes_step :=
  lazymatch goal with
  | |- writes _ (_ ≫= _) => apply writes_bind; [|intros ?]
  | |- writes _ (when _ _) => apply writes_when
  | |- writes _ (for_each _ _) => apply writes_for_each; intros ?
  | |- writes _ (match ?x with _ => _ end) => destruct x
  | |- writes _ (let _ := _ in _) => cbv zeta
  | |- writes _ _ => solve [eauto with writes]
  end.

Ltac writes_auto := repeat writes_step.

Section WritesModule.
Context (E : Env) (P : Event → Prop).
Hypothesis P_find : ∀ resource req lookup, P (EvFind resource req lookup).
Hypothesis P_find_one : ∀ resource lookup, P (EvFindOne resource lookup).
Hypothesis P_is_empty : ∀ resource, P (EvIsEmpty resource).
Hypothesis P_callback : ∀ name, P (EvCallback name).

Lemma writes_domain resource : writes P (domain E resource).
Proof. unfold domain. writes_auto. Qed.

Lemma writes_find resource req lookup : writes P (find E resource req lookup).
Proof using P_find.
  unfold find. apply writes_bind; [by apply writes_emit|]. intros _. writes_auto.
Qed.

Lemma writes_find_one resource req lookup :
  writes P (find_one E resource req lookup).
Proof using P_find_one.
  unfold find_one. apply writes_bind; [by apply writes_emit|]. intros _. writes_auto.
Qed.

Lemma writes_is_empty resource : writes P (is_empty E resource).
Proof using P_is_empty.
  unfold is_empty. apply writes_bind; [by apply writes_emit|]. intros _. writes_auto.
Qed.

Lemma writes_call name args : writes P (call E name args).
Proof using P_callback.
  unfold call. apply writes_bind; [by apply writes_emit|]. intros _. writes_auto.
Qed.

Lemma writes_resolve_document_version document resource method latest_doc :
  P (EvResolveVersion resource method (bool_decide (is_Some latest_doc))) →
  writes P (resolve_document_version E document resource method latest_doc).
Proof.
  intros HP. unfold resolve_document_version.
  apply writes_bind; [writes_auto|]. intros d.
  apply writes_bind; [writes_auto|]. intros latest.
  apply writes_bind; [by apply writes_emit|]. intros _. writes_auto.
Qed.

Hint Resolve writes_domain writes_find writes_find_one writes_is_empty
  writes_call : writes.

Lemma writes_resolve_media_files document resource :
  writes P (_resolve_media_files E document resource).
Proof. unfold _resolve_media_files. writes_auto. Qed.

Lemma writes_resolve_embedded_documents document resource fields :
  writes P (_resolve_embedded_documents E document resource fields).
Proof using P_find_one. unfold _resolve_embedded_documents. writes_auto. Qed.

Hint Resolve writes_resolve_media_files writes_resolve_embedded_documents
  : writes.

Lemma writes_build_response_document document resource fields latest_doc :
  P (EvResolveVersion resource
       match latest_doc with Some _ => GET_other | None => GET_latest end
       (bool_decide (is_Some latest_doc))) →
  writes P (_build_response_document E document resource fields latest_doc).
Proof using P_find_one.
  intros HP. unfold _build_response_document.
  do 7 (apply writes_bind; [writes_auto|]; intros ?).
  apply writes_bind; [|intros _; writes_auto].
  destruct latest_doc; by apply writes_resolve_document_version.
Qed.

Lemma writes_synthesize_previous_version document delta rd :
  writes P (_synthesize_previous_version E document delta rd).
Proof. unfold _synthesize_previous_version. writes_auto. Qed.

Lemma writes_resolve_embedded_fields resource req :
  writes P (_resolve_embedded_fields E resource req).
Proof. unfold _resolve_embedded_fields. writes_auto. Qed.

Lemma writes_pagination_links resource req count :
  writes P (_pagination_links E resource req count).
Proof. unfold _pagination_links. writes_auto. Qed.

Hint Resolve writes_synthesize_previous_version writes_resolve_embedded_fields
  writes_pagination_links : writes.

Lemma writes_get_documents resource fields cursor :
  P (EvResolveVersion resource GET_latest false) →
  ∀ documents last_update,
    writes P (get_documents E resource fields cursor documents last_update).
Proof using P_find_one.
  intros HP. induction cursor as [|d cursor IH]; intros documents last_update;
    simpl; [writes_auto|].
  apply writes_bind; [writes_auto|]. intros document.
  apply writes_bind; [by apply writes_build_response_document|]. intros _.
  writes_auto.
Qed.

Lemma writes_get req resource lookup :
  P (EvResolveVersion resource GET_latest false) →
  writes P (get E req resource lookup).
Proof using P_find P_find_one P_is_empty P_callback.
  intros HP. unfold get.
  pose proof (writes_get_documents resource) as Hloop.
  writes_auto; by apply Hloop.
Qed.

Lemma writes_versions diffs latest_doc resource rd fields cursor :
  P (EvResolveVersion resource GET_other true) →
  ∀ i last_document documents,
    writes P (versions E diffs latest_doc resource rd fields cursor i
                last_document documents).
Proof using P_find_one.
  intros HP. induction cursor as [|d cursor IH];
    intros i last_document documents; simpl; [writes_auto|].
  apply writes_bind; [writes_auto|]. intros delta.
  apply writes_bind; [writes_auto|]. intros document.
  apply writes_bind; [by apply writes_build_response_document|]. intros _.
  writes_auto; apply IH.
Qed.

Lemma writes_rekey_lookup lookup : writes P (rekey_lookup E lookup).
Proof. unfold rekey_lookup. writes_auto. Qed.

Lemma writes_set_link response rel target :
  writes P (set_link E response rel target).
Proof. unfold set_link. writes_auto. Qed.

Hint Resolve writes_rekey_lookup writes_set_link : writes.

Lemma writes_select_version ctx resource rd document lookup :
  writes P (select_version E ctx resource rd document lookup).
Proof using P_find_one. unfold select_version. writes_auto. Qed.

Lemma writes_not_modified document last_modified :
  writes P (not_modified E document last_modified).
Proof. unfold not_modified. writes_auto. Qed.

Lemma writes_versions_response ctx resource rd fields latest_doc response
    lookup :
  P (EvResolveVersion resource GET_other true) →
  writes P (versions_response E ctx resource rd fields latest_doc response
              lookup).
Proof using P_find P_find_one.
  intros HP. unfold versions_response.
  pose proof (writes_versions) as Hloop.
  writes_auto; by apply Hloop.
Qed.

Lemma writes_document_response resource rd document :
  writes P (document_response E resource rd document).
Proof using P_callback. unfold document_response. writes_auto. Qed.

Lemma writes_extra_links resource rd response :
  writes P (extra_links E resource rd response).
Proof. unfold extra_links. writes_auto. Qed.

Hint Resolve writes_select_version writes_not_modified
  writes_document_response writes_extra_links : writes.

Lemma writes_respond ctx resource rd fields latest_doc response document
    lookup return_all_versions last_modified etag :
  P (EvResolveVersion resource GET_other true) →
  writes P (respond E ctx resource rd fields latest_doc response document
              lookup return_all_versions last_modified etag).
Proof using P_find P_find_one P_callback.
  intros HP. unfold respond.
  pose proof (λ ctx rd fields latest_doc response lookup,
    writes_versions_response ctx resource rd fields latest_doc response
      lookup HP) as Hversions.
  writes_auto.
Qed.

Lemma writes_getitem ctx resource lookup :
  P (EvResolveVersion resource GET_other true) →
  writes P (getitem E ctx resource lookup).
Proof using P_find P_find_one P_callback.
  intros HP. unfold getitem.
  pose proof (λ ctx rd fields latest_doc response document lookup all
                last_modified etag,
    writes_respond ctx resource rd fields latest_doc response document
      lookup all last_modified etag HP) as Hrespond.
  pose proof (λ document fields l,
    writes_build_response_document document resource fields (Some l) HP)
    as Hbuild.
  writes_auto; first [by apply Hrespond | by apply Hbuild].
Qed.

End WritesModule.

(** ** The item fetch *)

Section ItemFetch.
Variable E : Env.

(** C2 (as amended).  In the item fetch every enrichment is passed the
    latest reference, the deep copy of the fetched document: every version
    resolution made during the call, for the fetched document, for a
    synthesized one and for each document of the version list, is in the
    other-version mode with the latest document, whether or not a version
    was synthesized.  The latest mode is never used by the item fetch. *)
Theorem getitem_resolves_version_against_latest ctx resource lookup w :
  ∃ evs,
    log (getitem E ctx resource lookup w).2 = log w ++ evs
    ∧ Forall against_latest evs.
Proof.
  destruct w as [h lg].
  destruct (writes_getitem E against_latest) with (ctx := ctx)
    (resource := resource) (lookup := lookup) (h := h)
    as (r & h' & evs & HP & Hrun);
    try (intros; intros ? ? ? [=]; done).
  exists evs. by rewrite Hrun.
Qed.

End ItemFetch.

(** C2, as stated, fails: an item fetch without version selector synthesizes
    nothing (the heap holds the document, the response and the copy) and
    still resolves the version in the other-version mode. *)
Lemma getitem_without_version_resolves_against_latest :
  let E := Sample.env false false in
  let ctx := {| parsed := Sample.request; version_arg := None |} in
  let run := getitem E ctx "people" (<["_id" := VInt 7]> ∅)
               Sample.empty_world in
  run.1 = inr {| resp_body := BodyObj 0%nat;
                 resp_last_modified := VDate 300;
                 resp_etag := VNone;
                 resp_status := 200 |}
  ∧ length (heap run.2) = 3%nat
  ∧ log run.2
    = [EvFindOne "people" (<["_id" := VInt 7]> ∅);
       EvResolveVersion "people" GET_other true;
       EvCallback "on_fetch_item";
       EvCallback "on_fetch_item_person"].
Proof. vm_compute. done. Qed.

(** ** The collection fetch *)

Lemma run_alloc d w :
  alloc d w = (inr (length (heap w)), with_heap (heap w ++ [d]) w).
Proof. reflexivity. Qed.

Section CollectionFetch.
Variable E : Env.

(** On a request without if-modified-since condition [get] is the full
    processing; with the condition, an empty probe and an empty collection,
    it is the same processing after the two calls of the probe. *)
Lemma get_probe_of_empty_collection req resource lookup since rd d h lg :
  req_if_modified_since req = Some since →
  DOMAIN E !! resource = Some rd →
  client_embedding E req = Some d →
  cur_count (data_find E resource (set_max_results 1 req) lookup) = 0 →
  data_is_empty E resource = true →
  get E req resource lookup {| heap := h; log := lg |}
  = get E (set_if_modified_since None req) resource lookup
      {| heap := h;
         log := lg ++ [EvFind resource (set_max_results 1 req) lookup;
                       EvIsEmpty resource] |}.
Proof.
  intros Hsince Hrd Hd Hcount Hempty. unfold get.
  rewrite (run_bind_inr _ _ _ _ _ (run_alloc _ _)).
  rewrite (run_bind_inr _ _ _ _ _ (run_alloc _ _)).
  rewrite (run_bind_inr _ _ _ _ _
             (run_resolve_embedded_fields E resource rd req d _ Hrd Hd)).
  rewrite (run_bind_inr _ _ _ _ _
             (run_resolve_embedded_fields E resource rd
                (set_if_modified_since None req) d _ Hrd Hd)).
  rewrite Hsince. cbn [req_if_modified_since set_if_modified_since].
  assert (Hprobe :
    (find E resource (set_max_results 1 req) lookup
     ≫= λ cursor : Cursor,
          if bool_decide (cur_count cursor = 0)
          then is_empty E resource ≫= λ empty : bool, mret (negb empty)
          else mret false)
      (with_heap (heap {| heap := h; log := lg |} ++ [∅])
         {| heap := h; log := lg |})
    = (inr false,
       {| heap := h ++ [∅];
          log := lg ++ [EvFind resource (set_max_results 1 req) lookup;
                        EvIsEmpty resource] |})).
  { unfold find, is_empty. rewrite !run_bind. cbn [emit].
    rewrite run_mret, Hcount. rewrite bool_decide_eq_true_2 by done.
    rewrite !run_bind. cbn [emit]. rewrite !run_mret, Hempty.
    unfold with_heap, with_log. cbn [heap log negb].
    by rewrite <-app_assoc. }
  rewrite (run_bind_inr _ _ _ _ _ Hprobe).
  rewrite (run_bind_inr _ _ _ _ _ (run_mret false _)).
  reflexivity.

Qed.

(** The full processing logs the full query first, and ends with status
    200 when it returns. *)
Lemma get_unconditional req resource lookup rd d h :
  DOMAIN E !! resource = Some rd →
  client_embedding E req = Some d →
  ∃ r h' evs,
    (∀ lg, get E (set_if_modified_since None req) resource lookup
             {| heap := h; log := lg |}
           = (r, {| heap := h';
                    log := lg ++ EvFind resource
                                   (set_if_modified_since None req) lookup
                                 :: evs |}))
    ∧ ∀ resp, r = inr resp → resp_status resp = 200.
Proof.
  intros Hrd Hd.
  assert (Hpre : ∃ k,
    (∀ lg, get E (set_if_modified_since None req) resource lookup
             {| heap := h; log := lg |}
           = (find E resource (set_if_modified_since None req) lookup ≫= k)
               {| heap := h ++ [∅]; log := lg |})
    ∧ (∀ c, writes (λ _, True) (k c))
    ∧ (∀ c w resp w', k c w = (inr resp, w') → resp_status resp = 200)).
  { eexists. split; [|split].
    - intros lg. unfold get.
      rewrite (run_bind_inr _ _ _ _ _ (run_alloc _ _)).
      rewrite (run_bind_inr _ _ _ _ _
                 (run_resolve_embedded_fields E resource rd
                    (set_if_modified_since None req) d _ Hrd Hd)).
      cbn [req_if_modified_since set_if_modified_since].
      rewrite (run_bind_inr _ _ _ _ _ (run_mret false _)).
      unfold with_heap. cbn [heap log]. reflexivity.
    - intros c.
      pose proof (writes_get_documents E (λ _, True) (λ _ _, I) resource)
        as Hl.
      pose proof (writes_call E (λ _, True) (λ _, I)) as Hc.
      pose proof (writes_domain E (λ _, True)) as Hdom.
      pose proof (writes_pagination_links E (λ _, True)) as Hp.
      cbv beta. writes_auto; try (by apply Hl); try apply Hc;
        try apply Hdom; try apply Hp.
    - intros c w resp w' Hrun. cbv beta in Hrun.
      apply bind_inr_inv in Hrun as ([documents last_update] & w1 & _ & Hrun).
      do 5 (apply bind_inr_inv in Hrun as (? & ? & _ & Hrun)).
      rewrite run_mret in Hrun. by injection Hrun as <- _. }
  destruct Hpre as (k & Hget & Hrest & Hstatus).
  destruct (Hrest (data_find E resource (set_if_modified_since None req) lookup)
              (h ++ [∅])) as (r & h' & evs & _ & Hrun).
  assert (Hall : ∀ lg,
    get E (set_if_modified_since None req) resource lookup
      {| heap := h; log := lg |}
    = (r, {| heap := h';
             log := lg ++ EvFind resource
                            (set_if_modified_since None req) lookup
                          :: evs |})).
  { intros lg. rewrite Hget. unfold find. rewrite !run_bind. cbn [emit].
    rewrite run_mret. unfold with_log. cbn [heap log].
    rewrite Hrun. by rewrite <-app_assoc. }
  exists r, h', evs. split; [done|].
  intros resp ->. specialize (Hget []). rewrite Hall in Hget.
  symmetry in Hget. unfold find in Hget.
  apply bind_inr_inv in Hget as (c & w1 & _ & Hget).
  by apply Hstatus in Hget.
Qed.

(** C4.  A collection fetch with an if-modified-since condition, whose
    embedding clause is well formed and whose probe (the same query capped at
    one result) matches no document.  If the collection is not empty the call
    returns status 304 with the empty dictionary as body, no last-modified
    and no etag, and its only calls to the data layer are the probe and the
    emptiness test: the full query is not run.  If the collection is empty
    the call goes on with the full query and its outcome is that of the same
    request without the condition: the normal result, with status 200. *)
Theorem get_if_modified_since req resource lookup since rd d w :
  req_if_modified_since req = Some since →
  DOMAIN E !! resource = Some rd →
  client_embedding E req = Some d →
  cur_count (data_find E resource (set_max_results 1 req) lookup) = 0 →
  let probe := [EvFind resource (set_max_results 1 req) lookup;
                EvIsEmpty resource] in
  if data_is_empty E resource then
    ∃ r h' evs,
      get E (set_if_modified_since None req) resource lookup w
      = (r, {| heap := h';
               log := log w ++ EvFind resource
                                 (set_if_modified_since None req) lookup
                               :: evs |})
      ∧ get E req resource lookup w
        = (r, {| heap := h';
                 log := log w ++ probe
                        ++ EvFind resource
                             (set_if_modified_since None req) lookup
                           :: evs |})
      ∧ ∀ resp, r = inr resp → resp_status resp = 200
  else
    get E req resource lookup w
    = (inr {| resp_body := BodyObj (length (heap w));
              resp_last_modified := VNone;
              resp_etag := VNone;
              resp_status := 304 |},
       {| heap := heap w ++ [∅]; log := log w ++ probe |}).
Proof.
  intros Hsince Hrd Hd Hcount probe. destruct w as [h lg]. cbn [heap log].
  destruct (data_is_empty E resource) eqn:Hempty.
  - destruct (get_unconditional req resource lookup rd d h Hrd Hd)
      as (r & h' & evs & Hrun & Hstatus).
    exists r, h', evs. split; [apply Hrun|]. split; [|done].
    rewrite (get_probe_of_empty_collection req resource lookup since rd d)
      by done.
    rewrite Hrun. by rewrite <-app_assoc.
  - unfold get.
    rewrite (run_bind_inr _ _ _ _ _ (run_alloc _ _)).
    rewrite (run_bind_inr _ _ _ _ _
               (run_resolve_embedded_fields E resource rd req d _ Hrd Hd)).
    rewrite Hsince.
    unfold find, is_empty. rewrite !run_bind. cbn [emit].
    rewrite run_mret, Hcount. rewrite bool_decide_eq_true_2 by done.
    rewrite !run_bind. cbn [emit]. rewrite !run_mret, Hempty.
    unfold with_heap, with_log. cbn [heap log negb].
    by rewrite <-app_assoc.
Qed.

End CollectionFetch.

Lemma get_if_modified_since_witness :
  let E := Sample.env true false in
  let req := set_if_modified_since (Some 300) Sample.request in
  get E req "people" ∅ Sample.empty_world
  = (inr {| resp_body := BodyObj 0%nat;
            resp_last_modified := VNone;
            resp_etag := VNone;
            resp_status := 304 |},
     {| heap := [∅];
        log := [EvFind "people" (set_max_results 1 req) ∅;
                EvIsEmpty "people"] |}).
Proof.
  intros E req.
  apply (get_if_modified_since E req "people" ∅ 300
           (Sample.people_def false) ∅ Sample.empty_world);
    reflexivity.
Defined.

(** The same request on an empty collection: the full query is run and the
    response is the normal one, with status 200. *)
Example get_if_modified_since_on_empty_collection :
  let E := Sample.env_with true false [] in
  let req := set_if_modified_since (Some 300) Sample.request in
  get E req "people" ∅ Sample.empty_world
  = (inr {| resp_body := BodyList [];
            resp_last_modified := VNone;
            resp_etag := VNone;
            resp_status := 200 |},
     {| heap := [∅];
        log := [EvFind "people" (set_max_results 1 req) ∅;
                EvIsEmpty "people";
                EvFind "people" (set_if_modified_since None req) ∅;
                EvCallback "on_fetch_resource";
                EvCallback "on_fetch_resource_people"] |}).
Proof. vm_compute. reflexivity. Qed.

(** ** The list of versions *)

Section Versions.
Variable E : Env.
Context (resource : string) (rd : ResourceDef) (fields : list string).

Lemma synthesize_run_missing w document delta (L D : Document) :
  heap w !! document = Some L →
  heap w !! delta = Some D →
  D !! versioned_id_field E = None →
  _synthesize_previous_version E document delta rd w
  = (inl (KeyError (versioned_id_field E)), with_heap (heap w ++ [L]) w).
Proof.
  intros HL HD Href. unfold _synthesize_previous_version.
  rewrite (run_bind_inr _ _ _ _ _ (run_deepcopy _ _ _ HL)).
  assert (HD1 : heap (with_heap (heap w ++ [L]) w) !! delta = Some D)
    by by apply lookup_app_l_Some.
  by rewrite (run_bind_inl _ _ _ _ _ (run_obj_get_missing _ _ _ HD1 _ Href)).
Qed.

(** One turn of the loop, followed by [k]: the delta and the synthesized
    document are the two new objects of the heap. *)
Lemma run_synthesize_and_build {A} (k : loc → M A) w latest (L D : Document)
    ref :
  heap w !! latest = Some L →
  D !! versioned_id_field E = Some ref →
  let o := build_view E resource fields (Some L) (merged E rd L D ref) in
  let w' := {| heap := heap w ++ [rekeyed E D ref; o.1.2];
               log := log w ++ o.2 |} in
  (delta ← alloc D;
   document ← _synthesize_previous_version E latest delta rd;
   _build_response_document E document resource fields (Some latest);;
   k document) w
  = match o.1.1 with
    | inl e => (inl e, w')
    | inr _ => k (S (length (heap w))) w'
    end.
Proof.
  intros HL Href o w'.
  pose proof (lookup_lt_Some _ _ _ HL) as Hlt.
  rewrite (run_bind_inr _ _ _ _ _ (run_alloc _ _)).
  set (w1 := with_heap (heap w ++ [D]) w).
  assert (HL1 : heap w1 !! latest = Some L) by by apply lookup_app_l_Some.
  assert (HD1 : heap w1 !! length (heap w) = Some D)
    by apply heap_lookup_fresh.
  rewrite (run_bind_inr _ _ _ _ _
             (synthesize_run E w1 latest (length (heap w)) rd L D ref
                HL1 HD1 ltac:(lia) Href)).
  fold (merged E rd L D ref).
  assert (Hh2 : <[length (heap w) := rekeyed E D ref]> (heap w1)
                ++ [merged E rd L D ref]
                = heap w ++ [rekeyed E D ref; merged E rd L D ref]).
  { unfold w1. rewrite heap_with_heap.
    replace (length (heap w)) with (length (heap w) + 0)%nat at 1 by lia.
    rewrite insert_app_r. simpl. by rewrite <-app_assoc. }
  assert (Hlen : length (heap w1) = S (length (heap w))).
  { unfold w1. rewrite heap_with_heap, length_app. simpl. lia. }
  rewrite Hh2, Hlen. unfold with_heap. cbn [log w1 with_heap].
  set (h2 := heap w ++ [rekeyed E D ref; merged E rd L D ref]).
  assert (Hdoc : h2 !! S (length (heap w)) = Some (merged E rd L D ref)).
  { unfold h2. rewrite lookup_app_r by lia.
    by replace (S (length (heap w)) - length (heap w))%nat with 1%nat by lia. }
  rewrite run_bind.
  rewrite (run_build E {| heap := h2; log := log w |} (S (length (heap w)))
             resource fields (Some latest) (Some L) (merged E rd L D ref)); cycle 1.
  { done. }
  { simpl. unfold h2. by apply lookup_app_l_Some. }
  { intros l [= <-]. lia. }
  unfold after. fold o. cbn [fst snd heap log].
  assert (Hh3 : <[S (length (heap w)) := o.1.2]> h2
                = heap w ++ [rekeyed E D ref; o.1.2]).
  { unfold h2.
    replace (S (length (heap w))) with (length (heap w) + 1)%nat by lia.
    by rewrite insert_app_r. }
  rewrite Hh3. fold w'. by destruct (o.1.1) as [e|[]].
Qed.

Lemma synthesized_eq (L D : Document) :
  synthesized E resource rd fields L D
  = match D !! versioned_id_field E with
    | Some ref =>
        let o := build_view E resource fields (Some L) (merged E rd L D ref) in
        match o.1.1 with
        | inr _ => Some o.1.2
        | inl _ => None
        end
    | None => None
    end.
Proof.
  unfold synthesized.
  destruct (D !! versioned_id_field E) as [ref|] eqn:Href.
  - rewrite (run_synthesize_and_build mret {| heap := [L]; log := [] |}
               0%nat L D ref eq_refl Href).
    cbv zeta. destruct (build_view E resource fields (Some L) _).1.1; done.
  - rewrite (run_bind_inr _ _ _ _ _ (run_alloc _ _)).
    rewrite (run_bind_inl _ _ _ _ _
               (synthesize_run_missing
                  (with_heap ([L] ++ [D]) {| heap := [L]; log := [] |})
                  0%nat 1%nat L D eq_refl eq_refl Href)).
    done.
Qed.


(** The loop in the [diffs] mode, from any turn [i]: [prev] is the content
    of [last_document], the document synthesized at the previous turn. *)
Lemma versions_diffs_run latest (L : Document) cursor :
  ∀ i last documents w out w' (prev : Document),
    heap w !! latest = Some L →
    (i ≠ 0%nat → heap w !! last = Some prev) →
    versions E true latest resource rd fields cursor i last documents w
    = (inr out, w') →
    ∃ items,
      out = documents ++ items
      ∧ length items = length cursor
      ∧ heap w `prefix_of` heap w'
      ∧ (∀ item, item ∈ items → (length (heap w) ≤ item)%nat)
      ∧ ∀ k item, items !! k = Some item →
          ∃ cur,
            cursor !! k ≫= synthesized E resource rd fields L = Some cur
            ∧ if decide (i + k = 0)%nat then heap w' !! item = Some cur
              else ∃ before,
                     match k with
                     | O => Some prev
                     | S j => cursor !! j ≫= synthesized E resource rd fields L
                     end = Some before
                     ∧ heap w' !! item
                       = Some (diff_document E rd before cur).
Proof.
  induction cursor as [|D cursor IH];
    intros i last documents w out w' prev HL Hlast Hrun.
  - simpl in Hrun. rewrite run_mret in Hrun. injection Hrun as <- <-.
    exists []. rewrite app_nil_r. split; [done|]. split; [done|].
    split; [done|]. split; [by intros item Hin%elem_of_nil|].
    intros k item Hk. by rewrite lookup_nil in Hk.
  - cbn [versions] in Hrun.
    destruct (D !! versioned_id_field E) as [ref|] eqn:Href; cycle 1.
    { rewrite (run_bind_inr _ _ _ _ _ (run_alloc _ _)) in Hrun.
      rewrite (run_bind_inl _ _ _ _ _
                 (synthesize_run_missing
                    (with_heap (heap w ++ [D]) w) latest (length (heap w))
                    L D (lookup_app_l_Some _ _ _ _ HL)
                    (heap_lookup_fresh _ _) Href)) in Hrun.
      discriminate Hrun. }
    rewrite (run_synthesize_and_build _ w latest L D ref HL Href) in Hrun.
    pose proof (synthesized_eq L D) as Hsyn. rewrite Href in Hsyn.
    cbv zeta in Hrun, Hsyn.
    set (o := build_view E resource fields (Some L) (merged E rd L D ref)) in *.
    destruct (o.1.1) as [e|[]]; [discriminate Hrun|].
    set (w1 := {| heap := heap w ++ [rekeyed E D ref; o.1.2];
                  log := log w ++ o.2 |}) in *.
    set (n := length (heap w)) in *.
    assert (Hdoc : heap w1 !! S n = Some o.1.2).
    { unfold w1, n. simpl. rewrite lookup_app_r by lia.
      by replace (S (length (heap w)) - length (heap w))%nat
        with 1%nat by lia. }
    assert (Hpre1 : heap w `prefix_of` heap w1) by by eexists.
    assert (HL1 : heap w1 !! latest = Some L)
      by by eapply prefix_lookup_Some.
    destruct (decide (i = 0%nat)) as [->|Hi].
    + rewrite bool_decide_eq_true_2 in Hrun by done.
      rewrite (run_bind_inr _ _ _ _ _ (run_mret _ _)) in Hrun.
      destruct (IH _ _ _ _ _ _ o.1.2 HL1 (λ _, Hdoc) Hrun)
        as (items & -> & Hlen & Hpre & Hfresh & Hitems).
      exists (S n :: items). rewrite <-app_assoc. split; [done|].
      split; [simpl; by rewrite Hlen|].
      split; [by etrans|].
      split.
      { intros item [->|Hin]%elem_of_cons; [unfold n; lia|].
        apply Hfresh in Hin. apply prefix_length in Hpre1. lia. }
      intros [|k] item Hk; simpl in Hk.
      * injection Hk as <-. exists o.1.2. split; [done|]. simpl.
        by eapply prefix_lookup_Some.
      * destruct (Hitems k item Hk) as (cur & Hcur & Hitem).
        exists cur. split; [done|]. simpl in Hitem |- *.
        destruct Hitem as (before & Hbefore & Hitem).
        exists before. split; [|done].
        destruct k as [|j]; [by rewrite <-Hbefore|done].
    + rewrite bool_decide_eq_false_2 in Hrun by done.
      assert (Hlast1 : heap w1 !! last = Some prev)
        by (eapply prefix_lookup_Some; eauto).
      rewrite run_bind, run_bind, (run_load _ _ _ Hlast1) in Hrun.
      rewrite run_bind, (run_load _ _ _ Hdoc) in Hrun.
      rewrite run_bind, run_alloc, run_mret in Hrun.
      set (w2 := with_heap _ w1) in Hrun.
      assert (Hpre2 : heap w1 `prefix_of` heap w2) by by eexists.
      assert (Hdiff : heap w2 !! length (heap w1)
                      = Some (diff_document E rd prev o.1.2))
        by apply heap_lookup_fresh.
      destruct (IH _ _ _ _ _ _ o.1.2
                  (prefix_lookup_Some _ _ _ _ HL1 Hpre2)
                  (λ _, prefix_lookup_Some _ _ _ _ Hdoc Hpre2) Hrun)
        as (items & -> & Hlen & Hpre & Hfresh & Hitems).
      exists (length (heap w1) :: items). rewrite <-app_assoc.
      split; [done|]. split; [simpl; by rewrite Hlen|].
      split; [by do 2 etrans|].
      split.
      { apply prefix_length in Hpre1, Hpre2.
        intros item [->|Hin]%elem_of_cons; [lia|].
        apply Hfresh in Hin. lia. }
      intros [|k] item Hk; simpl in Hk.
      * injection Hk as <-. exists o.1.2. split; [done|].
        rewrite decide_False by lia. exists prev. split; [done|].
        by eapply prefix_lookup_Some.
      * destruct (Hitems k item Hk) as (cur & Hcur & Hitem).
        exists cur. split; [done|].
        rewrite decide_False by lia. simpl in Hitem.
        destruct Hitem as (before & Hbefore & Hitem).
        exists before. split; [|done].
        destruct k as [|j]; [by rewrite <-Hbefore|done].
Qed.

End Versions.

(** ** The item fetch in the diffs mode *)

Section Diffs.
Variable E : Env.

Lemma run_rekey_lookup lookup w :
  rekey_lookup E lookup w
  = (match lookup !! ID_FIELD E with
     | Some ref =>
         inr (delete (ID_FIELD E) (<[versioned_id_field E := ref]> lookup))
     | None => inl (KeyError (ID_FIELD E))
     end, w).
Proof.
  unfold rekey_lookup, subscript, dict_del.
  destruct (lookup !! ID_FIELD E) as [ref|] eqn:Hid; [|done].
  rewrite run_bind, run_mret. rewrite lookup_insert.
  case_decide as Hsame; [done|]. by rewrite Hid.
Qed.

Lemma run_find resource req lookup w :
  find E resource req lookup w
  = (inr (data_find E resource req lookup),
     with_log (log w ++ [EvFind resource req lookup]) w).
Proof. reflexivity. Qed.

Lemma versions_response_diffs ctx resource rd fields latest_doc response
    lookup (L : Document) w body w' :
  version_arg ctx = Some "diffs" →
  heap w !! latest_doc = Some L →
  is_Some (heap w !! response) →
  versions_response E ctx resource rd fields latest_doc response lookup w
  = (inr body, w') →
  ∃ ref items,
    lookup !! ID_FIELD E = Some ref
    ∧ emitted E w' body = Some items
    ∧ (response ∉ items)
    ∧ (body = BodyObj response ∨ body = BodyList items)
    ∧ let cursor :=
        cur_documents
          (data_find E (resource +:+ VERSIONS E)
             (set_sort
                (Some ("[(" +:+ dquote +:+ VERSION E +:+ dquote +:+ ", 1)]"))
                (parsed ctx))
             (delete (ID_FIELD E) (<[versioned_id_field E := ref]> lookup)))
      in
      length items = length cursor
      ∧ ∀ k item, items !! k = Some item →
          match k with
          | O =>
              ∃ first,
                cursor !! 0%nat ≫= synthesized E resource rd fields L
                = Some first
                ∧ heap w' !! item = Some first
          | S j =>
              ∃ before cur,
                cursor !! j ≫= synthesized E resource rd fields L
                = Some before
                ∧ cursor !! k ≫= synthesized E resource rd fields L
                  = Some cur
                ∧ heap w' !! item = Some (diff_document E rd before cur)
          end.
Proof.
  intros Hdiffs HL [r0 Hresponse] Hrun. unfold versions_response in Hrun.
  rewrite run_bind, run_rekey_lookup in Hrun.
  destruct (lookup !! ID_FIELD E) as [ref|] eqn:Hid; [|discriminate Hrun].
  rewrite Hdiffs in Hrun. rewrite bool_decide_eq_true_2 in Hrun by done.
  cbv zeta in Hrun.
  set (req := set_sort _ (parsed ctx)) in *.
  set (lookup' := delete _ _) in *.
  rewrite (run_bind_inr _ _ _ _ _ (run_find _ _ _ _)) in Hrun.
  rewrite (run_bind_inr _ _ _ _ _ (run_alloc _ _)) in Hrun.
  set (w1 := with_heap _ _) in Hrun.
  set (cursor := cur_documents _) in *.
  assert (Hpre1 : heap w `prefix_of` heap w1) by by eexists.
  rewrite run_bind in Hrun.
  destruct (versions E true latest_doc resource rd fields cursor 0 _ [] w1)
    as [[e|documents] w2] eqn:Hloop; [discriminate Hrun|].
  destruct (versions_diffs_run E resource rd fields latest_doc L cursor
              0%nat _ [] w1 documents w2 ∅
              (prefix_lookup_Some _ _ _ _ HL Hpre1) ltac:(done) Hloop)
    as (items & -> & Hlen & Hpre2 & Hfresh & Hitems).
  assert (Hspec : ∀ k item, items !! k = Some item →
    match k with
    | O =>
        ∃ first,
          cursor !! 0%nat ≫= synthesized E resource rd fields L = Some first
          ∧ heap w2 !! item = Some first
    | S j =>
        ∃ before cur,
          cursor !! j ≫= synthesized E resource rd fields L = Some before
          ∧ cursor !! k ≫= synthesized E resource rd fields L = Some cur
          ∧ heap w2 !! item = Some (diff_document E rd before cur)
    end).
  { intros k item Hk. destruct (Hitems k item Hk) as (cur & Hcur & Hitem).
    destruct k as [|j]; simpl in Hitem; [by exists cur|].
    destruct Hitem as (before & Hbefore & Hitem). by exists before, cur. }
  assert (Hnotin : response ∉ items).
  { intros Hin%Hfresh. apply prefix_length in Hpre1.
    apply lookup_lt_Some in Hresponse. lia. }
  exists ref, items. split; [done|]. cbn [app] in Hrun.
  destruct (hateoas rd).
  - assert (Hr2 : heap w2 !! response = Some r0).
    { eapply prefix_lookup_Some; [|done].
      by eapply prefix_lookup_Some. }
    rewrite (run_bind_inr _ _ _ _ _ (run_obj_set _ _ _ Hr2 _ _)) in Hrun.
    rewrite run_mret in Hrun. injection Hrun as <- <-.
    pose proof (lookup_lt_Some _ _ _ Hresponse) as Hlt.
    pose proof (lookup_lt_Some _ _ _ Hr2) as Hlt2.
    split.
    { simpl. rewrite list_lookup_insert_eq by done. simpl.
      by rewrite lookup_insert_eq. }
    split; [done|]. split; [by left|].
    split; [done|]. intros k item Hk.
    assert (Hne : response ≠ item).
    { intros <-. apply Hnotin. by eapply list_elem_of_lookup_2. }
    specialize (Hspec k item Hk). simpl.
    rewrite list_lookup_insert_ne by done. done.
  - rewrite run_mret in Hrun. injection Hrun as <- <-.
    split; [done|]. split; [done|]. split; [by right|]. done.
Qed.

Lemma resolve_embedded_fields_world resource req w :
  (_resolve_embedded_fields E resource req w).2 = w.
Proof.
  unfold _resolve_embedded_fields. rewrite run_bind.
  destruct (truthy_str (req_embedded req)).
  - destruct (json_loads E _) as [[| | | | |d'|]|]; try done.
    rewrite run_mret, run_bind, run_domain.
    by destruct (DOMAIN E !! resource).
  - rewrite run_mret, run_bind, run_domain.
    by destruct (DOMAIN E !! resource).
Qed.

Lemma not_modified_status document last_modified w resp w' :
  not_modified E document last_modified w = (inr resp, w') →
  resp_status resp = 304.
Proof.
  unfold not_modified. intros Hrun.
  do 2 (apply bind_inr_inv in Hrun as (? & ? & _ & Hrun)).
  rewrite run_mret in Hrun. by injection Hrun as <- _.
Qed.

Lemma same_items_refl r w : same_items E r w w.
Proof. done. Qed.

Lemma same_items_trans r w1 w2 w3 :
  same_items E r w1 w2 → same_items E r w2 w3 → same_items E r w1 w3.
Proof.
  intros [H1 H1'] [H2 H2']. split; [by rewrite H2|].
  intros l Hl. by rewrite H2', H1'.
Qed.

Lemma obj_set_links_same_items r v w w' :
  ITEMS E ≠ LINKS E →
  obj_set r (LINKS E) v w = (inr tt, w') → same_items E r w w'.
Proof.
  intros Hne Hrun. destruct (heap w !! r) as [d|] eqn:Hr.
  - rewrite (run_obj_set _ _ _ Hr) in Hrun. injection Hrun as <-.
    split; simpl.
    + rewrite list_lookup_insert_eq by by eapply lookup_lt_Some.
      rewrite Hr. simpl. by rewrite lookup_insert_ne.
    + intros l Hl. by rewrite list_lookup_insert_ne.
  - unfold obj_set, load in Hrun. rewrite run_bind, Hr in Hrun.
    discriminate Hrun.
Qed.

Lemma set_link_same_items r rel target w w' :
  ITEMS E ≠ LINKS E →
  set_link E r rel target w = (inr tt, w') → same_items E r w w'.
Proof.
  intros Hne Hrun. unfold set_link in Hrun.
  apply bind_inr_inv in Hrun as (links & w1 & Hget & Hrun).
  apply bind_inr_inv in Hrun as (d & w2 & Hdict & Hrun).
  assert (w1 = w) as ->.
  { unfold obj_get, load, subscript in Hget. rewrite run_bind in Hget.
    destruct (heap w !! r) as [d0|]; [|discriminate Hget].
    destruct (d0 !! LINKS E); by injection Hget as _ <-. }
  assert (w2 = w) as ->.
  { destruct links; try discriminate Hdict. by injection Hdict as _ <-. }
  by eapply obj_set_links_same_items.
Qed.

Lemma extra_links_same_items resource rd r w w' :
  ITEMS E ≠ LINKS E →
  extra_links E resource rd (BodyObj r) w = (inr tt, w') →
  same_items E r w w'.
Proof.
  intros Hne Hrun. unfold extra_links, when in Hrun.
  destruct (hateoas rd); [|by injection Hrun as <-].
  apply bind_inr_inv in Hrun as (d & w1 & Hload & Hrun).
  assert (w1 = w) as ->.
  { unfold load in Hload. destruct (heap w !! r); [|discriminate Hload].
    by injection Hload as _ <-. }
  apply bind_inr_inv in Hrun as ([] & w2 & Hinit & Hrun).
  apply bind_inr_inv in Hrun as ([] & w3 & Hcoll & Hrun).
  eapply same_items_trans; [|by eapply set_link_same_items].
  eapply same_items_trans; [|by eapply set_link_same_items].
  case_bool_decide.
  - by eapply obj_set_links_same_items.
  - by injection Hinit as <-.
Qed.

Lemma respond_diffs ctx resource rd fields latest_doc response document
    lookup last_modified etag (L : Document) w resp w' :
  version_arg ctx = Some "diffs" →
  ITEMS E ≠ LINKS E →
  heap w !! latest_doc = Some L →
  is_Some (heap w !! response) →
  respond E ctx resource rd fields latest_doc response document lookup true
    last_modified etag w = (inr resp, w') →
  ∃ ref items,
    lookup !! ID_FIELD E = Some ref
    ∧ emitted E w' (resp_body resp) = Some items
    ∧ let cursor :=
        cur_documents
          (data_find E (resource +:+ VERSIONS E)
             (set_sort
                (Some ("[(" +:+ dquote +:+ VERSION E +:+ dquote +:+ ", 1)]"))
                (parsed ctx))
             (delete (ID_FIELD E) (<[versioned_id_field E := ref]> lookup)))
      in
      length items = length cursor
      ∧ ∀ k item, items !! k = Some item →
          match k with
          | O =>
              ∃ first,
                cursor !! 0%nat ≫= synthesized E resource rd fields L
                = Some first
                ∧ heap w' !! item = Some first
          | S j =>
              ∃ before cur,
                cursor !! j ≫= synthesized E resource rd fields L
                = Some before
                ∧ cursor !! k ≫= synthesized E resource rd fields L
                  = Some cur
                ∧ heap w' !! item = Some (diff_document E rd before cur)
          end.
Proof.
  intros Hdiffs Hne HL Hresponse Hrun. unfold respond in Hrun.
  apply bind_inr_inv in Hrun as (body & w1 & Hbody & Hrun).
  apply bind_inr_inv in Hrun as ([] & w2 & Hlinks & Hrun).
  rewrite run_mret in Hrun. injection Hrun as <- <-. cbn [resp_body].
  destruct (versions_response_diffs ctx resource rd fields latest_doc
              response lookup L w body w1 Hdiffs HL Hresponse Hbody)
    as (ref & items & Hid & Hemitted & Hnotin & Hshape & Hlen & Hitems).
  assert (Hsame : emitted E w2 body = emitted E w1 body
                  ∧ ∀ item, item ∈ items → heap w2 !! item = heap w1 !! item).
  { destruct Hshape as [->| ->].
    - destruct (extra_links_same_items resource rd response w1 w2 Hne Hlinks)
        as [Hitems' Hothers].
      split; [simpl; by rewrite Hitems'|].
      intros item Hin. apply Hothers. by intros ->.
    - unfold extra_links, when in Hlinks.
      destruct (hateoas rd); [discriminate Hlinks|].
      by injection Hlinks as <-. }
  destruct Hsame as [Hsame Hheap].
  exists ref, items. split; [done|]. split; [by rewrite Hsame|].
  split; [done|]. intros k item Hk.
  specialize (Hitems k item Hk).
  rewrite (Hheap item (list_elem_of_lookup_2 _ _ _ Hk)). done.
Qed.

(** C7.  An item fetch in the [diffs] mode that returns its response (status
    200) emits one element per stored version, in the order of the cursor,
    which is asked sorted by ascending version.  Element 0 is the first
    version in full, synthesized from the latest document and enriched;
    every element k > 0 is the structural diff of the version synthesized
    and enriched at turn k-1 against the one of turn k.  The latest document
    is the fetched document before its enrichment. *)
Theorem getitem_diffs ctx resource lookup rd w resp w' :
  DOMAIN E !! resource = Some rd →
  versioning rd = true →
  version_arg ctx = Some "diffs" →
  ITEMS E ≠ LINKS E →
  getitem E ctx resource lookup w = (inr resp, w') →
  resp_status resp = 200 →
  ∃ latest fields ref items,
    data_find_one E resource (Some (parsed ctx)) lookup = Some latest
    ∧ (_resolve_embedded_fields E resource (parsed ctx) w).1 = inr fields
    ∧ lookup !! ID_FIELD E = Some ref
    ∧ emitted E w' (resp_body resp) = Some items
    ∧ let cursor :=
        cur_documents
          (data_find E (resource +:+ VERSIONS E)
             (set_sort
                (Some ("[(" +:+ dquote +:+ VERSION E +:+ dquote +:+ ", 1)]"))
                (parsed ctx))
             (delete (ID_FIELD E) (<[versioned_id_field E := ref]> lookup)))
      in
      length items = length cursor
      ∧ ∀ k item, items !! k = Some item →
          match k with
          | O =>
              ∃ first,
                cursor !! 0%nat ≫= synthesized E resource rd fields latest
                = Some first
                ∧ heap w' !! item = Some first
          | S j =>
              ∃ before cur,
                cursor !! j ≫= synthesized E resource rd fields latest
                = Some before
                ∧ cursor !! k ≫= synthesized E resource rd fields latest
                  = Some cur
                ∧ heap w' !! item = Some (diff_document E rd before cur)
          end.
Proof.
  intros Hrd Hver Hdiffs Hne Hrun Hstatus. destruct w as [h lg].
  unfold getitem in Hrun.
  rewrite run_bind, run_domain, Hrd in Hrun.
  rewrite run_bind in Hrun.
  pose proof (resolve_embedded_fields_world resource (parsed ctx)
                {| heap := h; log := lg |}) as Hw.
  destruct (_resolve_embedded_fields E resource (parsed ctx) _)
    as [[e|fields] w0] eqn:Hfields; [discriminate Hrun|].
  simpl in Hw. subst w0.
  rewrite run_bind, run_find_one in Hrun.
  case_bool_decide as Hfound; [|discriminate Hrun].
  destruct (data_find_one E resource (Some (parsed ctx)) lookup)
    as [latest|] eqn:Hlatest; [|done]. cbn [default] in Hrun.
  rewrite (run_bind_inr _ _ _ _ _ (run_alloc _ _)) in Hrun.
  rewrite (run_bind_inr _ _ _ _ _ (run_alloc _ _)) in Hrun.
  unfold with_heap in Hrun. cbn [heap log] in Hrun.
  rewrite length_app in Hrun. cbn [length] in Hrun.
  replace (length h + 1)%nat with (S (length h)) in Hrun by lia.
  assert (Hdoc : ((h ++ [latest]) ++ [∅]) !! length h = Some latest).
  { apply lookup_app_l_Some, heap_lookup_fresh. }
  rewrite (run_bind_inr _ _ _ _ _
             (run_deepcopy {| heap := (h ++ [latest]) ++ [∅]; log := _ |}
                (length h) latest Hdoc)) in Hrun.
  unfold with_heap in Hrun. cbn [heap log] in Hrun.
  rewrite !length_app in Hrun. cbn [length] in Hrun.
  replace (length h + 1 + 1)%nat with (S (S (length h))) in Hrun by lia.
  set (n := length h) in *.
  set (h3 := ((h ++ [latest]) ++ [∅]) ++ [latest]) in *.
  assert (Hselect : ∀ w,
    select_version E ctx resource rd n lookup w = (inr (n, lookup, true), w)).
  { intros w. unfold select_version. rewrite Hver, Hdiffs.
    by rewrite (bool_decide_eq_true_2 (Some "diffs" = Some "diffs")),
      orb_true_r. }
  rewrite (run_bind_inr _ _ _ _ _ (Hselect _)) in Hrun.
  assert (Hdoc3 : h3 !! n = Some latest) by by apply lookup_app_l_Some.
  assert (Hlatest3 : h3 !! S (S n) = Some latest).
  { unfold h3. rewrite lookup_app_r; rewrite !length_app; simpl; [|lia].
    by replace (S (S n) - (length h + 1 + 1))%nat with 0%nat by (unfold n; lia). }
  assert (Hresponse3 : h3 !! S n = Some ∅).
  { unfold h3. apply lookup_app_l_Some. rewrite lookup_app_r;
      rewrite !length_app; simpl; [|unfold n; lia].
    by replace (S n - (length h + 1))%nat with 0%nat by (unfold n; lia). }
  rewrite run_bind in Hrun.
  rewrite (run_build E {| heap := h3; log := _ |} n resource fields
             (Some (S (S n))) (Some latest) latest Hdoc3 Hlatest3) in Hrun;
    [|intros l [= <-]; lia].
  unfold after in Hrun. cbn [fst snd heap log] in Hrun.
  set (o := build_view E resource fields (Some latest) latest) in *.
  destruct (o.1.1) as [e|[]]; [discriminate Hrun|].
  set (w4 := {| heap := <[n := o.1.2]> h3; log := _ |}) in *.
  assert (Hlatest4 : heap w4 !! S (S n) = Some latest).
  { simpl. by rewrite list_lookup_insert_ne by lia. }
  assert (Hresponse4 : is_Some (heap w4 !! S n)).
  { simpl. rewrite list_lookup_insert_ne by lia. eauto. }
  apply bind_inr_inv in Hrun as (last_modified & w5 & Hget & Hrun).
  assert (w5 = w4) as ->.
  { unfold obj_get, load, subscript in Hget. rewrite run_bind in Hget.
    destruct (heap w4 !! n) as [d0|]; [|discriminate Hget].
    destruct (d0 !! LAST_UPDATED E); by injection Hget as _ <-. }
  cbv zeta in Hrun.
  assert (Hend : ∀ etag,
    (not_modified E n last_modified w4 = (inr resp, w')
     ∨ match req_if_modified_since (parsed ctx) with
       | Some since =>
           as_date last_modified
           ≫= λ t, if bool_decide (t ≤ since)
                   then not_modified E n last_modified
                   else respond E ctx resource rd fields (S (S n)) (S n) n
                          lookup true last_modified etag
       | None => respond E ctx resource rd fields (S (S n)) (S n) n lookup
                   true last_modified etag
       end w4 = (inr resp, w')) →
    ∃ etag, respond E ctx resource rd fields (S (S n)) (S n) n lookup true
              last_modified etag w4 = (inr resp, w')).
  { intros etag [H304|Hcont].
    - apply not_modified_status in H304. congruence.
    - destruct (req_if_modified_since (parsed ctx)) as [since|]; [|eauto].
      apply bind_inr_inv in Hcont as (t & w6 & Hdate & Hcont).
      assert (w6 = w4) as ->.
      { destruct last_modified; try discriminate Hdate.
        by injection Hdate as _ <-. }
      case_bool_decide; [|eauto].
      apply not_modified_status in Hcont. congruence. }
  assert (Hrespond : ∃ etag,
    respond E ctx resource rd fields (S (S n)) (S n) n lookup true
      last_modified etag w4 = (inr resp, w')).
  { destruct (IF_MATCH E).
    - apply bind_inr_inv in Hrun as (etag & w6 & Hetag & Hrun).
      assert (w6 = w4) as ->.
      { unfold obj_get, load, subscript in Hetag. rewrite run_bind in Hetag.
        destruct (heap w4 !! n) as [d0|]; [|discriminate Hetag].
        destruct (d0 !! ETAG E); by injection Hetag as _ <-. }
      destruct (truthy_str _).
      + apply bind_inr_inv in Hrun as (tag & w6 & Htag & Hrun).
        assert (w6 = w4) as ->.
        { unfold obj_get, load, subscript in Htag. rewrite run_bind in Htag.
          destruct (heap w4 !! n) as [d0|]; [|discriminate Htag].
          destruct (d0 !! ETAG E); by injection Htag as _ <-. }
        destruct (eq_str _ _); apply (Hend etag); [by left|by right].
      + apply (Hend etag). by right.
    - apply (Hend VNone). by right. }
  destruct Hrespond as [etag Hrespond].
  destruct (respond_diffs ctx resource rd fields (S (S n)) (S n) n lookup
              last_modified etag latest w4 resp w' Hdiffs Hne Hlatest4
              Hresponse4 Hrespond)
    as (ref & items & Hid & Hemitted & Hitems).
  exists latest, fields, ref, items. done.
Qed.

End Diffs.

Lemma getitem_diffs_witness :
  let E := Sample.env true false in
  let ctx := {| parsed := Sample.request; version_arg := Some "diffs" |} in
  let lookup : Document := <["_id" := VInt 7]> ∅ in
  let rd := Sample.people_def false in
  let w := Sample.empty_world in
  let resp := {| resp_body := BodyList [5; 8; 11]%nat;
                 resp_last_modified := VDate 300;
                 resp_etag := VStr "6";
                 resp_status := 200 |} in
  let w' := (getitem E ctx "people" lookup w).2 in
  ∃ latest fields ref items,
    data_find_one E "people" (Some (parsed ctx)) lookup = Some latest
    ∧ (_resolve_embedded_fields E "people" (parsed ctx) w).1 = inr fields
    ∧ lookup !! ID_FIELD E = Some ref
    ∧ emitted E w' (resp_body resp) = Some items
    ∧ let cursor :=
        cur_documents
          (data_find E ("people" +:+ VERSIONS E)
             (set_sort
                (Some ("[(" +:+ dquote +:+ VERSION E +:+ dquote +:+ ", 1)]"))
                (parsed ctx))
             (delete (ID_FIELD E) (<[versioned_id_field E := ref]> lookup)))
      in
      length items = length cursor
      ∧ ∀ k item, items !! k = Some item →
          match k with
          | O =>
              ∃ first,
                cursor !! 0%nat ≫= synthesized E "people" rd fields latest
                = Some first
                ∧ heap w' !! item = Some first
          | S j =>
              ∃ before cur,
                cursor !! j ≫= synthesized E "people" rd fields latest
                = Some before
                ∧ cursor !! k ≫= synthesized E "people" rd fields latest
                  = Some cur
                ∧ heap w' !! item = Some (diff_document E rd before cur)
          end.
Proof.
  intros E ctx lookup rd w resp w'.
  apply (getitem_diffs E ctx "people" lookup rd w resp w').
  - reflexivity.
  - reflexivity.
  - reflexivity.
  - intros Heq. discriminate Heq.
  - vm_compute. reflexivity.
  - reflexivity.
Defined.

(** The three elements emitted for the sample person: version 1 in full,
    then the fields that changed at versions 2 and 3. *)
Example getitem_diffs_of_the_sample :
  let E := Sample.env true false in
  let ctx := {| parsed := Sample.request; version_arg := Some "diffs" |} in
  let run := getitem E ctx "people" (<["_id" := VInt 7]> ∅)
               Sample.empty_world in
  run.1 = inr {| resp_body := BodyList [5; 8; 11]%nat;
                 resp_last_modified := VDate 300;
                 resp_etag := VStr "6";
                 resp_status := 200 |}
  ∧ heap run.2 !! 5%nat
    = Some (<["_created" := VDate 100]> (<["_updated" := VDate 100]>
           (<["_etag" := VStr "5"]> (<["_id" := VInt 7]>
           (<["_version" := VInt 1]> (<["_latest_version" := VInt 3]>
           (<["name" := VStr "A"]> ∅)))))))
  ∧ heap run.2 !! 8%nat
    = Some (<["_updated" := VDate 200]> (<["_version" := VInt 2]>
           (<["name" := VStr "An"]> ∅)))
  ∧ heap run.2 !! 11%nat
    = Some (<["_updated" := VDate 300]> (<["_version" := VInt 3]>
           (<["name" := VStr "Ann"]> ∅))).
Proof. vm_compute. done. Qed.

(** ** The 304 of the item fetch and the ETag *)

(** C1.  With conditional matching disabled the enrichment attaches no ETag,
    and the return of line 250 still reads [document[config.ETAG]]: an item
    fetch whose if-modified-since condition matches ends with the KeyError
    of the ETag field instead of a 304 without ETag.  With conditional
    matching enabled the same request returns the 304 with the ETag; and
    with it disabled, a stored document that carries an ETag field of its
    own has that value reported. *)
Theorem getitem_if_modified_since_reads_the_etag_unguarded :
  let ctx := {| parsed := set_if_modified_since (Some 300) Sample.request;
                version_arg := None |} in
  let lookup : Document := <["_id" := VInt 7]> ∅ in
  let stale : Document := <["_etag" := VStr "stale"]> Sample.person in
  (getitem (Sample.env false false) ctx "people" lookup
     Sample.empty_world).1
  = inl (KeyError "_etag")
  ∧ (getitem (Sample.env true false) ctx "people" lookup
       Sample.empty_world).1
    = inr {| resp_body := BodyObj 3%nat;
             resp_last_modified := VDate 300;
             resp_etag := VStr "6";
             resp_status := 304 |}
  ∧ (getitem (Sample.env_with false false [stale]) ctx "people" lookup
       Sample.empty_world).1
    = inr {| resp_body := BodyObj 3%nat;
             resp_last_modified := VDate 300;
             resp_etag := VStr "stale";
             resp_status := 304 |}.
Proof. vm_compute. done. Qed.

(** ** More on the pagination links *)

Section MorePagination.
Variable E : Env.

(** X1.  Lines 481-485: for a collection without documents, or a resource
    whose pagination is off, the links are exactly the parent and the self
    link, whatever the page and page size of the request. *)
Theorem pagination_links_without_pages resource rd req count w :
  DOMAIN E !! resource = Some rd →
  count = 0 ∨ pagination rd = false →
  _pagination_links E resource req count w
  = (inr (<["parent" := home_link E]>
            (<["self" := link (resource_title rd) (resource_uri E resource)]>
               ∅)), w).
Proof.
  intros Hrd Hoff. unfold _pagination_links.
  rewrite run_bind, run_domain, Hrd.
  destruct Hoff as [->| ->]; [done|].
  by rewrite andb_false_r.
Qed.

(** X2.  Lines 481-507: with pagination on, a non-empty collection and a
    non-zero page size, the links hold the parent and the self link, a next
    link exactly when [page * max_results < count], to page + 1, and a
    previous link exactly when the page is after the first, to page - 1. *)
Theorem pagination_next_and_prev resource rd req count w :
  DOMAIN E !! resource = Some rd →
  pagination rd = true →
  count ≠ 0 →
  req_max_results req ≠ 0 →
  ∃ links,
    _pagination_links E resource req count w = (inr links, w)
    ∧ links !! "parent" = Some (home_link E)
    ∧ links !! "self"
      = Some (link (resource_title rd) (resource_uri E resource))
    ∧ links !! "next"
      = (if bool_decide (req_page req * req_max_results req < count) then
           Some (link "next page"
                   (resource_uri E resource
                    +:+ querydef E (req_max_results req) (req_where req)
                          (req_sort req) (req_page req + 1)))
         else None)
    ∧ links !! "prev"
      = (if bool_decide (1 < req_page req) then
           Some (link "previous page"
                   (resource_uri E resource
                    +:+ querydef E (req_max_results req) (req_where req)
                          (req_sort req) (req_page req - 1)))
         else None).
Proof.
  intros Hrd Hpag Hcount Hmax. unfold _pagination_links.
  rewrite run_bind, run_domain, Hrd, Hpag.
  rewrite (bool_decide_eq_false_2 (count = 0)) by done. cbn [negb andb].
  rewrite run_bind. unfold ceil_div.
  rewrite (bool_decide_eq_false_2 (req_max_results req = 0)) by done.
  case_bool_decide; case_bool_decide; rewrite ?run_bind, !run_mret;
    eexists; (split; [reflexivity|]); repeat split;
    by repeat first [rewrite lookup_insert_eq
                    |rewrite lookup_insert_ne by done].
Qed.

(** X3.  Lines 485-497: with pagination on and a page size of zero, a
    non-empty collection makes the computation of the last page divide by
    zero: the function raises [ZeroDivisionError]. *)
Theorem pagination_links_zero_page_size resource rd req count w :
  DOMAIN E !! resource = Some rd →
  pagination rd = true →
  0 < count →
  req_max_results req = 0 →
  _pagination_links E resource req count w = (inl ZeroDivisionError, w).
Proof.
  intros Hrd Hpag Hcount Hmax. unfold _pagination_links.
  rewrite run_bind, run_domain, Hrd, Hpag, Hmax.
  rewrite (bool_decide_eq_false_2 (count = 0)) by lia. cbn [negb andb].
  rewrite (bool_decide_eq_true_2 (req_page req * 0 < count)) by lia.
  rewrite run_bind. unfold ceil_div.
  by rewrite bool_decide_eq_true_2.
Qed.

End MorePagination.

Lemma pagination_links_without_pages_witness :
  let E := Sample.env false true in
  _pagination_links E "people" (Cases.paged 4 10) 0 Sample.empty_world
  = (inr (<["parent" := home_link E]>
            (<["self" := link "people" (resource_uri E "people")]> ∅)),
     Sample.empty_world).
Proof.
  intros E.
  apply (pagination_links_without_pages E "people" (Sample.people_def true)
           (Cases.paged 4 10) 0 Sample.empty_world);
    [reflexivity|left; reflexivity].
Defined.

Lemma pagination_next_and_prev_witness :
  let E := Sample.env false true in
  let req := Cases.paged 2 10 in
  ∃ links,
    _pagination_links E "people" req 25 Sample.empty_world
    = (inr links, Sample.empty_world)
    ∧ links !! "parent" = Some (home_link E)
    ∧ links !! "self" = Some (link "people" "/people")
    ∧ links !! "next"
      = Some (link "next page" "/people?max_results=10&page=3")
    ∧ links !! "prev"
      = Some (link "previous page" "/people?max_results=10&page=1").
Proof.
  intros E req.
  apply (pagination_next_and_prev E "people" (Sample.people_def true) req 25
           Sample.empty_world); [reflexivity|reflexivity|lia|simpl; lia].
Defined.

Lemma pagination_links_zero_page_size_witness :
  _pagination_links (Sample.env false true) "people" (Cases.paged 1 0) 5
    Sample.empty_world
  = (inl ZeroDivisionError, Sample.empty_world).
Proof.
  apply (pagination_links_zero_page_size (Sample.env false true) "people"
           (Sample.people_def true) (Cases.paged 1 0) 5 Sample.empty_world);
    [reflexivity|reflexivity|lia|reflexivity].
Defined.

(** ** More on the resolution of embedded fields *)

Section MoreEmbeddedFields.
Variable E : Env.

(** X4.  Lines 382-400: an embedding clause that is not the JSON text of a
    dictionary aborts the request with status 400, before the resource is
    looked up in the domain. *)
Theorem resolve_embedded_fields_malformed_clause resource req w :
  client_embedding E req = None →
  _resolve_embedded_fields E resource req w = (inl (HTTPException 400), w).
Proof.
  unfold client_embedding, _resolve_embedded_fields. intros Hnone.
  rewrite run_bind.
  destruct (truthy_str (req_embedded req)); [|done].
  by destruct (json_loads E _) as [[| | | | |d'|]|].
Qed.

Lemma resolve_embedded_fields_inv resource req w fields w' :
  _resolve_embedded_fields E resource req w = (inr fields, w') →
  ∃ rd d,
    DOMAIN E !! resource = Some rd
    ∧ client_embedding E req = Some d
    ∧ fields = filter (λ field, embeddable rd field) (candidates rd d)
    ∧ w' = w.
Proof.
  intros Hrun.
  destruct (client_embedding E req) as [d|] eqn:Hd; cycle 1.
  { unfold client_embedding, _resolve_embedded_fields in *.
    rewrite run_bind in Hrun.
    destruct (truthy_str (req_embedded req)); [|done].
    by destruct (json_loads E _) as [[| | | | |d'|]|]. }
  destruct (DOMAIN E !! resource) as [rd|] eqn:Hrd.
  - rewrite (run_resolve_embedded_fields E resource rd req d) in Hrun by done.
    injection Hrun as <- <-. by exists rd, d.
  - unfold _resolve_embedded_fields, client_embedding in *.
    rewrite run_bind in Hrun.
    destruct (truthy_str (req_embedded req)).
    + destruct (json_loads E _) as [[| | | | |d'|]|]; try done.
      by rewrite run_mret, run_bind, run_domain, Hrd in Hrun.
    + by rewrite run_mret, run_bind, run_domain, Hrd in Hrun.
Qed.

(** X5.  Lines 402-418: the list of embedded fields that the function
    returns names no field twice, also when the client asks for a field
    that the resource embeds by default; the function changes neither the
    objects nor the log. *)
Theorem resolve_embedded_fields_no_duplicates resource req w fields w' :
  _resolve_embedded_fields E resource req w = (inr fields, w') →
  NoDup fields ∧ w' = w.
Proof.
  intros (rd & d & _ & _ & -> & ->)%resolve_embedded_fields_inv.
  split; [apply NoDup_resolved|done].
Qed.

(** X6.  Lines 392-418: the result depends on the embedding clause only
    through the set of fields that it requests with the value 1: two
    clauses that request the same fields give the same fields, up to their
    order. *)
Theorem resolve_embedded_fields_depends_on_requested resource rd req req'
    (d d' : Document) w :
  DOMAIN E !! resource = Some rd →
  client_embedding E req = Some d →
  client_embedding E req' = Some d' →
  (∀ g, (∃ x, d !! g = Some x ∧ eq_one x = true)
        ↔ (∃ x, d' !! g = Some x ∧ eq_one x = true)) →
  ∃ fields fields',
    _resolve_embedded_fields E resource req w = (inr fields, w)
    ∧ _resolve_embedded_fields E resource req' w = (inr fields', w)
    ∧ fields ≡ₚ fields'.
Proof.
  intros Hrd Hd Hd' Hsame.
  eexists _, _. split; [by apply run_resolve_embedded_fields|].
  split; [by apply run_resolve_embedded_fields|].
  apply NoDup_Permutation; [apply NoDup_resolved..|].
  intros g. rewrite !elem_of_resolved. by rewrite Hsame.
Qed.

End MoreEmbeddedFields.

Lemma resolve_embedded_fields_malformed_clause_witness :
  _resolve_embedded_fields (Sample.env false false) "people"
    (Sample.embedding "boss") Sample.empty_world
  = (inl (HTTPException 400), Sample.empty_world).
Proof.
  apply (resolve_embedded_fields_malformed_clause (Sample.env false false)
           "people" (Sample.embedding "boss") Sample.empty_world).
  reflexivity.
Defined.

Lemma resolve_embedded_fields_no_duplicates_witness :
  NoDup ["boss"] ∧ Sample.empty_world = Sample.empty_world.
Proof.
  apply (resolve_embedded_fields_no_duplicates
           (Cases.env Cases.staff_def []) "people"
           (Sample.embedding "{boss: 1}") Sample.empty_world ["boss"]
           Sample.empty_world).
  vm_compute. reflexivity.
Defined.

Lemma resolve_embedded_fields_depends_on_requested_witness :
  let E := Cases.env (Sample.people_def false) [] in
  ∃ fields fields',
    _resolve_embedded_fields E "people" (Sample.embedding "{boss: true}")
      Sample.empty_world
    = (inr fields, Sample.empty_world)
    ∧ _resolve_embedded_fields E "people"
        (Sample.embedding "{boss: 1, name: 0}") Sample.empty_world
      = (inr fields', Sample.empty_world)
    ∧ fields ≡ₚ fields'.
Proof.
  intros E.
  apply (resolve_embedded_fields_depends_on_requested E "people"
           (Sample.people_def false) (Sample.embedding "{boss: true}")
           (Sample.embedding "{boss: 1, name: 0}")
           (<["boss" := VBool true]> ∅)
           (<["name" := VInt 0]> (<["boss" := VInt 1]> ∅))
           Sample.empty_world); [reflexivity..|].
  intros g. destruct (decide (g = "boss")) as [->|Hboss].
  - split; intros _; eexists; (split; [reflexivity|reflexivity]).
  - rewrite (lookup_insert_ne _ "boss") by done. rewrite lookup_empty.
    destruct (decide (g = "name")) as [->|Hname].
    + split; [by intros (x & [=] & _)|].
      intros (x & Hx & Hone). vm_compute in Hx. by injection Hx as <-.
    + rewrite !lookup_insert_ne, lookup_empty by done.
      split; by intros (x & [=] & _).
Defined.

(** ** Expansion of references and media files *)

Section Expansion.
Variable E : Env.

Lemma embed_lookup relation field ref (d : Document) :
  d !! field = Some ref →
  embed E relation field ref d !! field = Some (expanded E relation ref).
Proof.
  intros Hd. unfold embed, expanded.
  destruct (data_find_one E _ _ _) as [ed|]; [|done].
  case_bool_decide; [apply lookup_insert_eq|done].
Qed.

Lemma embedded_documents_view_expands resource rd fields :
  DOMAIN E !! resource = Some rd →
  NoDup fields →
  ∀ d : Document,
    (∀ f, f ∈ fields →
          is_Some (d !! f)
          ∧ ∃ fd relation, schema rd !! f = Some fd
                           ∧ data_relation fd = Some relation) →
    (embedded_documents_view E resource fields d).1.1 = inr tt
    ∧ ∀ f ref fd relation,
        f ∈ fields → d !! f = Some ref → schema rd !! f = Some fd →
        data_relation fd = Some relation →
        (embedded_documents_view E resource fields d).1.2 !! f
        = Some (expanded E relation ref).
Proof.
  intros Hrd Hnd. induction fields as [|f fields IH]; intros d Hok.
  - split; [done|]. by intros f ref fd relation Hin%elem_of_nil.
  - apply NoDup_cons in Hnd as [Hf Hnd].
    destruct (Hok f) as ([ref Href] & fd & relation & Hfd & Hrel); [left|].
    cbn [embedded_documents_view]. rewrite Hrd, Hfd, Hrel, Href.
    destruct (IH Hnd (embed E relation f ref d)) as [Hrun Hfields].
    { intros g Hg. destruct (Hok g) as [Hpresent Hschema]; [by right|].
      split; [|done]. rewrite embed_other; [done|]. by intros ->. }
    pose proof (embedded_documents_view_other E resource fields f Hf
                  (embed E relation f ref d)) as Hother.
    destruct (embedded_documents_view E resource fields _) as [[r d'] evs].
    simpl in *. split; [done|].
    intros g ref' fd' relation' [->|Hg]%elem_of_cons Href' Hfd' Hrel'.
    + rewrite Hother. simplify_eq. by apply embed_lookup.
    + apply (Hfields g ref' fd' relation' Hg); [|done..].
      rewrite embed_other; [done|]. by intros ->.
Qed.

(** X7.  Lines 445-453: when the fields to embed are distinct, present in
    the document and declared with a data relation, the function succeeds,
    queries the data layer once per field, leaves every other field of the
    document as it was, and replaces each reference by the related document,
    or keeps the reference when the data layer finds none. *)
Theorem resolve_embedded_documents_expands w document resource rd fields
    (d : Document) :
  heap w !! document = Some d →
  DOMAIN E !! resource = Some rd →
  NoDup fields →
  (∀ f, f ∈ fields →
        is_Some (d !! f)
        ∧ ∃ fd relation, schema rd !! f = Some fd
                         ∧ data_relation fd = Some relation) →
  ∃ (d' : Document) evs,
    _resolve_embedded_documents E document resource fields w
    = (inr tt, {| heap := <[document := d']> (heap w); log := log w ++ evs |})
    ∧ length evs = length fields
    ∧ (∀ f, f ∉ fields → d' !! f = d !! f)
    ∧ ∀ f ref fd relation,
        f ∈ fields → d !! f = Some ref → schema rd !! f = Some fd →
        data_relation fd = Some relation →
        d' !! f = Some (expanded E relation ref).
Proof.
  intros Hd Hrd Hnd Hok.
  destruct (embedded_documents_view_expands resource rd fields Hrd Hnd d Hok)
    as [Hrun Hfields].
  exists (embedded_documents_view E resource fields d).1.2,
         (embedded_documents_view E resource fields d).2.
  split; [|split; [|split; [|done]]].
  - destruct w as [h lg]. simpl in Hd |- *.
    rewrite <-(list_insert_id h document d Hd) at 1.
    rewrite run_resolve_embedded_documents by by eapply lookup_lt_Some.
    by rewrite Hrun.
  - clear Hfields Hd. revert d Hok Hrun.
    induction fields as [|f fields IH]; intros d Hok Hrun; [done|].
    apply NoDup_cons in Hnd as [Hf Hnd].
    destruct (Hok f) as ([ref Href] & fd & relation & Hfd & Hrel); [left|].
    cbn [embedded_documents_view] in Hrun |- *.
    rewrite Hrd, Hfd, Hrel, Href in Hrun |- *.
    specialize (IH Hnd (embed E relation f ref d)).
    destruct (embedded_documents_view E resource fields _) as [[r d'] evs].
    simpl in *. f_equal. apply IH; [|done].
    intros g Hg. destruct (Hok g) as [Hpresent Hschema]; [by right|].
    split; [|done]. rewrite embed_other; [done|]. by intros ->.
  - intros f Hf. by apply embedded_documents_view_other.
Qed.

Lemma media_files_view_payloads fields :
  NoDup fields →
  ∀ d : Document,
    (∀ f, f ∈ fields → is_Some (d !! f)) →
    (media_files_view E fields d).1 = inr tt
    ∧ ∀ f ref, f ∈ fields → d !! f = Some ref →
               (media_files_view E fields d).2 !! f
               = Some (media_payload E ref).
Proof.
  intros Hnd. induction fields as [|f fields IH]; intros d Hok.
  - split; [done|]. by intros f ref Hin%elem_of_nil.
  - apply NoDup_cons in Hnd as [Hf Hnd].
    destruct (Hok f) as [ref Href]; [left|].
    cbn [media_files_view]. rewrite Href.
    destruct (IH Hnd (<[f := media_payload E ref]> d)) as [Hrun Hfields].
    { intros g Hg. rewrite lookup_insert_ne by (by intros ->).
      apply Hok. by right. }
    split; [done|].
    intros g ref' [->|Hg]%elem_of_cons Href'.
    + rewrite media_files_view_other by done.
      rewrite lookup_insert_eq. congruence.
    + apply Hfields; [done|]. by rewrite lookup_insert_ne by (by intros ->).
Qed.

(** X8.  Lines 510-513: when the media fields of the document are distinct
    and present, each is replaced by the base64 text of the file that the
    media storage holds for it, or by [None] when the storage has no such
    file; the other fields are unchanged. *)
Theorem resolve_media_files_payloads w document resource (d : Document) :
  heap w !! document = Some d →
  NoDup (resource_media_fields E d resource) →
  (∀ f, f ∈ resource_media_fields E d resource → is_Some (d !! f)) →
  ∃ d' : Document,
    _resolve_media_files E document resource w
    = (inr tt, with_heap (<[document := d']> (heap w)) w)
    ∧ (∀ f, f ∉ resource_media_fields E d resource → d' !! f = d !! f)
    ∧ ∀ f ref,
        f ∈ resource_media_fields E d resource → d !! f = Some ref →
        d' !! f = Some match media_get E ref with
                       | Some content => VStr (base64_encodestring E content)
                       | None => VNone
                       end.
Proof.
  intros Hd Hnd Hok.
  destruct (media_files_view_payloads _ Hnd d Hok) as [Hrun Hfields].
  exists (media_files_view E (resource_media_fields E d resource) d).2.
  split; [|split; [|done]].
  - destruct w as [h lg]. simpl in Hd |- *. unfold with_heap. simpl.
    rewrite <-(list_insert_id h document d Hd) at 1.
    rewrite run_resolve_media_files by by eapply lookup_lt_Some.
    by rewrite Hrun.
  - intros f Hf. by apply media_files_view_other.
Qed.

End Expansion.

Lemma resolve_embedded_documents_expands_witness :
  let E := Sample.env false false in
  let w := {| heap := [Sample.person]; log := [] |} in
  ∃ (d' : Document) evs,
    _resolve_embedded_documents E 0%nat "people" ["boss"] w
    = (inr tt, {| heap := <[0%nat := d']> (heap w); log := log w ++ evs |})
    ∧ length evs = 1%nat
    ∧ (∀ f, f ∉ ["boss"] → d' !! f = Sample.person !! f)
    ∧ ∀ f ref fd relation,
        f ∈ ["boss"] → Sample.person !! f = Some ref →
        schema (Sample.people_def false) !! f = Some fd →
        data_relation fd = Some relation →
        d' !! f = Some (expanded E relation ref).
Proof.
  intros E w.
  apply (resolve_embedded_documents_expands E w 0%nat "people"
           (Sample.people_def false) ["boss"] Sample.person);
    [reflexivity|reflexivity|apply NoDup_singleton|].
  intros f ->%list_elem_of_singleton.
  split; [by eexists|by eexists _, _].
Defined.

Lemma resolve_media_files_payloads_witness :
  let E := Cases.env (Sample.people_def false) ["photo"] in
  let d := <["photo" := VStr "ann.png"]> Sample.person in
  let w := {| heap := [d]; log := [] |} in
  ∃ d' : Document,
    _resolve_media_files E 0%nat "people" w
    = (inr tt, with_heap (<[0%nat := d']> (heap w)) w)
    ∧ (∀ f, f ∉ ["photo"] → d' !! f = d !! f)
    ∧ ∀ f ref,
        f ∈ ["photo"] → d !! f = Some ref →
        d' !! f = Some match media_get E ref with
                       | Some content => VStr (base64_encodestring E content)
                       | None => VNone
                       end.
Proof.
  intros E d w.
  apply (resolve_media_files_payloads E w 0%nat "people" d);
    [reflexivity|apply NoDup_singleton|].
  intros f ->%list_elem_of_singleton. by eexists.
Defined.

(** ** More on the enrichment and on the synthesis of versions *)

Section MoreEnrichment.
Variable E : Env.

(** X9.  Lines 311-344: the enrichment writes to the document it is given
    and to nothing else: whatever its outcome, no object is created, the
    document is still there, and every other object, the latest version
    included, is as before. *)
Theorem build_response_document_writes_document_only w document resource
    fields latest_doc latest (d : Document) :
  heap w !! document = Some d →
  holds (heap w) latest_doc latest →
  (∀ l, latest_doc = Some l → l ≠ document) →
  let w' := (_build_response_document E document resource fields
               latest_doc w).2 in
  length (heap w') = length (heap w)
  ∧ is_Some (heap w' !! document)
  ∧ ∀ l, l ≠ document → heap w' !! l = heap w !! l.
Proof.
  intros Hd Hlat Hne. cbv zeta.
  rewrite (run_build E w document resource fields latest_doc latest d)
    by done.
  unfold after. cbn [snd heap].
  split; [apply length_insert|]. split.
  - rewrite list_lookup_insert_eq by by eapply lookup_lt_Some. eauto.
  - intros l Hl. by rewrite list_lookup_insert_ne.
Qed.

(** X10.  Lines 321-334: with HATEOAS on, a document without the item lookup
    field of its resource makes the enrichment raise [KeyError]; the
    document keeps the timestamps and the ETag set before the failure. *)
Theorem build_response_document_missing_lookup_field w document resource rd
    fields latest_doc latest (d : Document) :
  heap w !! document = Some d →
  holds (heap w) latest_doc latest →
  (∀ l, latest_doc = Some l → l ≠ document) →
  DOMAIN E !! resource = Some rd →
  hateoas rd = true →
  tagged E (stamped E d) !! item_lookup_field rd = None →
  _build_response_document E document resource fields latest_doc w
  = (inl (KeyError (item_lookup_field rd)),
     with_heap (<[document := tagged E (stamped E d)]> (heap w)) w).
Proof.
  intros Hd Hlat Hne Hrd Hhateoas Hmissing.
  rewrite (run_build E w document resource fields latest_doc latest d)
    by done.
  unfold after, build_view. rewrite Hrd, Hhateoas, Hmissing.
  destruct w as [h lg]. unfold with_heap. simpl. by rewrite app_nil_r.
Qed.

(** X11.  Lines 311-344: the enrichment leaves a field [k] of the document
    as it was, whatever its outcome, when [k] is none of the two timestamp
    fields, the ETag field under IF_MATCH, the links field under HATEOAS, a
    media field or an embedded field, and the version resolution keeps
    [k]. *)
Theorem build_response_document_other_fields w document resource fields
    latest_doc latest (d : Document) k :
  heap w !! document = Some d →
  holds (heap w) latest_doc latest →
  (∀ l, latest_doc = Some l → l ≠ document) →
  k ≠ DATE_CREATED E → k ≠ LAST_UPDATED E →
  (IF_MATCH E = true → k ≠ ETAG E) →
  (∀ rd, DOMAIN E !! resource = Some rd → hateoas rd = true →
         k ≠ LINKS E) →
  (∀ d' method,
     resolve_version E d' resource method latest !! k = d' !! k) →
  (∀ d', k ∉ resource_media_fields E d' resource) →
  k ∉ fields →
  (heap (_build_response_document E document resource fields latest_doc
           w).2 !! document) ≫= (.!! k) = d !! k.
Proof.
  intros Hd Hlat Hne Hdc Hlu Hetag Hlinks Hver Hmedia Hemb.
  rewrite (run_build _ _ _ _ _ _ latest d) by done.
  unfold after. cbn [snd heap].
  rewrite list_lookup_insert_eq by by eapply lookup_lt_Some.
  cbn [mbind option_bind].
  assert (Htag : tagged E (stamped E d) !! k = d !! k).
  { assert (Hst : stamped E d !! k = d !! k)
      by (unfold stamped; by rewrite !lookup_insert_ne by done).
    unfold tagged. destruct (IF_MATCH E); [|done].
    rewrite lookup_insert_ne; [done|]. intros Heq. by apply Hetag. }
  unfold build_view. set (d1 := tagged E (stamped E d)) in *.
  destruct (DOMAIN E !! resource) as [rd|]; [|done].
  specialize (Hlinks rd eq_refl).
  destruct (hateoas rd).
  - destruct (d1 !! item_lookup_field rd) as [key|]; [|done].
    set (d2 := <[LINKS E := _]> d1).
    assert (Hd2 : d2 !! k = d1 !! k)
      by (apply lookup_insert_ne; intros Heq; by apply Hlinks).
    set (d3 := resolve_version E d2 resource _ latest).
    assert (Hd3 : d3 !! k = d !! k) by by unfold d3; rewrite Hver, Hd2.
    pose proof (media_files_view_other E _ _ (Hmedia d3) d3) as Hm.
    destruct (media_files_view E _ d3) as [[e|[]] d4]; simpl in Hm |- *.
    + by rewrite Hm.
    + pose proof (embedded_documents_view_other E resource _ _ Hemb d4) as He.
      destruct (embedded_documents_view E resource fields d4)
        as [[r d5] evs]. simpl in He |- *. by rewrite He, Hm.
  - set (d3 := resolve_version E d1 resource _ latest).
    assert (Hd3 : d3 !! k = d !! k) by by unfold d3; rewrite Hver.
    pose proof (media_files_view_other E _ _ (Hmedia d3) d3) as Hm.
    destruct (media_files_view E _ d3) as [[e|[]] d4]; simpl in Hm |- *.
    + by rewrite Hm.
    + pose proof (embedded_documents_view_other E resource _ _ Hemb d4) as He.
      destruct (embedded_documents_view E resource fields d4)
        as [[r d5] evs]. simpl in He |- *. by rewrite He, Hm.
Qed.

End MoreEnrichment.

Section MoreSynthesis.
Variable E : Env.

(** X12.  Lines 357-369: the synthesis returns a new object and leaves the
    log alone, but it rewrites the delta it is given: the identity of the
    delta becomes the reference to the document and the reference field is
    deleted.  Every other object is unchanged. *)
Theorem synthesize_previous_version_rekeys_delta w document delta rd
    (L D : Document) ref :
  heap w !! document = Some L →
  heap w !! delta = Some D →
  document ≠ delta →
  D !! versioned_id_field E = Some ref →
  let run := _synthesize_previous_version E document delta rd w in
  run.1 = inr (length (heap w))
  ∧ length (heap run.2) = S (length (heap w))
  ∧ log run.2 = log w
  ∧ heap run.2 !! delta
    = Some (delete (versioned_id_field E) (<[ID_FIELD E := ref]> D))
  ∧ ∀ l, l ≠ delta → (l < length (heap w))%nat →
         heap run.2 !! l = heap w !! l.
Proof.
  intros HL HD Hne Href. cbv zeta.
  rewrite (synthesize_run E w document delta rd L D ref) by done.
  cbn [fst snd]. rewrite heap_with_heap, log_with_heap.
  pose proof (lookup_lt_Some _ _ _ HD) as Hlt.
  split; [done|]. split.
  { rewrite length_app, length_insert. simpl. lia. }
  split; [done|]. split.
  - apply lookup_app_l_Some. by apply list_lookup_insert_eq.
  - intros l Hl Hlen. rewrite lookup_app_l by by rewrite length_insert.
    by rewrite list_lookup_insert_ne.
Qed.

(** X13.  Lines 357-358: because the first call deletes the reference field
    of the delta, a second synthesis from the same delta object raises
    [KeyError] on that field. *)
Theorem synthesize_previous_version_twice_on_a_delta w document delta rd
    (L D : Document) ref :
  heap w !! document = Some L →
  heap w !! delta = Some D →
  document ≠ delta →
  D !! versioned_id_field E = Some ref →
  (_synthesize_previous_version E document delta rd
     (_synthesize_previous_version E document delta rd w).2).1
  = inl (KeyError (versioned_id_field E)).
Proof.
  intros HL HD Hne Href.
  pose proof (lookup_lt_Some _ _ _ HD) as Hlt.
  rewrite (synthesize_run E w document delta rd L D ref) by done.
  cbn [snd].
  rewrite (synthesize_run_missing E rd _ document delta L (rekeyed E D ref)).
  - done.
  - rewrite heap_with_heap. apply lookup_app_l_Some.
    by rewrite list_lookup_insert_ne.
  - rewrite heap_with_heap. apply lookup_app_l_Some.
    by apply list_lookup_insert_eq.
  - unfold rekeyed. apply lookup_delete_eq.
Qed.

Lemma merged_idempotent rd (L D : Document) ref :
  merged E rd (merged E rd L D ref) D ref = merged E rd L D ref.
Proof.
  unfold merged. apply map_eq. intros k.
  rewrite !lookup_union. destruct (rekeyed E D ref !! k) as [x|] eqn:Hk.
  - by rewrite !union_Some_l.
  - rewrite !(left_id_L None union).
    rewrite !map_lookup_filter, lookup_union, Hk, (left_id_L None union).
    rewrite map_lookup_filter.
    destruct (L !! k) as [x|]; [|done]. simpl.
    by case_guard.
Qed.

(** X14.  Lines 360-367: applying to a synthesized version the delta it was
    synthesized from gives the same version again. *)
Theorem synthesize_previous_version_idempotent w document delta rd
    (L D : Document) ref :
  heap w !! document = Some (merged E rd L D ref) →
  heap w !! delta = Some D →
  document ≠ delta →
  D !! versioned_id_field E = Some ref →
  let run := _synthesize_previous_version E document delta rd w in
  ∃ old_doc,
    run.1 = inr old_doc
    ∧ heap run.2 !! old_doc = Some (merged E rd L D ref).
Proof.
  intros HL HD Hne Href. cbv zeta.
  rewrite (synthesize_run E w document delta rd _ D ref HL HD Hne Href).
  exists (length (heap w)). split; [done|]. cbn [snd].
  rewrite heap_with_heap.
  rewrite <-(length_insert (heap w) delta (rekeyed E D ref)).
  rewrite heap_lookup_fresh. f_equal. apply merged_idempotent.
Qed.

End MoreSynthesis.

Lemma build_response_document_writes_document_only_witness :
  let w := {| heap := [Sample.person; Sample.delta 2 "An"]; log := [] |} in
  let w' := (_build_response_document (Sample.env true true) 0%nat "people"
               ["boss"] (Some 1%nat) w).2 in
  length (heap w') = length (heap w)
  ∧ is_Some (heap w' !! 0%nat)
  ∧ ∀ l, l ≠ 0%nat → heap w' !! l = heap w !! l.
Proof.
  intros w.
  apply (build_response_document_writes_document_only (Sample.env true true)
           w 0%nat "people" ["boss"] (Some 1%nat)
           (Some (Sample.delta 2 "An")) Sample.person);
    [reflexivity|reflexivity|].
  intros l [= <-]. lia.
Defined.

Lemma build_response_document_missing_lookup_field_witness :
  let E := Sample.env false true in
  let d : Document := <["name" := VStr "Ann"]> ∅ in
  let w := {| heap := [d]; log := [] |} in
  _build_response_document E 0%nat "people" [] None w
  = (inl (KeyError "_id"),
     with_heap (<[0%nat := tagged E (stamped E d)]> (heap w)) w).
Proof.
  intros E d w.
  apply (build_response_document_missing_lookup_field E w 0%nat "people"
           (Sample.people_def true) [] None None d);
    [reflexivity|exact I|discriminate|reflexivity|reflexivity|].
  vm_compute. reflexivity.
Defined.

Lemma build_response_document_other_fields_witness :
  let w := {| heap := [Sample.person]; log := [] |} in
  (heap (_build_response_document (Sample.env true true) 0%nat "people"
           ["boss"] None w).2 !! 0%nat) ≫= (.!! "name")
  = Sample.person !! "name".
Proof.
  intros w.
  apply (build_response_document_other_fields (Sample.env true true) w 0%nat
           "people" ["boss"] None None Sample.person "name");
    [reflexivity|exact I|discriminate|discriminate|discriminate
    |intros _; discriminate|intros rd _ _; discriminate
    |intros d' method; by apply lookup_insert_ne
    |intros d'; apply not_elem_of_nil
    |by intros ?%list_elem_of_singleton].
Defined.

Lemma synthesize_previous_version_rekeys_delta_witness :
  let E := Sample.env false false in
  let D := Sample.delta 2 "An" in
  let w := {| heap := [Sample.person; D]; log := [] |} in
  let run :=
    _synthesize_previous_version E 0%nat 1%nat (Sample.people_def false) w in
  run.1 = inr 2%nat
  ∧ length (heap run.2) = 3%nat
  ∧ log run.2 = []
  ∧ heap run.2 !! 1%nat
    = Some (delete "_id_document" (<["_id" := VInt 7]> D))
  ∧ ∀ l, l ≠ 1%nat → (l < 2)%nat → heap run.2 !! l = heap w !! l.
Proof.
  intros E D w.
  apply (synthesize_previous_version_rekeys_delta E w 0%nat 1%nat
           (Sample.people_def false) Sample.person D (VInt 7));
    [reflexivity|reflexivity|lia|reflexivity].
Defined.

Lemma synthesize_previous_version_twice_on_a_delta_witness :
  let E := Sample.env false false in
  let rd := Sample.people_def false in
  let w := {| heap := [Sample.person; Sample.delta 2 "An"]; log := [] |} in
  (_synthesize_previous_version E 0%nat 1%nat rd
     (_synthesize_previous_version E 0%nat 1%nat rd w).2).1
  = inl (KeyError "_id_document").
Proof.
  intros E rd w.
  apply (synthesize_previous_version_twice_on_a_delta E w 0%nat 1%nat rd
           Sample.person (Sample.delta 2 "An") (VInt 7));
    [reflexivity|reflexivity|lia|reflexivity].
Defined.

Lemma synthesize_previous_version_idempotent_witness :
  let E := Sample.env false false in
  let rd := Sample.people_def false in
  let D := Sample.delta 2 "An" in
  let old := merged E rd Sample.person D (VInt 7) in
  let run :=
    _synthesize_previous_version E 0%nat 1%nat rd
      {| heap := [old; D]; log := [] |} in
  ∃ old_doc, run.1 = inr old_doc ∧ heap run.2 !! old_doc = Some old.
Proof.
  intros E rd D old.
  apply (synthesize_previous_version_idempotent E
           {| heap := [old; D]; log := [] |} 0%nat 1%nat rd Sample.person D
           (VInt 7)); [reflexivity|reflexivity|lia|reflexivity].
Defined.

(** ** More on the collection fetch *)

Section MoreCollectionFetch.
Variable E : Env.

(** X15.  Lines 86-148: a normal return of [get] never carries an ETag and
    its status is 200 or 304; a 304 is only given to a request with an
    If-Modified-Since condition, has no last-modified date and its body is
    a new, empty dictionary. *)
Theorem get_response_shape req resource lookup w resp w' :
  get E req resource lookup w = (inr resp, w') →
  resp_etag resp = VNone
  ∧ (resp_status resp = 200
     ∨ resp_status resp = 304
       ∧ is_Some (req_if_modified_since req)
       ∧ resp_last_modified resp = VNone
       ∧ resp_body resp = BodyObj (length (heap w))
       ∧ heap w' = heap w ++ [∅]).
Proof.
  intros Hrun. unfold get in Hrun.
  rewrite (run_bind_inr _ _ _ _ _ (run_alloc _ _)) in Hrun.
  apply bind_inr_inv in Hrun as (fields & w1 & Hfields & Hrun).
  apply resolve_embedded_fields_inv in Hfields as (rd & d & _ & _ & _ & ->).
  apply bind_inr_inv in Hrun as (not_modified & w2 & Hprobe & Hrun).
  destruct not_modified.
  - rewrite run_mret in Hrun. injection Hrun as <- <-. split; [done|].
    right. split; [done|].
    destruct (req_if_modified_since req) as [since|]; [|done].
    split; [eauto|]. split; [done|]. split; [done|].
    rewrite (run_bind_inr _ _ _ _ _ (run_find _ _ _ _ _)) in Hprobe.
    case_bool_decide; [|by injection Hprobe as _ <-].
    unfold is_empty in Hprobe. rewrite !run_bind in Hprobe.
    cbn [emit] in Hprobe. rewrite !run_mret in Hprobe.
    by injection Hprobe as _ <-.
  - apply bind_inr_inv in Hrun as (cursor & w3 & _ & Hrun).
    apply bind_inr_inv in Hrun as ([documents last_update] & w4 & _ & Hrun).
    do 5 (apply bind_inr_inv in Hrun as (? & ? & _ & Hrun)).
    rewrite run_mret in Hrun. injection Hrun as <- _. split; [done|by left].
Qed.

(** X16.  Lines 116-125: when the loop over the cursor succeeds, it has
    created one object per document of the cursor, in the order of the
    cursor and after the objects that existed, which it keeps; the returned
    date is the maximum of the initial one and the last-updated dates of
    the enriched documents. *)
Theorem get_documents_last_update resource fields cursor :
  ∀ documents last_update w out last_update' w',
    get_documents E resource fields cursor documents last_update w
    = (inr (out, last_update'), w') →
    ∃ new dates,
      out = documents ++ new
      ∧ new = seq (length (heap w)) (length cursor)
      ∧ heap w `prefix_of` heap w'
      ∧ length (heap w') = (length (heap w) + length cursor)%nat
      ∧ Forall2 (λ l t, updated_at E w' l = Some t) new dates
      ∧ last_update' = foldl Z.max last_update dates.
Proof.
  induction cursor as [|d cursor IH];
    intros documents last_update w out last_update' w' Hrun.
  - simpl in Hrun. rewrite run_mret in Hrun. injection Hrun as <- <- <-.
    exists [], []. rewrite app_nil_r. simpl. split; [done|]. split; [done|].
    split; [done|]. split; [lia|]. split; [constructor|done].
  - cbn [get_documents] in Hrun.
    rewrite (run_bind_inr _ _ _ _ _ (run_alloc _ _)) in Hrun.
    set (n := length (heap w)) in *.
    rewrite run_bind in Hrun.
    rewrite (run_build E _ n resource fields None None d) in Hrun;
      [|apply heap_lookup_fresh|done|done].
    unfold after in Hrun. cbn [fst snd heap log with_heap] in Hrun.
    set (o := build_view E resource fields None d) in *.
    destruct (o.1.1) as [e|[]]; [discriminate Hrun|].
    assert (Hh : <[n := o.1.2]> (heap w ++ [d]) = heap w ++ [o.1.2]).
    { unfold n. replace (length (heap w)) with (length (heap w) + 0)%nat
        at 1 by lia. by rewrite insert_app_r. }
    rewrite Hh in Hrun.
    set (w1 := {| heap := heap w ++ [o.1.2]; log := _ |}) in *.
    assert (Hdoc : heap w1 !! n = Some o.1.2) by apply heap_lookup_fresh.
    rewrite run_bind in Hrun.
    destruct (o.1.2 !! LAST_UPDATED E) as [updated|] eqn:Hupdated.
    2:{ by rewrite (run_obj_get_missing _ _ _ Hdoc _ Hupdated) in Hrun. }
    rewrite (run_obj_get _ _ _ Hdoc _ _ Hupdated) in Hrun.
    rewrite run_bind in Hrun.
    destruct updated as [| | | |t| |]; try discriminate Hrun.
    cbn [as_date] in Hrun. rewrite run_mret in Hrun.
    apply IH in Hrun
      as (new & dates & -> & -> & Hpre & Hlen & Hdates & ->).
    assert (Hlen1 : length (heap w1) = S n).
    { unfold w1, n. simpl. rewrite length_app. simpl. lia. }
    exists (n :: seq (length (heap w1)) (length cursor)), (t :: dates).
    split; [by rewrite <-app_assoc|].
    split; [by rewrite Hlen1|].
    split; [trans (heap w1); [by eexists|done]|].
    split; [simpl; lia|]. split.
    + constructor; [|done]. unfold updated_at.
      rewrite (prefix_lookup_Some _ _ _ _ Hdoc Hpre). simpl.
      by rewrite Hupdated.
    + simpl. f_equal. case_bool_decide; lia.
Qed.

Lemma writes_run {A} (P : Event → Prop) (m : M A) w r w' :
  writes P m → m w = (r, w') →
  ∃ evs, Forall P evs ∧ log w' = log w ++ evs.
Proof.
  intros Hm Hrun. destruct w as [h lg].
  destruct (Hm h) as (r' & h' & evs & HP & Hrun').
  rewrite Hrun' in Hrun. injection Hrun as _ <-. by exists evs.
Qed.

Lemma run_call_log name args w r w' :
  call E name args w = (r, w') → log w' = log w ++ [EvCallback name].
Proof.
  unfold call. rewrite run_bind. cbn [emit]. by intros [= _ <-].
Qed.

(** X17.  Lines 106-148: in a run of [get] that answers 200 the last two
    events are the calls of the callbacks [on_fetch_resource] and
    [on_fetch_resource_<resource>], in this order: each is called once,
    after every query of the data layer and every version resolution of the
    run. *)
Theorem get_calls_back_last req resource lookup w resp w' :
  get E req resource lookup w = (inr resp, w') →
  resp_status resp = 200 →
  ∃ evs,
    log w' = log w ++ evs ++ [EvCallback "on_fetch_resource";
                              EvCallback ("on_fetch_resource_" +:+ resource)]
    ∧ Forall not_callback evs.
Proof.
  intros Hrun Hstatus.
  assert (Hfind : ∀ r q l, not_callback (EvFind r q l)) by by intros.
  assert (Hone : ∀ r l, not_callback (EvFindOne r l)) by by intros.
  assert (Hempty : ∀ r, not_callback (EvIsEmpty r)) by by intros.
  assert (Hres : ∀ r m b, not_callback (EvResolveVersion r m b))
    by by intros.
  unfold get in Hrun.
  rewrite (run_bind_inr _ _ _ _ _ (run_alloc _ _)) in Hrun.
  apply bind_inr_inv in Hrun as (fields & w1 & Hfields & Hrun).
  apply resolve_embedded_fields_inv in Hfields as (rd & d & _ & _ & _ & ->).
  apply bind_inr_inv in Hrun as (not_modified & w2 & Hprobe & Hrun).
  destruct not_modified.
  { rewrite run_mret in Hrun. injection Hrun as <- _. discriminate Hstatus. }
  apply (writes_run not_callback) in Hprobe as (evs1 & HP1 & Hlog1).
  2:{ pose proof (writes_find E not_callback Hfind).
      pose proof (writes_is_empty E not_callback Hempty).
      destruct (req_if_modified_since req); writes_auto;
        first [done|case_bool_decide; writes_auto; done]. }
  apply bind_inr_inv in Hrun as (cursor & w3 & Hcursor & Hrun).
  apply (writes_run not_callback) in Hcursor as (evs2 & HP2 & Hlog2);
    [|by apply writes_find].
  apply bind_inr_inv in Hrun as ([documents last_update] & w4 & Hdocs & Hrun).
  apply (writes_run not_callback) in Hdocs as (evs3 & HP3 & Hlog3);
    [|by apply writes_get_documents].
  apply bind_inr_inv in Hrun as ([] & w5 & Hcall1 & Hrun).
  apply run_call_log in Hcall1.
  apply bind_inr_inv in Hrun as ([] & w6 & Hcall2 & Hrun).
  apply run_call_log in Hcall2.
  apply (writes_run (λ _, False)) in Hrun as (evs4 & HP4 & Hlog4).
  2:{ pose proof (writes_domain E (λ _, False)).
      pose proof (writes_pagination_links E (λ _, False)).
      writes_auto; done. }
  destruct evs4 as [|? ?]; [|by inversion HP4].
  exists (evs1 ++ evs2 ++ evs3). split; [|by rewrite !Forall_app].
  rewrite Hlog4, Hcall2, Hcall1, Hlog3, Hlog2, Hlog1. cbn [log].
  rewrite app_nil_r. by rewrite <-!app_assoc.
Qed.

End MoreCollectionFetch.

Lemma get_response_shape_witness :
  let E := Sample.env true false in
  let req := set_if_modified_since (Some 300) Sample.request in
  let run := get E req "people" ∅ Sample.empty_world in
  let resp := {| resp_body := BodyObj 0%nat; resp_last_modified := VNone;
                 resp_etag := VNone; resp_status := 304 |} in
  resp_etag resp = VNone
  ∧ (resp_status resp = 200
     ∨ resp_status resp = 304
       ∧ is_Some (req_if_modified_since req)
       ∧ resp_last_modified resp = VNone
       ∧ resp_body resp = BodyObj (length (heap Sample.empty_world))
       ∧ heap run.2 = heap Sample.empty_world ++ [∅]).
Proof.
  intros E req run resp.
  apply (get_response_shape E req "people" ∅ Sample.empty_world resp run.2).
  vm_compute. reflexivity.
Defined.

Lemma get_documents_last_update_witness :
  let E := Sample.env false false in
  let w := {| heap := [∅]; log := [] |} in
  let w' := (get_documents E "people" [] Sample.deltas [] 0 w).2 in
  ∃ new dates,
    [1; 2; 3]%nat = [] ++ new
    ∧ new = seq (length (heap w)) (length Sample.deltas)
    ∧ heap w `prefix_of` heap w'
    ∧ length (heap w') = (length (heap w) + length Sample.deltas)%nat
    ∧ Forall2 (λ l t, updated_at E w' l = Some t) new dates
    ∧ 300 = foldl Z.max 0 dates.
Proof.
  intros E w w'.
  apply (get_documents_last_update E "people" [] Sample.deltas [] 0 w
           [1; 2; 3]%nat 300 w').
  vm_compute. reflexivity.
Defined.

Lemma get_calls_back_last_witness :
  let E := Sample.env true false in
  let w' := (get E Sample.request "people" ∅ Sample.empty_world).2 in
  ∃ evs,
    log w' = log Sample.empty_world ++ evs
             ++ [EvCallback "on_fetch_resource";
                 EvCallback ("on_fetch_resource_" +:+ "people")]
    ∧ Forall not_callback evs.
Proof.
  intros E w'.
  apply (get_calls_back_last E Sample.request "people" ∅ Sample.empty_world
           {| resp_body := BodyList [1%nat];
              resp_last_modified := VDate 300;
              resp_etag := VNone;
              resp_status := 200 |} w'); [|reflexivity].
  vm_compute. reflexivity.
Defined.

(** ** More on the item fetch *)

Section MoreItemFetch.
Variable E : Env.

(** X18.  Lines 196-199 and 308: when the data layer finds no document, or
    an empty one, [getitem] aborts with status 404; the only access to the
    database is that query. *)
Theorem getitem_not_found ctx resource lookup rd (d : Document) w :
  DOMAIN E !! resource = Some rd →
  client_embedding E (parsed ctx) = Some d →
  default ∅ (data_find_one E resource (Some (parsed ctx)) lookup) = ∅ →
  getitem E ctx resource lookup w
  = (inl (HTTPException 404),
     with_log (log w ++ [EvFindOne resource lookup]) w).
Proof.
  intros Hrd Hd Hfound. unfold getitem.
  rewrite run_bind, run_domain, Hrd.
  rewrite (run_bind_inr _ _ _ _ _
             (run_resolve_embedded_fields E resource rd (parsed ctx) d _
                Hrd Hd)).
  destruct w as [h lg]. rewrite run_bind, run_find_one.
  by rewrite bool_decide_eq_false_2 by (by intros []).
Qed.


(** X20.  Lines 219-230: for a positive version number the stored delta is
    looked up, without the request, by the identity of the document under
    the versioned identity field and by the version.  No delta or an empty
    one aborts with 404; a delta without the versioned identity field
    raises [KeyError]; otherwise the document to respond with is the
    version synthesized from the latest document and the delta, and the
    response is not the list of all versions. *)
Theorem select_version_specific ctx resource rd document lookup s n ref
    (L : Document) w :
  versioning rd = true →
  version_arg ctx = Some s →
  s ≠ "all" → s ≠ "diffs" →
  int_of_str E s = Some n → 0 < n →
  lookup !! ID_FIELD E = Some ref →
  heap w !! document = Some L →
  let lookup' :=
    <[VERSION E := VInt n]>
      (delete (ID_FIELD E) (<[versioned_id_field E := ref]> lookup)) in
  let w1 :=
    with_log (log w ++ [EvFindOne (resource +:+ VERSIONS E) lookup']) w in
  select_version E ctx resource rd document lookup w
  = match data_find_one E (resource +:+ VERSIONS E) None lookup' with
    | None => (inl (HTTPException 404), w1)
    | Some D =>
        if bool_decide (D = ∅) then (inl (HTTPException 404), w1)
        else
          match D !! versioned_id_field E with
          | Some dref =>
              (inr (S (length (heap w)), lookup', false),
               with_heap
                 (heap w ++ [rekeyed E D dref; merged E rd L D dref]) w1)
          | None =>
              (inl (KeyError (versioned_id_field E)),
               with_heap (heap w ++ [D; L]) w1)
          end
    end.
Proof.
  intros Hver Hs Hall Hdiffs Hint Hpos Hid HL lookup' w1.
  unfold select_version. rewrite Hver, Hs.
  rewrite !bool_decide_eq_false_2 by congruence. cbn [orb].
  rewrite run_bind, Hint, bool_decide_eq_true_2 by done.
  rewrite run_mret, run_bind, run_rekey_lookup, Hid.
  fold lookup'. destruct w as [h lg].
  rewrite run_bind, run_find_one. fold w1.
  destruct (data_find_one E _ None lookup') as [D|]; cbn [default].
  2:{ by rewrite bool_decide_eq_false_2 by (by intros []). }
  destruct (decide (D = ∅)) as [->|HD].
  { rewrite (bool_decide_eq_true_2 ((∅ : Document) = ∅)) by done.
    by rewrite (bool_decide_eq_false_2 ((∅ : Document) ≠ ∅))
      by (by intros []). }
  rewrite (bool_decide_eq_false_2 (D = ∅)) by done.
  rewrite (bool_decide_eq_true_2 (D ≠ ∅)) by done.
  rewrite (run_bind_inr _ _ _ _ _ (run_alloc _ _)).
  assert (HL1 : heap (with_heap (heap w1 ++ [D]) w1) !! document = Some L)
    by by apply lookup_app_l_Some.
  assert (HD1 : heap (with_heap (heap w1 ++ [D]) w1) !! length (heap w1)
                = Some D) by apply heap_lookup_fresh.
  assert (Hne : document ≠ length (heap w1)).
  { apply lookup_lt_Some in HL. simpl in *. lia. }
  destruct (D !! versioned_id_field E) as [dref|] eqn:Hdref.
  - rewrite (run_bind_inr _ _ _ _ _
               (synthesize_run E _ document (length (heap w1)) rd L D dref
                  HL1 HD1 Hne Hdref)).
    rewrite run_mret. unfold with_heap, w1, with_log. cbn [heap log].
    fold (merged E rd L D dref).
    replace (length (h ++ [D])) with (S (length h))
      by (rewrite length_app; simpl; lia).
    replace (length h) with (length h + 0)%nat at 2 by lia.
    rewrite insert_app_r. simpl. by rewrite <-app_assoc.
  - rewrite (run_bind_inl _ _ _ _ _
               (synthesize_run_missing E rd _ document (length (heap w1))
                  L D HL1 HD1 Hdref)).
    unfold with_heap, w1, with_log. cbn [heap log].
    by rewrite <-app_assoc.
Qed.


Lemma obj_get_inv l k w v w' :
  obj_get l k w = (inr v, w') →
  w' = w ∧ heap w !! l ≫= (.!! k) = Some v.
Proof.
  unfold obj_get, load, subscript. rewrite run_bind.
  destruct (heap w !! l) as [d|]; [|done]. simpl.
  destruct (d !! k); [|done]. by intros [= <- <-].
Qed.

Lemma not_modified_inv document last_modified w resp w' :
  not_modified E document last_modified w = (inr resp, w') →
  resp_status resp = 304
  ∧ resp_body resp = BodyObj (length (heap w))
  ∧ resp_last_modified resp = last_modified
  ∧ heap w' = heap w ++ [∅]
  ∧ heap w' !! document ≫= (.!! ETAG E) = Some (resp_etag resp).
Proof.
  unfold not_modified. intros Hrun.
  rewrite (run_bind_inr _ _ _ _ _ (run_alloc _ _)) in Hrun.
  apply bind_inr_inv in Hrun as (tag & w1 & [-> Htag]%obj_get_inv & Hrun).
  rewrite run_mret in Hrun. by injection Hrun as <- <-.
Qed.

Lemma respond_inv ctx resource rd fields latest_doc response document lookup
    all last_modified etag w resp w' :
  respond E ctx resource rd fields latest_doc response document lookup all
    last_modified etag w = (inr resp, w') →
  resp_status resp = 200
  ∧ resp_last_modified resp = last_modified
  ∧ resp_etag resp = etag.
Proof.
  unfold respond. intros Hrun.
  do 2 (apply bind_inr_inv in Hrun as (? & ? & _ & Hrun)).
  rewrite run_mret in Hrun. by injection Hrun as <- _.
Qed.

(** X21.  Lines 234-250 and 306: a normal return of [getitem] has status 200
    or 304.  With status 200 the ETag is [None] when IF_MATCH is off and
    differs from a non-empty If-None-Match when it is on, and the document
    was modified after the If-Modified-Since date, if any.  With status 304
    the body is a new, empty dictionary, and either the If-None-Match of
    the request is the ETag or the document was not modified after the
    If-Modified-Since date. *)
Theorem getitem_conditional_response ctx resource lookup w resp w' :
  getitem E ctx resource lookup w = (inr resp, w') →
  (resp_status resp = 200
   ∧ (IF_MATCH E = false → resp_etag resp = VNone)
   ∧ (IF_MATCH E = true →
      ∀ tag, req_if_none_match (parsed ctx) = Some tag → tag ≠ "" →
             resp_etag resp ≠ VStr tag)
   ∧ (∀ since, req_if_modified_since (parsed ctx) = Some since →
               ∃ t, resp_last_modified resp = VDate t ∧ since < t))
  ∨ (resp_status resp = 304
     ∧ (∃ empty, resp_body resp = BodyObj empty
                 ∧ heap w' !! empty = Some ∅)
     ∧ ((IF_MATCH E = true
         ∧ ∃ tag, req_if_none_match (parsed ctx) = Some tag
                  ∧ resp_etag resp = VStr tag)
        ∨ ∃ since t, req_if_modified_since (parsed ctx) = Some since
                     ∧ resp_last_modified resp = VDate t ∧ t ≤ since)).
Proof.
  intros Hrun. unfold getitem in Hrun.
  apply bind_inr_inv in Hrun as (rd & w1 & _ & Hrun).
  apply bind_inr_inv in Hrun as (fields & w2 & _ & Hrun).
  apply bind_inr_inv in Hrun as (found & w3 & _ & Hrun).
  case_bool_decide; [|discriminate Hrun].
  apply bind_inr_inv in Hrun as (document0 & w4 & _ & Hrun).
  apply bind_inr_inv in Hrun as (response & w5 & _ & Hrun).
  apply bind_inr_inv in Hrun as (latest_doc & w6 & _ & Hrun).
  apply bind_inr_inv in Hrun as ([[document lookup'] all] & w7 & _ & Hrun).
  apply bind_inr_inv in Hrun as ([] & w8 & _ & Hrun).
  apply bind_inr_inv
    in Hrun as (last_modified & w9 & [-> _]%obj_get_inv & Hrun).
  cbv zeta in Hrun.
  assert (H304 : ∀ w r w'',
    not_modified E document last_modified w = (inr r, w'') →
    resp_status r = 304
    ∧ (∃ empty, resp_body r = BodyObj empty
                ∧ heap w'' !! empty = Some ∅)
    ∧ resp_last_modified r = last_modified).
  { intros w0 r w'' (Hst & Hbody & Hlm & Hheap & _)%not_modified_inv.
    split; [done|]. split; [|done]. exists (length (heap w0)).
    split; [done|]. rewrite Hheap. apply heap_lookup_fresh. }
  assert (Hims : ∀ etag,
    match req_if_modified_since (parsed ctx) with
    | Some since =>
        as_date last_modified
        ≫= λ t, if bool_decide (t ≤ since)
                then not_modified E document last_modified
                else respond E ctx resource rd fields latest_doc response
                       document lookup' all last_modified etag
    | None => respond E ctx resource rd fields latest_doc response document
                lookup' all last_modified etag
    end w8 = (inr resp, w') →
    (resp_status resp = 200 ∧ resp_etag resp = etag
     ∧ ∀ since, req_if_modified_since (parsed ctx) = Some since →
                ∃ t, resp_last_modified resp = VDate t ∧ since < t)
    ∨ (resp_status resp = 304
       ∧ (∃ empty, resp_body resp = BodyObj empty
                   ∧ heap w' !! empty = Some ∅)
       ∧ ∃ since t, req_if_modified_since (parsed ctx) = Some since
                    ∧ resp_last_modified resp = VDate t ∧ t ≤ since)).
  { intros etag Hcont.
    destruct (req_if_modified_since (parsed ctx)) as [since|].
    - apply bind_inr_inv in Hcont as (t & w10 & Hdate & Hcont).
      destruct last_modified as [| | | |t'| |]; try discriminate Hdate.
      cbn [as_date] in Hdate. rewrite run_mret in Hdate.
      injection Hdate as <- <-.
      case_bool_decide.
      + apply H304 in Hcont as (Hst & Hbody & Hlm).
        right. split; [done|]. split; [done|]. by exists since, t'.
      + apply respond_inv in Hcont as (Hst & Hlm & Hetag).
        left. split; [done|]. split; [done|].
        intros ? [= <-]. exists t'. split; [done|lia].
    - apply respond_inv in Hcont as (Hst & Hlm & Hetag).
      left. split; [done|]. split; [done|]. by intros since. }
  destruct (IF_MATCH E) eqn:Hif.
  - apply bind_inr_inv in Hrun as (etag & w10 & [-> Hetag]%obj_get_inv & Hrun).
    destruct (req_if_none_match (parsed ctx)) as [inm|] eqn:Hinm;
      cbn [truthy_str] in Hrun.
    + case_bool_decide as Hempty; cbn [negb] in Hrun.
      * destruct (Hims etag Hrun) as [(Hst & Het & Hsince)|(Hst & Hb & Hs)].
        -- left. split; [done|]. split; [done|]. split; [|done].
           intros _ tag [= <-] Hne. done.
        -- right. split; [done|]. split; [done|]. by right.
      * apply bind_inr_inv
          in Hrun as (tag & w10 & [-> Htag]%obj_get_inv & Hrun).
        assert (tag = etag) as -> by congruence.
        change (default "" (Some inm)) with inm in Hrun.
        destruct (eq_str etag inm) eqn:Heq.
        -- apply not_modified_inv in Hrun as (Hst & Hbody & Hlm & Hheap & Hdoc).
           right. split; [done|]. split.
           { exists (length (heap w8)). split; [done|].
             rewrite Hheap. apply heap_lookup_fresh. }
           left. split; [done|]. exists inm. split; [done|].
           assert (Hlt : is_Some (heap w8 !! document)).
           { destruct (heap w8 !! document); [eauto|done]. }
           destruct Hlt as [c Hc].
           rewrite Hheap, (lookup_app_l_Some _ _ _ _ Hc) in Hdoc.
           rewrite Hc in Hetag. simpl in *.
           assert (resp_etag resp = etag) as -> by congruence.
           destruct etag; try discriminate Heq.
           unfold eq_str in Heq. by apply bool_decide_eq_true_1 in Heq as ->.
        -- destruct (Hims etag Hrun) as [(Hst & Het & Hsince)|(Hst & Hb & Hs)].
           ++ left. split; [done|]. split; [done|]. split; [|done].
              intros _ tag [= <-] Hne Hsame. rewrite Het in Hsame.
              rewrite Hsame in Heq. unfold eq_str in Heq.
              by rewrite bool_decide_eq_true_2 in Heq.
           ++ right. split; [done|]. split; [done|]. by right.
    + destruct (Hims etag Hrun) as [(Hst & Het & Hsince)|(Hst & Hb & Hs)].
      * left. split; [done|]. split; [done|]. split; [|done].
        intros _ tag [=].
      * right. split; [done|]. split; [done|]. by right.
  - destruct (Hims VNone Hrun) as [(Hst & Het & Hsince)|(Hst & Hb & Hs)].
    + left. split; [done|]. split; [done|]. split; [done|done].
    + right. split; [done|]. split; [done|]. by right.
Qed.


End MoreItemFetch.

Section AllVersions.
Variable E : Env.
Context (resource : string) (rd : ResourceDef) (fields : list string).

Lemma versions_all_run latest (L : Document) cursor :
  ∀ i last documents w out w',
    heap w !! latest = Some L →
    versions E false latest resource rd fields cursor i last documents w
    = (inr out, w') →
    ∃ items,
      out = documents ++ items
      ∧ length items = length cursor
      ∧ heap w `prefix_of` heap w'
      ∧ (∀ item, item ∈ items → (length (heap w) ≤ item)%nat)
      ∧ ∀ k item, items !! k = Some item →
          ∃ cur,
            cursor !! k ≫= synthesized E resource rd fields L = Some cur
            ∧ heap w' !! item = Some cur.
Proof.
  induction cursor as [|D cursor IH];
    intros i last documents w out w' HL Hrun.
  - simpl in Hrun. rewrite run_mret in Hrun. injection Hrun as <- <-.
    exists []. rewrite app_nil_r. split; [done|]. split; [done|].
    split; [done|]. split; [by intros item Hin%elem_of_nil|].
    intros k item Hk. by rewrite lookup_nil in Hk.
  - cbn [versions] in Hrun.
    destruct (D !! versioned_id_field E) as [ref|] eqn:Href; cycle 1.
    { rewrite (run_bind_inr _ _ _ _ _ (run_alloc _ _)) in Hrun.
      rewrite (run_bind_inl _ _ _ _ _
                 (synthesize_run_missing E rd
                    (with_heap (heap w ++ [D]) w) latest (length (heap w))
                    L D (lookup_app_l_Some _ _ _ _ HL)
                    (heap_lookup_fresh _ _) Href)) in Hrun.
      discriminate Hrun. }
    rewrite (run_synthesize_and_build E resource rd fields _ w latest L D ref
               HL Href) in Hrun.
    pose proof (synthesized_eq E resource rd fields L D) as Hsyn.
    rewrite Href in Hsyn. cbv zeta in Hrun, Hsyn.
    set (o := build_view E resource fields (Some L) (merged E rd L D ref))
      in *.
    destruct (o.1.1) as [e|[]]; [discriminate Hrun|].
    set (w1 := {| heap := heap w ++ [rekeyed E D ref; o.1.2];
                  log := log w ++ o.2 |}) in *.
    set (n := length (heap w)) in *.
    assert (Hdoc : heap w1 !! S n = Some o.1.2).
    { unfold w1, n. simpl. rewrite lookup_app_r by lia.
      by replace (S (length (heap w)) - length (heap w))%nat
        with 1%nat by lia. }
    assert (Hpre1 : heap w `prefix_of` heap w1) by by eexists.
    assert (HL1 : heap w1 !! latest = Some L)
      by by eapply prefix_lookup_Some.
    destruct (IH _ _ _ _ _ _ HL1 Hrun)
      as (items & -> & Hlen & Hpre & Hfresh & Hitems).
    exists (S n :: items). rewrite <-app_assoc. split; [done|].
    split; [simpl; by rewrite Hlen|].
    split; [by etrans|].
    split.
    { intros item [->|Hin]%elem_of_cons; [unfold n; lia|].
      apply Hfresh in Hin. apply prefix_length in Hpre1. lia. }
    intros [|k] item Hk; simpl in Hk.
    + injection Hk as <-. exists o.1.2. split; [done|].
      by eapply prefix_lookup_Some.
    + by apply Hitems.
Qed.

(** X23.  Lines 252-283: with [?version=all] every item of the response is
    the version synthesized from the latest document and the stored delta
    of the same rank, enriched; the deltas are queried with the request of
    the client and with the lookup keyed by the versioned identity field;
    the objects that existed, the response apart, are unchanged. *)
Theorem versions_response_all ctx latest_doc response lookup
    (L : Document) w body w' :
  version_arg ctx ≠ Some "diffs" →
  heap w !! latest_doc = Some L →
  is_Some (heap w !! response) →
  versions_response E ctx resource rd fields latest_doc response lookup w
  = (inr body, w') →
  ∃ ref items,
    lookup !! ID_FIELD E = Some ref
    ∧ emitted E w' body = Some items
    ∧ (∀ l, (l < length (heap w))%nat → l ≠ response →
            heap w' !! l = heap w !! l)
    ∧ let cursor :=
        cur_documents
          (data_find E (resource +:+ VERSIONS E) (parsed ctx)
             (delete (ID_FIELD E) (<[versioned_id_field E := ref]> lookup)))
      in
      length items = length cursor
      ∧ ∀ k item, items !! k = Some item →
          ∃ cur,
            cursor !! k ≫= synthesized E resource rd fields L = Some cur
            ∧ heap w' !! item = Some cur.
Proof.
  intros Hmode HL [r0 Hresponse] Hrun. unfold versions_response in Hrun.
  rewrite run_bind, run_rekey_lookup in Hrun.
  destruct (lookup !! ID_FIELD E) as [ref|] eqn:Hid; [|discriminate Hrun].
  rewrite bool_decide_eq_false_2 in Hrun by done.
  cbv zeta in Hrun.
  set (lookup' := delete _ _) in *.
  rewrite (run_bind_inr _ _ _ _ _ (run_find _ _ _ _ _)) in Hrun.
  rewrite (run_bind_inr _ _ _ _ _ (run_alloc _ _)) in Hrun.
  set (w1 := with_heap _ _) in Hrun.
  set (cursor := cur_documents _) in *.
  assert (Hpre1 : heap w `prefix_of` heap w1) by by eexists.
  rewrite run_bind in Hrun.
  destruct (versions E false latest_doc resource rd fields cursor 0 _ [] w1)
    as [[e|documents] w2] eqn:Hloop; [discriminate Hrun|].
  destruct (versions_all_run latest_doc L cursor 0%nat _ [] w1 documents w2
              (prefix_lookup_Some _ _ _ _ HL Hpre1) Hloop)
    as (items & -> & Hlen & Hpre2 & Hfresh & Hitems).
  assert (Hnotin : response ∉ items).
  { intros Hin%Hfresh. apply prefix_length in Hpre1.
    apply lookup_lt_Some in Hresponse. lia. }
  assert (Hold : ∀ l, (l < length (heap w))%nat →
                      heap w2 !! l = heap w !! l).
  { intros l Hl. destruct (lookup_lt_is_Some_2 _ _ Hl) as [x Hx].
    rewrite Hx. eapply prefix_lookup_Some; [|done].
    by eapply prefix_lookup_Some. }
  exists ref, items. split; [done|]. cbn [app] in Hrun.
  destruct (hateoas rd).
  - assert (Hr2 : heap w2 !! response = Some r0).
    { rewrite Hold; [done|]. by eapply lookup_lt_Some. }
    rewrite (run_bind_inr _ _ _ _ _ (run_obj_set _ _ _ Hr2 _ _)) in Hrun.
    rewrite run_mret in Hrun. injection Hrun as <- <-.
    pose proof (lookup_lt_Some _ _ _ Hr2) as Hlt2.
    split.
    { simpl. rewrite list_lookup_insert_eq by done. simpl.
      by rewrite lookup_insert_eq. }
    split.
    { intros l Hl Hne. simpl. rewrite list_lookup_insert_ne by done.
      by apply Hold. }
    split; [done|]. intros k item Hk.
    assert (Hne : response ≠ item).
    { intros <-. apply Hnotin. by eapply list_elem_of_lookup_2. }
    simpl. rewrite list_lookup_insert_ne by done. by apply Hitems.
  - rewrite run_mret in Hrun. injection Hrun as <- <-.
    split; [done|]. split; [by intros l Hl _; apply Hold|]. done.
Qed.

End AllVersions.

Section Links.
Variable E : Env.

Lemma run_set_link r rel target w (d ls : Document) :
  heap w !! r = Some d →
  d !! LINKS E = Some (VDict ls) →
  set_link E r rel target w
  = (inr tt,
     with_heap (<[r := <[LINKS E := VDict (<[rel := target]> ls)]> d]>
                  (heap w)) w).
Proof.
  intros Hr Hlinks. unfold set_link.
  rewrite (run_bind_inr _ _ _ _ _ (run_obj_get _ _ _ Hr _ _ Hlinks)).
  cbn [as_dict]. rewrite run_bind, run_mret.
  apply (run_obj_set _ _ _ Hr).
Qed.

(** X24.  Lines 297-304: with HATEOAS on, the links of the response, created
    when absent, gain the [collection] and the [parent] link and keep the
    links they had; nothing else changes. *)
Theorem extra_links_adds_collection_and_parent resource rd r w
    (d : Document) :
  heap w !! r = Some d →
  hateoas rd = true →
  (∀ v, d !! LINKS E = Some v → ∃ ls, v = VDict ls) →
  let links :=
    match d !! LINKS E with
    | Some (VDict ls) => ls
    | _ => ∅
    end in
  extra_links E resource rd (BodyObj r) w
  = (inr tt,
     with_heap
       (<[r := <[LINKS E :=
                   VDict (<["parent" := home_link E]>
                            (<["collection" :=
                                 link (resource_title rd)
                                   (resource_uri E resource)]> links))]> d]>
          (heap w)) w).
Proof.
  intros Hr Hhateoas Hdict links. unfold extra_links.
  rewrite Hhateoas. cbn [when].
  pose proof (lookup_lt_Some _ _ _ Hr) as Hlt.
  rewrite (run_bind_inr _ _ _ _ _ (run_load _ _ _ Hr)).
  assert (Hinit : ∃ d1 : Document,
    when (bool_decide (d !! LINKS E = None))
      (obj_set r (LINKS E) (VDict ∅)) w
    = (inr tt, with_heap (<[r := d1]> (heap w)) w)
    ∧ d1 !! LINKS E = Some (VDict links)
    ∧ <[LINKS E := VDict links]> d = d1).
  { unfold links. destruct (d !! LINKS E) as [v|] eqn:Hv.
    - destruct (Hdict v eq_refl) as [ls ->].
      rewrite bool_decide_eq_false_2 by done. cbn [when]. exists d.
      rewrite run_mret, list_insert_id, with_heap_heap by done.
      split; [done|]. split; [done|]. by apply insert_id.
    - rewrite bool_decide_eq_true_2 by done. cbn [when].
      exists (<[LINKS E := VDict ∅]> d).
      rewrite (run_obj_set _ _ _ Hr). split; [done|].
      split; [apply lookup_insert_eq|done]. }
  destruct Hinit as (d1 & Hrun1 & Hlinks1 & Hd1).
  rewrite (run_bind_inr _ _ _ _ _ Hrun1).
  assert (Hr1 : heap (with_heap (<[r := d1]> (heap w)) w) !! r = Some d1).
  { rewrite heap_with_heap. by apply list_lookup_insert_eq. }
  rewrite (run_bind_inr _ _ _ _ _
             (run_set_link r _ _ _ d1 links Hr1 Hlinks1)).
  rewrite with_heap_twice, heap_with_heap, list_insert_insert_eq.
  set (d2 := <[LINKS E := _]> d1).
  assert (Hr2 : heap (with_heap (<[r := d2]> (heap w)) w) !! r = Some d2).
  { rewrite heap_with_heap. by apply list_lookup_insert_eq. }
  rewrite (run_set_link r _ _ _ d2 _ Hr2 (lookup_insert_eq _ _ _)).
  rewrite with_heap_twice, heap_with_heap, list_insert_insert_eq.
  do 3 f_equal. unfold d2. rewrite <-Hd1.
  by rewrite !insert_insert_eq.
Qed.

End Links.

Section Callbacks.
Variable E : Env.

Lemma writes_bind_returning {A B} (P : Event → Prop) (Q : A → Prop)
    (m : M A) (k : A → M B) :
  writes P m →
  (∀ w a w', m w = (inr a, w') → Q a) →
  (∀ a, Q a → writes P (k a)) →
  writes P (m ≫= k).
Proof.
  intros Hm HQ Hk h. destruct (Hm h) as (r & h1 & evs1 & HP1 & Hrun1).
  destruct r as [e|a].
  - exists (inl e), h1, evs1. split; [done|]. intros lg.
    by rewrite run_bind, Hrun1.
  - destruct (Hk a (HQ _ _ _ (Hrun1 [])) h1)
      as (r2 & h2 & evs2 & HP2 & Hrun2).
    exists r2, h2, (evs1 ++ evs2). split; [by apply Forall_app|].
    intros lg. by rewrite run_bind, Hrun1, Hrun2, app_assoc.
Qed.

Lemma select_version_all ctx resource rd document lookup w r w' :
  versioning rd = true →
  version_arg ctx = Some "all" ∨ version_arg ctx = Some "diffs" →
  select_version E ctx resource rd document lookup w = (inr r, w') →
  r.2 = true.
Proof.
  intros Hver Hmode. unfold select_version. rewrite Hver.
  assert (bool_decide (version_arg ctx = Some "all")
          || bool_decide (version_arg ctx = Some "diffs") = true) as ->.
  { destruct Hmode as [->| ->]; [done|].
    by rewrite (bool_decide_eq_true_2 (Some "diffs" = Some "diffs")),
      orb_true_r. }
  by intros [= <- _].
Qed.

(** X25.  Lines 252-283: for a versioned resource, a request for all the
    versions or for the diffs calls no callback, whatever its outcome. *)
Theorem getitem_all_versions_skips_callbacks ctx resource lookup rd w :
  DOMAIN E !! resource = Some rd →
  versioning rd = true →
  version_arg ctx = Some "all" ∨ version_arg ctx = Some "diffs" →
  ∃ evs,
    log (getitem E ctx resource lookup w).2 = log w ++ evs
    ∧ Forall not_callback evs.
Proof.
  intros Hrd Hver Hmode.
  assert (Hwrites : writes not_callback (getitem E ctx resource lookup)).
  { assert (Hfind : ∀ r q l, not_callback (EvFind r q l)) by by intros.
    assert (Hone : ∀ r l, not_callback (EvFindOne r l)) by by intros.
    assert (Hres : ∀ r m b, not_callback (EvResolveVersion r m b))
      by by intros.
    pose proof (writes_domain E not_callback) as Hdomain.
    pose proof (writes_resolve_embedded_fields E not_callback) as Hfields.
    pose proof (writes_find_one E not_callback Hone) as Hfind_one.
    pose proof (writes_select_version E not_callback Hone) as Hselect.
    pose proof (writes_not_modified E not_callback) as H304.
    pose proof (writes_extra_links E not_callback) as Hlinks.
    pose proof (λ document fields l,
      writes_build_response_document E not_callback Hone document resource
        fields (Some l) (Hres _ _ _)) as Hbuild.
    pose proof (λ ctx rd fields latest_doc response lookup,
      writes_versions_response E not_callback Hfind Hone ctx resource rd
        fields latest_doc response lookup (Hres _ _ _)) as Hversions.
    assert (Hrespond : ∀ rd fields latest_doc response document lookup
                         last_modified etag,
      writes not_callback
        (respond E ctx resource rd fields latest_doc response document
           lookup true last_modified etag)).
    { intros. unfold respond.
      writes_auto; first [apply Hversions|apply Hlinks]. }
    unfold getitem.
    apply (writes_bind_returning _ (λ rd', rd' = rd)); [apply Hdomain| |].
    { intros w0 a w0'. rewrite run_domain, Hrd. by intros [= <- _]. }
    intros ? ->.
    apply writes_bind; [apply Hfields|]. intros fields.
    apply writes_bind; [apply Hfind_one|]. intros found.
    case_bool_decide; [|apply writes_abort].
    do 3 (apply writes_bind; [writes_auto|]; intros ?).
    apply (writes_bind_returning _ (λ r, r.2 = true)); [apply Hselect| |].
    { intros w0 r w0'. by apply select_version_all. }
    intros [[document lookup'] all] Hall. simpl in Hall. subst all.
    apply writes_bind; [apply Hbuild|]. intros _.
    apply writes_bind; [writes_auto|]. intros last_modified.
    cbv zeta. writes_auto; first [apply Hrespond|apply H304]. }
  destruct w as [h lg].
  destruct (Hwrites h) as (r & h' & evs & HP & Hrun).
  exists evs. by rewrite Hrun.
Qed.

End Callbacks.

Lemma getitem_not_found_witness :
  let ctx := Cases.context None None None in
  getitem (Sample.env false false) ctx "people" (Cases.by_id 8)
    Sample.empty_world
  = (inl (HTTPException 404),
     with_log (log Sample.empty_world
               ++ [EvFindOne "people" (Cases.by_id 8)]) Sample.empty_world).
Proof.
  intros ctx.
  apply (getitem_not_found (Sample.env false false) ctx "people"
           (Cases.by_id 8) (Sample.people_def false) ∅ Sample.empty_world);
    reflexivity.
Defined.


Lemma select_version_specific_witness :
  let E := Sample.env false false in
  let rd := Sample.people_def false in
  let ctx := Cases.context None None (Some "2") in
  let w := {| heap := [Sample.person]; log := [] |} in
  let lookup' :=
    <["_version" := VInt 2]>
      (delete "_id" (<["_id_document" := VInt 7]> (Cases.by_id 7))) in
  let w1 :=
    with_log (log w ++ [EvFindOne ("people" +:+ "_versions") lookup']) w in
  select_version E ctx "people" rd 0%nat (Cases.by_id 7) w
  = match data_find_one E ("people" +:+ "_versions") None lookup' with
    | None => (inl (HTTPException 404), w1)
    | Some D =>
        if bool_decide (D = ∅) then (inl (HTTPException 404), w1)
        else
          match D !! "_id_document" with
          | Some dref =>
              (inr (S (length (heap w)), lookup', false),
               with_heap
                 (heap w
                  ++ [rekeyed E D dref; merged E rd Sample.person D dref])
                 w1)
          | None =>
              (inl (KeyError "_id_document"),
               with_heap (heap w ++ [D; Sample.person]) w1)
          end
    end.
Proof.
  intros E rd ctx w.
  apply (select_version_specific E ctx "people" rd 0%nat (Cases.by_id 7) "2"
           2 (VInt 7) Sample.person w);
    [reflexivity|reflexivity|discriminate|discriminate|reflexivity|lia
    |reflexivity|reflexivity].
Defined.

Lemma getitem_conditional_response_witness :
  let E := Sample.env true false in
  let ctx := Cases.context (Some "6") None None in
  let w' := (getitem E ctx "people" (Cases.by_id 7) Sample.empty_world).2 in
  let resp := {| resp_body := BodyObj 3%nat;
                 resp_last_modified := VDate 300;
                 resp_etag := VStr "6";
                 resp_status := 304 |} in
  (resp_status resp = 200
   ∧ (IF_MATCH E = false → resp_etag resp = VNone)
   ∧ (IF_MATCH E = true →
      ∀ tag, req_if_none_match (parsed ctx) = Some tag → tag ≠ "" →
             resp_etag resp ≠ VStr tag)
   ∧ (∀ since, req_if_modified_since (parsed ctx) = Some since →
               ∃ t, resp_last_modified resp = VDate t ∧ since < t))
  ∨ (resp_status resp = 304
     ∧ (∃ empty, resp_body resp = BodyObj empty
                 ∧ heap w' !! empty = Some ∅)
     ∧ ((IF_MATCH E = true
         ∧ ∃ tag, req_if_none_match (parsed ctx) = Some tag
                  ∧ resp_etag resp = VStr tag)
        ∨ ∃ since t, req_if_modified_since (parsed ctx) = Some since
                     ∧ resp_last_modified resp = VDate t ∧ t ≤ since)).
Proof.
  intros E ctx w' resp.
  apply (getitem_conditional_response E ctx "people" (Cases.by_id 7)
           Sample.empty_world resp w').
  vm_compute. reflexivity.
Defined.


Lemma versions_response_all_witness :
  let E := Sample.env false false in
  let rd := Sample.people_def false in
  let ctx := Cases.context None None (Some "all") in
  let w := {| heap := [Sample.person; ∅]; log := [] |} in
  let w' :=
    (versions_response E ctx "people" rd [] 0%nat 1%nat (Cases.by_id 7)
       w).2 in
  ∃ ref items,
    Cases.by_id 7 !! "_id" = Some ref
    ∧ emitted E w' (BodyList [4; 6; 8]%nat) = Some items
    ∧ (∀ l, (l < length (heap w))%nat → l ≠ 1%nat →
            heap w' !! l = heap w !! l)
    ∧ let cursor :=
        cur_documents
          (data_find E ("people" +:+ "_versions") (parsed ctx)
             (delete "_id" (<["_id_document" := ref]> (Cases.by_id 7))))
      in
      length items = length cursor
      ∧ ∀ k item, items !! k = Some item →
          ∃ cur,
            cursor !! k ≫= synthesized E "people" rd [] Sample.person
            = Some cur
            ∧ heap w' !! item = Some cur.
Proof.
  intros E rd ctx w w'.
  apply (versions_response_all E "people" rd [] ctx 0%nat 1%nat
           (Cases.by_id 7) Sample.person w (BodyList [4; 6; 8]%nat) w');
    [discriminate|reflexivity|by eexists|].
  vm_compute. reflexivity.
Defined.

Lemma extra_links_adds_collection_and_parent_witness :
  let E := Sample.env false true in
  let rd := Sample.people_def true in
  let ls : Document := <["self" := link "Person" "/people/7"]> ∅ in
  let d : Document := <["_links" := VDict ls]> Sample.person in
  let w := {| heap := [d]; log := [] |} in
  extra_links E "people" rd (BodyObj 0%nat) w
  = (inr tt,
     with_heap
       (<[0%nat := <["_links" :=
                       VDict (<["parent" := home_link E]>
                                (<["collection" :=
                                     link "people" (resource_uri E "people")]>
                                   ls))]> d]>
          (heap w)) w).
Proof.
  intros E rd ls d w.
  apply (extra_links_adds_collection_and_parent E "people" rd 0%nat w d);
    [reflexivity|reflexivity|].
  intros v Hv. vm_compute in Hv. injection Hv as <-. by eexists.
Defined.

Lemma getitem_all_versions_skips_callbacks_witness :
  let E := Sample.env true true in
  let ctx := Cases.context None None (Some "all") in
  ∃ evs,
    log (getitem E ctx "people" (Cases.by_id 7) Sample.empty_world).2
    = log Sample.empty_world ++ evs
    ∧ Forall not_callback evs.
Proof.
  intros E ctx.
  apply (getitem_all_versions_skips_callbacks E ctx "people" (Cases.by_id 7)
           (Sample.people_def true) Sample.empty_world);
    [reflexivity|reflexivity|left; reflexivity].
Defined.

Section ItemCallbacks.
Variable E : Env.

Lemma select_version_single ctx resource rd document lookup w r w' :
  versioning rd = false
  ∨ version_arg ctx ≠ Some "all" ∧ version_arg ctx ≠ Some "diffs" →
  select_version E ctx resource rd document lookup w = (inr r, w') →
  r.2 = false.
Proof.
  intros Hmode. unfold select_version.
  destruct (versioning rd); [|by intros [= <- _]].
  destruct Hmode as [|[Hall Hdiffs]]; [done|].
  rewrite !bool_decide_eq_false_2 by done. cbn [orb].
  destruct (version_arg ctx) as [s|]; [|by intros [= <- _]].
  intros Hrun.
  apply bind_inr_inv in Hrun as (n & w1 & _ & Hrun).
  apply bind_inr_inv in Hrun as (lookup' & w2 & _ & Hrun).
  apply bind_inr_inv in Hrun as (found & w3 & _ & Hrun).
  case_bool_decide; [|discriminate Hrun].
  apply bind_inr_inv in Hrun as (delta & w4 & _ & Hrun).
  apply bind_inr_inv in Hrun as (old & w5 & _ & Hrun).
  rewrite run_mret in Hrun. by injection Hrun as <- _.
Qed.

Lemma respond_single_log ctx resource rd fields latest_doc response document
    lookup last_modified etag w resp w' :
  respond E ctx resource rd fields latest_doc response document lookup false
    last_modified etag w = (inr resp, w') →
  log w' = log w ++ [EvCallback "on_fetch_item";
                     EvCallback ("on_fetch_item_" +:+ lower (item_title rd))].
Proof.
  unfold respond, document_response. intros Hrun.
  apply bind_inr_inv in Hrun as (body & w1 & Hbody & Hrun).
  apply bind_inr_inv in Hbody as (id1 & w2 & [-> _]%obj_get_inv & Hbody).
  apply bind_inr_inv in Hbody as ([] & w3 & Hcall1%run_call_log & Hbody).
  apply bind_inr_inv in Hbody as (id2 & w4 & [-> _]%obj_get_inv & Hbody).
  apply bind_inr_inv in Hbody as ([] & w5 & Hcall2%run_call_log & Hbody).
  rewrite run_mret in Hbody. injection Hbody as <- <-.
  apply (writes_run (λ _, False)) in Hrun as (evs & HP & Hlog).
  2:{ apply writes_bind; [apply writes_extra_links|]. intros ?. writes_auto. }
  destruct evs as [|? ?]; [|by inversion HP].
  rewrite Hlog, Hcall2, Hcall1, app_nil_r. by rewrite <-app_assoc.
Qed.

(** X26.  Lines 284-306: when the response is a single document (versioning
    off, or a version that is neither [all] nor [diffs]), a run of
    [getitem] that answers 200 ends with the calls of [on_fetch_item] and
    of [on_fetch_item_<item title in lower case>], in this order: each is
    called once, after every query of the data layer and every version
    resolution of the run. *)
Theorem getitem_calls_back_last ctx resource lookup rd w resp w' :
  DOMAIN E !! resource = Some rd →
  versioning rd = false
  ∨ version_arg ctx ≠ Some "all" ∧ version_arg ctx ≠ Some "diffs" →
  getitem E ctx resource lookup w = (inr resp, w') →
  resp_status resp = 200 →
  ∃ evs,
    log w' = log w ++ evs
             ++ [EvCallback "on_fetch_item";
                 EvCallback ("on_fetch_item_" +:+ lower (item_title rd))]
    ∧ Forall not_callback evs.
Proof.
  intros Hrd Hmode Hrun Hstatus.
  assert (Hone : ∀ r l, not_callback (EvFindOne r l)) by by intros.
  assert (Hres : ∀ r m b, not_callback (EvResolveVersion r m b))
    by by intros.
  unfold getitem in Hrun.
  rewrite run_bind, run_domain, Hrd in Hrun.
  apply bind_inr_inv in Hrun as (fields & w2 & Hfields & Hrun).
  apply resolve_embedded_fields_inv in Hfields as (? & d & _ & _ & _ & ->).
  apply bind_inr_inv in Hrun as (found & w3 & Hfound & Hrun).
  apply (writes_run not_callback) in Hfound as (evs1 & HP1 & Hlog1);
    [|by apply writes_find_one].
  case_bool_decide; [|discriminate Hrun].
  rewrite (run_bind_inr _ _ _ _ _ (run_alloc _ _)) in Hrun.
  rewrite (run_bind_inr _ _ _ _ _ (run_alloc _ _)) in Hrun.
  apply bind_inr_inv in Hrun as (latest_doc & w6 & Hcopy & Hrun).
  apply (writes_run not_callback) in Hcopy as (evs2 & HP2 & Hlog2);
    [|apply writes_deepcopy].
  apply bind_inr_inv in Hrun as ([[document lookup'] all] & w7 & Hsel & Hrun).
  pose proof (select_version_single _ _ _ _ _ _ _ _ Hmode Hsel) as Hall.
  simpl in Hall. subst all.
  apply (writes_run not_callback) in Hsel as (evs3 & HP3 & Hlog3);
    [|by apply writes_select_version].
  apply bind_inr_inv in Hrun as ([] & w8 & Hbuild & Hrun).
  apply (writes_run not_callback) in Hbuild as (evs4 & HP4 & Hlog4);
    [|by apply writes_build_response_document].
  apply bind_inr_inv
    in Hrun as (last_modified & w9 & [-> _]%obj_get_inv & Hrun).
  cbv zeta in Hrun.
  set (tail := [EvCallback "on_fetch_item"; _]).
  assert (Hend : log w' = log w8 ++ tail).
  { assert (H304 : ∀ w0, not_modified E document last_modified w0
                         ≠ (inr resp, w')).
    { intros w0 (Hst & _)%not_modified_inv. congruence. }
    assert (Hims : ∀ etag,
      match req_if_modified_since (parsed ctx) with
      | Some since =>
          as_date last_modified
          ≫= λ t, if bool_decide (t ≤ since)
                  then not_modified E document last_modified
                  else respond E ctx resource rd fields latest_doc
                         (length (heap w3 ++ [default ∅ found]))
                         document lookup' false last_modified etag
      | None => respond E ctx resource rd fields latest_doc
                  (length (heap w3 ++ [default ∅ found])) document lookup'
                  false last_modified etag
      end w8 = (inr resp, w') →
      log w' = log w8 ++ tail).
    { intros etag Hcont.
      destruct (req_if_modified_since (parsed ctx)) as [since|].
      - apply bind_inr_inv in Hcont as (t & w10 & Hdate & Hcont).
        destruct last_modified as [| | | |t'| |]; try discriminate Hdate.
        cbn [as_date] in Hdate. rewrite run_mret in Hdate.
        injection Hdate as <- <-.
        case_bool_decide; [by apply H304 in Hcont|].
        by apply respond_single_log in Hcont.
      - by apply respond_single_log in Hcont. }
    destruct (IF_MATCH E).
    - apply bind_inr_inv
        in Hrun as (etag & w10 & [-> _]%obj_get_inv & Hrun).
      destruct (truthy_str (req_if_none_match (parsed ctx)));
        [|by apply Hims in Hrun].
      apply bind_inr_inv
        in Hrun as (tag & w10 & [-> _]%obj_get_inv & Hrun).
      destruct (eq_str tag _); [by apply H304 in Hrun|].
      by apply Hims in Hrun.
    - by apply Hims in Hrun. }
  exists (evs1 ++ evs2 ++ evs3 ++ evs4). split; [|by rewrite !Forall_app].
  rewrite Hend, Hlog4, Hlog3, Hlog2. cbn [log with_heap heap].
  rewrite Hlog1. by rewrite <-!app_assoc.
Qed.

End ItemCallbacks.

Lemma getitem_calls_back_last_witness :
  let E := Sample.env true true in
  let ctx := Cases.context None None None in
  let w' := (getitem E ctx "people" (Cases.by_id 7) Sample.empty_world).2 in
  ∃ evs,
    log w' = log Sample.empty_world ++ evs
             ++ [EvCallback "on_fetch_item";
                 EvCallback ("on_fetch_item_" +:+ lower "Person")]
    ∧ Forall not_callback evs.
Proof.
  intros E ctx w'.
  apply (getitem_calls_back_last E ctx "people" (Cases.by_id 7)
           (Sample.people_def true) Sample.empty_world
           {| resp_body := BodyObj 0%nat;
              resp_last_modified := VDate 300;
              resp_etag := VStr "6";
              resp_status := 200 |} w');
    [reflexivity|right; split; discriminate| |reflexivity].
  vm_compute. reflexivity.
Defined.
